(** * Style attribute codec and OCR reconstruction: a shallow embedding

    The Python sources under [project/text_attributes] and
    [project/processing] are embedded as Rocq functions over a small model
    of Python values.  Dictionaries ([span], [block], [style_dict]) are
    finite maps from strings to values; a function that mutates its
    argument in place and may raise runs in a state-and-exception monad
    whose state is the mutated dictionary, so that a mutation performed
    before an exception stays visible.

    Numbers: Python [int] is [Z]; Python [float] is modelled by the exact
    rationals [Qc] (no rounding, no infinities, no NaN).  Strings are
    sequences of 8-bit characters.

    An operation on floats that Python rounds is exact here, and one that
    Python refuses (an [int] beyond the range of floats meeting a float
    raises [OverflowError]) or takes to zero or to infinity returns its
    exact result here.  A statement whose truth depends on any of these is
    made for numbers of bounded magnitude ([ordinary], [in_float_range]
    and [float_exact] below); the Otsu threshold, which compares rounded
    results with each other, is embedded over the arithmetic as a
    parameter. *)

From Stdlib Require Import ZArith QArith Qcanon Qfield String Ascii List Lia Bool.
From stdpp Require Import base option gmap strings list.

#[local] Set Warnings "-register-all".
#[local] Open Scope string_scope.

(** ** Python values, exceptions and primitive operations *)

Module Py.

Inductive exn : Set :=
| TypeError | KeyError | AttributeError | IndexError | ZeroDivisionError
| ValueError.

Inductive result (A : Type) : Type :=
| Ok (a : A)
| Raise (e : exn).
Arguments Ok {A} a.
Arguments Raise {A} e.

Inductive value : Type :=
| VNone
| VBool (b : bool)
| VInt (n : Z)
| VFloat (q : Qc)
| VStr (s : string)
| VList (l : list value)
| VDict (d : gmap string value)
| VObj (attrs : gmap string value).

Abbreviation dict := (gmap string value).

(** A float literal. *)
Definition fl (q : Q) : Qc := Q2Qc q.

(** Comparison of floats, computed on numerators and denominators. *)
Definition Qc_ltb (a b : Qc) : bool := negb (Qle_bool b a).
Definition Qc_eqb (a b : Qc) : bool := Qeq_bool a b.

(** The numeric view of a value: [bool] is a subclass of [int]. *)
Definition as_int (v : value) : option Z :=
  match v with
  | VBool b => Some (if b then 1 else 0)%Z
  | VInt n => Some n
  | _ => None
  end.

Definition as_num (v : value) : option Qc :=
  match v with
  | VBool b => Some (if b then 1 else 0)%Qc
  | VInt n => Some (fl (inject_Z n))
  | VFloat q => Some q
  | _ => None
  end.

Definition is_float (v : value) : bool :=
  match v with VFloat _ => true | _ => false end.

(** [bool(v)]. *)
Definition truthy (v : value) : bool :=
  match v with
  | VNone => false
  | VBool b => b
  | VInt n => negb (n =? 0)%Z
  | VFloat q => negb (Qc_eqb q 0)
  | VStr s => negb (s =? "")%string
  | VList l => match l with [] => false | _ => true end
  | VDict d => negb (bool_decide (d = ∅))
  | VObj _ => true
  end.

(** [v == "lit"] against a string literal: only a [str] can be equal. *)
Definition eq_str (v : value) (lit : string) : bool :=
  match v with VStr s => (s =? lit)%string | _ => false end.

(** [v == n] against an integer: numbers are compared by value. *)
Definition eq_int (v : value) (n : Z) : bool :=
  match as_num v with
  | Some q => Qc_eqb q (fl (inject_Z n))
  | None => false
  end.

(** [v in [lit1, lit2, ...]] for a list or tuple of string literals. *)
Definition in_strs (v : value) (lits : list string) : bool :=
  existsb (eq_str v) lits.

(** [a & b] and [a | b]: defined on [int] and [bool] only. *)
Definition and_ (a b : value) : result value :=
  match a, b with
  | VBool x, VBool y => Ok (VBool (x && y))
  | _, _ =>
      match as_int a, as_int b with
      | Some x, Some y => Ok (VInt (Z.land x y))
      | _, _ => Raise TypeError
      end
  end.

Definition or_ (a b : value) : result value :=
  match a, b with
  | VBool x, VBool y => Ok (VBool (x || y))
  | _, _ =>
      match as_int a, as_int b with
      | Some x, Some y => Ok (VInt (Z.lor x y))
      | _, _ => Raise TypeError
      end
  end.

(** [a * b] on numbers.  Sequence repetition ([int * str], [int * list])
    is not modelled: every product of the embedded code that could be one
    is divided by a number right away, which raises the same [TypeError]
    with no assignment in between. *)
Definition mul (a b : value) : result value :=
  if is_float a || is_float b then
    match as_num a, as_num b with
    | Some x, Some y => Ok (VFloat (x * y))
    | _, _ => Raise TypeError
    end
  else
    match as_int a, as_int b with
    | Some x, Some y => Ok (VInt (x * y))
    | _, _ => Raise TypeError
    end.

(** [a + b]: numbers, and the concatenation of two strings or two lists. *)
Definition add (a b : value) : result value :=
  match a, b with
  | VStr x, VStr y => Ok (VStr (x ++ y))
  | VList x, VList y => Ok (VList (x ++ y))
  | _, _ =>
  if is_float a || is_float b then
    match as_num a, as_num b with
    | Some x, Some y => Ok (VFloat (x + y))
    | _, _ => Raise TypeError
    end
  else
    match as_int a, as_int b with
    | Some x, Some y => Ok (VInt (x + y))
    | _, _ => Raise TypeError
    end
  end.

Definition sub (a b : value) : result value :=
  if is_float a || is_float b then
    match as_num a, as_num b with
    | Some x, Some y => Ok (VFloat (x - y))
    | _, _ => Raise TypeError
    end
  else
    match as_int a, as_int b with
    | Some x, Some y => Ok (VInt (x - y))
    | _, _ => Raise TypeError
    end.

(** [a / b]: true division, always a float. *)
Definition truediv (a b : value) : result value :=
  match as_num a, as_num b with
  | Some x, Some y =>
      if Qc_eqb y 0 then Raise ZeroDivisionError else Ok (VFloat (x / y))
  | _, _ => Raise TypeError
  end.

(** [-a]. *)
Definition neg (a : value) : result value :=
  match a with
  | VFloat q => Ok (VFloat (- q))
  | _ => match as_int a with
         | Some x => Ok (VInt (- x))
         | None => Raise TypeError
         end
  end.

(** [a < b] and [a > b] where one side is a number: the other side has
    to be a number too. *)
Definition lt (a b : value) : result bool :=
  match as_num a, as_num b with
  | Some x, Some y => Ok (Qc_ltb x y)
  | _, _ => Raise TypeError
  end.

Definition gt (a b : value) : result bool := lt b a.

(** [max(a, b)]: [b] when [b > a], else [a]. *)
Definition max2 (a b : value) : result value :=
  match gt b a with
  | Ok true => Ok b
  | Ok false => Ok a
  | Raise e => Raise e
  end.

(** The monad of a function that mutates one object of type [S] in place
    and may raise: the final state is returned in both cases. *)
Definition M (S A : Type) : Type := S -> result A * S.

Definition ret {S A} (a : A) : M S A := fun s => (Ok a, s).

Definition bind {S A B} (m : M S A) (k : A -> M S B) : M S B :=
  fun s => match m s with
           | (Ok a, s') => k a s'
           | (Raise e, s') => (Raise e, s')
           end.

Definition lift {S A} (r : result A) : M S A := fun s => (r, s).

Definition modify {S} (f : S -> S) : M S unit := fun s => (Ok tt, f s).

Definition gets {S A} (f : S -> A) : M S A := fun s => (Ok (f s), s).

(** Operations on the mutated dictionary. *)
Definition contains (k : string) : M dict bool :=
  gets (fun d => bool_decide (is_Some (d !! k))).

Definition getitem (k : string) : M dict value :=
  fun d => match d !! k with
           | Some v => (Ok v, d)
           | None => (Raise KeyError, d)
           end.

Definition get (k : string) (dflt : value) : M dict value :=
  gets (fun d => default dflt (d !! k)).

Definition setitem (k : string) (v : value) : M dict unit :=
  modify (fun d => <[k := v]> d).

(** The same on results alone, for code that does not mutate. *)
Definition rbind {A B} (r : result A) (k : A -> result B) : result B :=
  match r with Ok a => k a | Raise e => Raise e end.

Definition lookup_item (d : dict) (k : string) : result value :=
  match d !! k with Some v => Ok v | None => Raise KeyError end.

(** [obj.name] on an object. *)
Definition getattr (o : value) (name : string) : result value :=
  match o with
  | VObj attrs =>
      match attrs !! name with
      | Some v => Ok v
      | None => Raise AttributeError
      end
  | _ => Raise AttributeError
  end.

End Py.

Import Py.

Declare Scope py_scope.
Delimit Scope py_scope with py.
Notation "'do' x <- m ; k" := (Py.bind m (fun x => k))
  (at level 10, x name, m at level 100, k at level 200) : py_scope.
Notation "'let!' x := r 'in' k" := (Py.rbind r (fun x => k))
  (at level 10, x name, r at level 100, k at level 200) : py_scope.
#[local] Open Scope py_scope.

(** ** Sequences of values *)

Module PySeq.

(** What a [for] loop over [v] visits.  A dictionary yields its keys; the
    order in which it yields them is not modelled and no embedded loop
    depends on it. *)
Definition iter (v : value) : result (list value) :=
  match v with
  | VList l => Ok l
  | VStr s => Ok (map (fun c => VStr (String c EmptyString)) (list_ascii_of_string s))
  | VDict d => Ok (map (fun kv => VStr kv.1) (map_to_list d))
  | _ => Raise TypeError
  end.

(** [max(l)] and [min(l)] of a non-empty list: the first greatest and the
    first least element.  Elements are compared as numbers; a list of two
    or more strings, which Python compares without error, raises
    [TypeError] here, as does the subtraction that every embedded caller
    applies to the result. *)
Fixpoint max_from (best : value) (l : list value) : result value :=
  match l with
  | [] => Ok best
  | item :: l' =>
      let! better := gt item best in
      max_from (if better then item else best) l'
  end.

Fixpoint min_from (best : value) (l : list value) : result value :=
  match l with
  | [] => Ok best
  | item :: l' =>
      let! better := lt item best in
      min_from (if better then item else best) l'
  end.

Definition max_ (l : list value) : result value :=
  match l with [] => Raise ValueError | x :: l' => max_from x l' end.

Definition min_ (l : list value) : result value :=
  match l with [] => Raise ValueError | x :: l' => min_from x l' end.

(** [[f(x) for x in l]] for an [f] that may raise. *)
Fixpoint mapM {A B} (f : A -> result B) (l : list A) : result (list B) :=
  match l with
  | [] => Ok []
  | x :: l' => let! y := f x in let! ys := mapM f l' in Ok (y :: ys)
  end.

(** [v[key]] for a string key. *)
Definition subscript (v : value) (key : string) : result value :=
  match v with
  | VDict d => lookup_item d key
  | _ => Raise TypeError
  end.

(** [sum(l)]: the elements are added to 0 one after the other. *)
Fixpoint sum_from (acc : value) (l : list value) : result value :=
  match l with
  | [] => Ok acc
  | item :: l' => let! acc := add acc item in sum_from acc l'
  end.

Definition sum_ (l : list value) : result value := sum_from (VInt 0) l.

(** [len(v)]. *)
Definition len (v : value) : result nat :=
  match v with
  | VStr s => Ok (String.length s)
  | VList l => Ok (length l)
  | VDict d => Ok (size d)
  | _ => Raise TypeError
  end.

(** [v[i]] for an index [i] that is not negative.  The keys of the
    dictionaries are strings, so that a number is never one of them. *)
Definition index (v : value) (i : nat) : result value :=
  match v with
  | VList l => match l !! i with Some x => Ok x | None => Raise IndexError end
  | VStr s =>
      match String.get i s with
      | Some c => Ok (VStr (String c EmptyString))
      | None => Raise IndexError
      end
  | VDict _ => Raise KeyError
  | _ => Raise TypeError
  end.

End PySeq.

(** ** Python string methods, on characters with code point below 256 *)

Module Str.

Definition code (c : ascii) : N := N_of_ascii c.

Definition between (lo hi : N) (c : ascii) : bool :=
  (lo <=? code c)%N && (code c <=? hi)%N.

(** [str.isspace] of one character: the Unicode white space below 256. *)
Definition isspace (c : ascii) : bool :=
  between 9 13 c || between 28 32 c || (code c =? 133)%N || (code c =? 160)%N.

(** The decimal digits: the only characters of category Nd below 256. *)
Definition isdigit (c : ascii) : bool := between 48 57 c.

Definition lower_char (c : ascii) : ascii :=
  if between 65 90 c || between 192 214 c || between 216 222 c
  then ascii_of_N (code c + 32) else c.

Fixpoint map_chars (f : ascii -> ascii) (s : string) : string :=
  match s with
  | EmptyString => EmptyString
  | String c s' => String (f c) (map_chars f s')
  end.

(** [s.lower()]. *)
Definition lower (s : string) : string := map_chars lower_char s.

(** [s.replace(a, b)] for one-character [a] and [b]. *)
Definition replace_char (a b : ascii) (s : string) : string :=
  map_chars (fun c => if Ascii.eqb c a then b else c) s.

Fixpoint rev_onto (s acc : string) : string :=
  match s with
  | EmptyString => acc
  | String c s' => rev_onto s' (String c acc)
  end.

Definition rev (s : string) : string := rev_onto s EmptyString.

Fixpoint lstrip (s : string) : string :=
  match s with
  | EmptyString => EmptyString
  | String c s' => if isspace c then lstrip s' else s
  end.

Definition rstrip (s : string) : string := rev (lstrip (rev s)).

(** [s.strip()]. *)
Definition strip (s : string) : string := rstrip (lstrip s).

(** [s.split()]: the maximal runs of characters that are not white space.
    [cur] is the run being read, reversed. *)
Fixpoint split_from (s cur : string) : list string :=
  match s with
  | EmptyString =>
      match cur with EmptyString => [] | _ => [rev cur] end
  | String c s' =>
      if isspace c then
        match cur with
        | EmptyString => split_from s' EmptyString
        | _ => rev cur :: split_from s' EmptyString
        end
      else split_from s' (String c cur)
  end.

Definition split (s : string) : list string := split_from s EmptyString.

(** [needle in hay] for two strings. *)
Fixpoint contains (needle hay : string) : bool :=
  String.prefix needle hay ||
  match hay with
  | EmptyString => false
  | String _ hay' => contains needle hay'
  end.

(** [s.startswith(p)] and [s.endswith(p)]. *)
Definition startswith (s p : string) : bool := String.prefix p s.
Definition endswith (s p : string) : bool := String.prefix (rev p) (rev s).

(** [s[:-n]] for [0 < n <= len(s)]. *)
Definition drop_last (n : nat) (s : string) : string :=
  String.substring 0 (String.length s - n) s.

(** [s.split(sep)] for a one-character separator: the pieces between the
    separators, at least one.  [cur] is the piece being read, reversed. *)
Fixpoint split_at (sep : ascii) (s cur : string) : list string :=
  match s with
  | EmptyString => [rev cur]
  | String c s' =>
      if Ascii.eqb c sep then rev cur :: split_at sep s' EmptyString
      else split_at sep s' (String c cur)
  end.

Definition split_on (sep : ascii) (s : string) : list string :=
  split_at sep s EmptyString.

(** The cased characters below 256. *)
Definition isupper_char (c : ascii) : bool :=
  between 65 90 c || between 192 214 c || between 216 222 c.

Definition islower_char (c : ascii) : bool :=
  between 97 122 c || (code c =? 170)%N || (code c =? 181)%N || (code c =? 186)%N
  || between 223 246 c || between 248 255 c.

Fixpoint any_char (p : ascii -> bool) (s : string) : bool :=
  match s with
  | EmptyString => false
  | String c s' => p c || any_char p s'
  end.

(** [s.islower()]: some cased character, and none in upper case. *)
Definition islower (s : string) : bool :=
  any_char islower_char s && negb (any_char isupper_char s).

End Str.

(** The operator [lit in container] for a string literal on the left. *)
Definition str_in (lit : string) (container : value) : result bool :=
  match container with
  | VStr s => Ok (Str.contains lit s)
  | VList l => Ok (existsb (fun v => eq_str v lit) l)
  | VDict d => Ok (bool_decide (is_Some (d !! lit)))
  | _ => Raise TypeError
  end.

(** ** utils/font_mapping.py *)

Module font_mapping.

Definition FONT_FAMILY_MAP : gmap string string :=
  list_to_map
    [ ("arial", "helvetica"); ("verdana", "helvetica"); ("tahoma", "helvetica");
      ("trebuchet", "helvetica"); ("segoe ui", "helvetica");
      ("georgia", "times"); ("palatino", "times"); ("garamond", "times");
      ("cambria", "times");
      ("consolas", "courier"); ("monaco", "courier");
      ("lucida console", "courier") ].

Definition strip_suffix (name suffix : string) : string :=
  if Str.endswith name suffix
  then Str.drop_last (String.length suffix) name
  else name.

Definition normalize_font_name (font_name : value) : result string :=
  match font_name with
  | VStr font_name =>
      let name := Str.strip (Str.lower font_name) in
      let name := Str.replace_char "-" " " name in
      let suffixes := [" mt"; " ms"; " std"; " pro"; " regular"] in
      let name := fold_left strip_suffix suffixes name in
      Ok (Str.strip name)
  | _ => Raise AttributeError
  end.

Definition get_font_metrics (font_name : value) : result dict :=
  let metrics : dict :=
    list_to_map
      [ ("x_height", VFloat (fl 0.5)); ("cap_height", VFloat (fl 0.7));
        ("ascender", VFloat (fl 0.8)); ("descender", VFloat (fl (-0.2)));
        ("line_gap", VFloat (fl 0.2)); ("stem_width", VFloat (fl 0.08));
        ("underline_position", VFloat (fl (-0.1)));
        ("underline_thickness", VFloat (fl 0.05)) ] in
  let! font_name := normalize_font_name font_name in
  match FONT_FAMILY_MAP !! font_name with
  | Some base_font =>
      if (base_font =? "times")%string then
        Ok (<["stem_width" := VFloat (fl 0.06)]>
             (<["cap_height" := VFloat (fl 0.65)]>
               (<["x_height" := VFloat (fl 0.45)]> metrics)))
      else if (base_font =? "courier")%string then
        Ok (<["line_gap" := VFloat (fl 0.25)]>
             (<["stem_width" := VFloat (fl 0.1)]>
               (<["x_height" := VFloat (fl 0.52)]> metrics)))
      else Ok metrics
  | None => Ok metrics
  end.

Definition CORE_FONTS : gmap string (gmap string string) :=
  list_to_map
    [ ("helvetica",
       list_to_map [ ("normal", "helv"); ("bold", "helvb"); ("italic", "helvi");
                     ("bold-italic", "helvbi") ]);
      ("times",
       list_to_map [ ("normal", "tiro"); ("bold", "tirob"); ("italic", "tiroi");
                     ("bold-italic", "tirobi") ]);
      ("courier",
       list_to_map [ ("normal", "cour"); ("bold", "courb"); ("italic", "couri");
                     ("bold-italic", "courbi") ]) ].

(** [l[0]]. *)
Definition first (l : list string) : result string :=
  match l with x :: _ => Ok x | [] => Raise IndexError end.

Definition get_font_variant (font_name bold italic : value) : result string :=
  match font_name with
  | VStr font_name =>
      (* Normalize font name *)
      let! font_name := first (Str.split_on "-" (Str.lower font_name)) in
      let font_name := Str.strip font_name in
      (* Map to core font family *)
      let base_font := default font_name (FONT_FAMILY_MAP !! font_name) in
      let base_font :=
        if bool_decide (is_Some (CORE_FONTS !! base_font)) then base_font
        else "helvetica" in
      (* Determine variant *)
      let style :=
        if truthy bold && truthy italic then "bold-italic"
        else if truthy bold then "bold"
        else if truthy italic then "italic"
        else "normal" in
      match CORE_FONTS !! base_font with
      | Some variants =>
          match variants !! style with
          | Some name => Ok name
          | None => Raise KeyError
          end
      | None => Raise KeyError
      end
  | _ => Raise AttributeError
  end.

(** [font_name in group or any(f.startswith(font_name) for f in group)]. *)
Definition in_group (font_name : string) (group : list string) : bool :=
  bool_decide (font_name ∈ group)
  || existsb (fun f => Str.startswith f font_name) group.

Definition get_similar_fonts (font_name : value) : result (list string) :=
  match font_name with
  | VStr font_name =>
      let font_name := Str.lower font_name in
      (* Group similar fonts *)
      let sans_serif := ["helvetica"; "arial"; "verdana"; "tahoma"] in
      let serif := ["times"; "georgia"; "palatino"; "garamond"] in
      let monospace := ["courier"; "consolas"; "monaco"] in
      if in_group font_name sans_serif then Ok sans_serif
      else if in_group font_name serif then Ok serif
      else if in_group font_name monospace then Ok monospace
      else Ok ["helvetica"]
  | _ => Raise AttributeError
  end.

Definition supports_style (font_name style : value) : result bool :=
  let! font_name := normalize_font_name font_name in
  let base_font := default "helvetica" (FONT_FAMILY_MAP !! font_name) in
  (* All core fonts support basic styles *)
  if bool_decide (is_Some (CORE_FONTS !! base_font)) then
    if in_strs style ["bold"; "italic"; "bold-italic"] then Ok true
    else Ok false
  else Ok false.

End font_mapping.

(** ** text_attributes/underline_handling.py *)

Module underline_handling.
Import font_mapping.

Definition reinsert_underline (style_dict : dict) : M dict unit :=
  match style_dict !! "text-decoration" with
  | Some decoration =>
      do has_underline <- lift (str_in "underline" decoration) ;
      if has_underline then
        (* Set underline flag *)
        do flags <- get "flags" (VInt 0) ;
        do flags <- lift (or_ flags (VInt 4)) ;
        do _ <- setitem "flags" flags ;
        (* Parse style and color *)
        do parts <- lift (match decoration with
                          | VStr s => Ok (Str.split s)
                          | _ => Raise AttributeError
                          end) ;
        let style := match parts with _ :: p1 :: _ => p1 | _ => "solid" end in
        let color := match parts with
                     | _ :: _ :: (_ :: _) as rest => VList (map VStr rest)
                     | _ => VNone
                     end in
        (* Store underline properties *)
        do _ <- setitem "underline_style" (VStr style) ;
        do _ <- (if truthy color then setitem "underline_color" color else ret tt) ;
        (* Calculate underline position and thickness *)
        do font_size <- get "size" (VInt 12) ;
        do font <- get "font" (VStr "helvetica") ;
        do metrics <- lift (get_font_metrics font) ;
        do up <- lift (lookup_item metrics "underline_position") ;
        do position <- lift (mul font_size up) ;
        do ut <- lift (lookup_item metrics "underline_thickness") ;
        do thickness <- lift (mul font_size ut) ;
        if (style =? "double")%string then
          do t3 <- lift (mul thickness (VInt 3)) ;
          do second <- lift (sub position t3) ;
          do _ <- setitem "underline_positions" (VList [position; second]) ;
          setitem "underline_thickness" thickness
        else if existsb (String.eqb style) ["dotted"; "dashed"] then
          do _ <-
            (if (style =? "dotted")%string then
               do gap <- lift (mul thickness (VInt 2)) ;
               setitem "underline_dash" (VList [thickness; gap])
             else
               do dash <- lift (mul thickness (VInt 3)) ;
               do gap <- lift (mul thickness (VInt 2)) ;
               setitem "underline_dash" (VList [dash; gap])) ;
          do _ <- setitem "underline_position" position ;
          setitem "underline_thickness" thickness
        else if (style =? "wavy")%string then
          do amplitude <- lift (mul thickness (VInt 2)) ;
          do length <- lift (mul font_size (VFloat (fl 0.4))) ;
          setitem "underline_wave"
            (VDict (<["position" := position]>
                     (<["length" := length]>
                       (<["amplitude" := amplitude]> ∅))))
        else
          do _ <- setitem "underline_position" position ;
          setitem "underline_thickness" thickness
      else ret tt
  | None => ret tt
  end.

Section Formatting.

(** The text that an f-string substitutes for a value ([format(v)]). *)
Variable format : value -> string.


End Formatting.

Definition get_available_styles : list string :=
  ["solid"; "dotted"; "dashed"; "double"; "wavy"].

Definition calculate_underline_metrics (font_size style : value) : result dict :=
  let! t := mul font_size (VFloat (fl 0.05)) in
  let! base_thickness := max2 (VFloat (fl 0.5)) t in
  let! m := neg font_size in
  let! base_position := mul m (VFloat (fl 0.15)) in
  let! gap := mul base_thickness (VInt 2) in
  let metrics : dict :=
    <["gap" := gap]>
      (<["position" := base_position]> (<["thickness" := base_thickness]> ∅)) in
  if eq_str style "double" then
    let! between := mul base_thickness (VInt 2) in
    let! t3 := mul base_thickness (VInt 3) in
    let! second := sub base_position t3 in
    Ok (<["second_position" := second]> (<["gap_between_lines" := between]> metrics))
  else if eq_str style "wavy" then
    let! amplitude := mul base_thickness (VInt 2) in
    let! length := mul font_size (VFloat (fl 0.4)) in
    Ok (<["wave_length" := length]> (<["wave_amplitude" := amplitude]> metrics))
  else Ok metrics.

End underline_handling.

(** ** text_attributes/dashed_underline_handling.py *)

Module dashed_underline_handling.

Definition extract_dashed_underline (span : value) : result string :=
  match span with
  | VDict span =>
      let flags := default (VInt 0) (span !! "flags") in
      let! underlined := and_ flags (VInt 4) in
      if truthy underlined then
        let style := default (VStr "") (span !! "underline_style") in
        if eq_str style "dashed" then Ok "text-decoration-style: dashed;"
        else if eq_str style "dotted" then Ok "text-decoration-style: dotted;"
        else if eq_str style "wavy" then Ok "text-decoration-style: wavy;"
        else Ok ""
      else Ok ""
  | _ => Ok ""
  end.

(** [k * font_size/12], [max(0.5, font_size * k)] and [-font_size * k]. *)
Definition twelfths (k : Z) (font_size : value) : result value :=
  let! p := mul (VInt k) font_size in truediv p (VInt 12).

Definition thickness_of (font_size : value) (k : Q) : result value :=
  let! t := mul font_size (VFloat (fl k)) in max2 (VFloat (fl 0.5)) t.

Definition below (font_size : value) (k : Q) : result value :=
  let! m := neg font_size in mul m (VFloat (fl k)).

Definition reinsert_dashed_underline (style_dict : dict) : M dict unit :=
  match style_dict !! "text-decoration-style" with
  | Some style =>
      if in_strs style ["dashed"; "dotted"; "wavy"] then
        (* Set basic underline flag *)
        do flags <- get "flags" (VInt 0) ;
        do flags <- lift (or_ flags (VInt 4)) ;
        do _ <- setitem "flags" flags ;
        do _ <- setitem "underline_style" style ;
        (* Calculate metrics based on font size *)
        do has_size <- contains "size" ;
        if has_size then
          do font_size <- getitem "size" ;
          do _ <-
            (if eq_str style "dashed" then
               do dash <- lift (twelfths 3 font_size) ;
               do gap <- lift (twelfths 2 font_size) ;
               do _ <- setitem "dash_pattern" (VList [dash; gap]) ;
               do thickness <- lift (thickness_of font_size 0.04) ;
               do _ <- setitem "underline_thickness" thickness ;
               do position <- lift (below font_size 0.1) ;
               setitem "underline_position" position
             else if eq_str style "dotted" then
               do dot <- lift (truediv font_size (VInt 12)) ;
               do gap <- lift (twelfths 2 font_size) ;
               do _ <- setitem "dash_pattern" (VList [dot; gap]) ;
               do thickness <- lift (thickness_of font_size 0.08) ;
               do _ <- setitem "underline_thickness" thickness ;
               do position <- lift (below font_size 0.1) ;
               setitem "underline_position" position
             else if eq_str style "wavy" then
               do amplitude <- lift (mul font_size (VFloat (fl 0.05))) ;
               do _ <- setitem "wave_amplitude" amplitude ;
               do length <- lift (mul font_size (VFloat (fl 0.4))) ;
               do _ <- setitem "wave_length" length ;
               do thickness <- lift (thickness_of font_size 0.04) ;
               do _ <- setitem "underline_thickness" thickness ;
               do position <- lift (below font_size 0.15) ;
               setitem "underline_position" position
             else ret tt) ;
          (* Store the baseline offset for consistent positioning *)
          do offset <- lift (below font_size 0.1) ;
          setitem "baseline_offset" offset
        else ret tt
      else ret tt
  | None => ret tt
  end.

Definition calculate_dash_pattern (font_size : value) (style : value)
  : result dict :=
  let! thickness := thickness_of font_size 0.04 in
  let! offset := below font_size 0.1 in
  let metrics : dict := <["offset" := offset]> (<["thickness" := thickness]> ∅) in
  if eq_str style "dashed" then
    let! dash := twelfths 3 font_size in
    let! gap := twelfths 2 font_size in
    Ok (<["gap_length" := gap]> (<["dash_length" := dash]> metrics))
  else if eq_str style "dotted" then
    let! dot := truediv font_size (VInt 12) in
    let! gap := twelfths 2 font_size in
    Ok (<["gap_length" := gap]> (<["dot_diameter" := dot]> metrics))
  else if eq_str style "wavy" then
    let! amplitude := mul font_size (VFloat (fl 0.05)) in
    let! length := mul font_size (VFloat (fl 0.4)) in
    Ok (<["wave_length" := length]> (<["wave_amplitude" := amplitude]> metrics))
  else Ok metrics.

End dashed_underline_handling.

(** ** text_attributes/vertical_align_handling.py *)

Module vertical_align_handling.

Definition extract_vertical_align (span : value) : result string :=
  match span with
  | VDict span =>
      let flags := default (VInt 0) (span !! "flags") in
      let! f2 := and_ flags (VInt 2) in
      if truthy f2 then Ok "vertical-align: super;"
      else
        let! f3 := and_ flags (VInt 3) in
        if truthy f3 then Ok "vertical-align: sub;"
        else
          match span !! "rise" with
          | Some rise =>
              let! pos := gt rise (VInt 0) in
              if pos then Ok "vertical-align: super;"
              else
                let! negative := lt rise (VInt 0) in
                if negative then Ok "vertical-align: sub;"
                else Ok "vertical-align: baseline;"
          | None => Ok "vertical-align: baseline;"
          end
  | _ => Ok ""
  end.

(** [span.get("size", 12) * k]. *)
Definition size_times (k : Qc) : M dict value :=
  do size <- get "size" (VInt 12) ; lift (mul size (VFloat k)).

Definition neg_size_times (k : Qc) : M dict value :=
  do size <- get "size" (VInt 12) ;
  do m <- lift (neg size) ;
  lift (mul m (VFloat k)).

Definition reinsert_vertical_align (style_dict : dict) : M dict unit :=
  match style_dict !! "vertical-align" with
  | Some align =>
      (* Reset any existing alignment *)
      do flags <- get "flags" (VInt 0) ;
      do cleared <- lift (and_ flags (VInt (Z.lnot (Z.lor 2 3)))) ;
      do _ <- setitem "flags" cleared ;
      do _ <- setitem "rise" (VInt 0) ;
      (* Apply new alignment *)
      do _ <-
        (if eq_str align "super" then
         do flags <- getitem "flags" ;
         do flags' <- lift (or_ flags (VInt 2)) ;
         do _ <- setitem "flags" flags' ;
         do rise <- size_times (fl 0.33) ;
         setitem "rise" rise
       else if eq_str align "sub" then
         do flags <- getitem "flags" ;
         do flags' <- lift (or_ flags (VInt 3)) ;
         do _ <- setitem "flags" flags' ;
         do rise <- neg_size_times (fl 0.33) ;
         setitem "rise" rise
       else if eq_str align "text-top" then
         do rise <- get "size" (VInt 12) ;
         setitem "rise" rise
       else if eq_str align "text-bottom" then
         do size <- get "size" (VInt 12) ;
         do rise <- lift (neg size) ;
         setitem "rise" rise
       else if eq_str align "middle" then
         do rise <- size_times (fl 0.5) ;
         setitem "rise" rise
       else ret tt) ;
      (* Adjust font size for sub/superscript *)
      if in_strs align ["sub"; "super"] then
        do size <- size_times (fl 0.75) ;
        setitem "size" size
      else ret tt
  | None => ret tt
  end.

(** The table of [normalize_vertical_align]. *)
Definition align_values : gmap string Qc :=
  list_to_map
    [ ("super", fl 0.33); ("sub", fl (-0.33)); ("text-top", fl 1.0);
      ("text-bottom", fl (-1.0)); ("middle", fl 0.5); ("baseline", fl 0.0) ].

(** A number is converted to a float; any other value is looked up in the
    table, which hashes it: lists and dictionaries cannot be hashed. *)
Definition normalize_vertical_align (v : value) : result value :=
  match v with
  | VBool _ | VInt _ | VFloat _ =>
      match as_num v with
      | Some q => Ok (VFloat q)
      | None => Raise TypeError
      end
  | VStr s => Ok (VFloat (default (fl 0.0) (align_values !! s)))
  | VNone | VObj _ => Ok (VFloat (fl 0.0))
  | VList _ | VDict _ => Raise TypeError
  end.

Definition get_available_alignments : list string :=
  ["baseline"; "sub"; "super"; "text-top"; "text-bottom"; "middle"].

End vertical_align_handling.

(** ** The regular expressions of the sources

    A backtracking matcher for the fragment of [re] the sources use:
    literals, concatenation, ordered alternation, greedy [?], greedy [*]
    and [+] over a character class, and numbered capturing groups.  The
    continuation [k] receives the rest of the subject and the groups
    captured so far; a failing continuation makes the matcher backtrack. *)

Module Re.

Inductive regex : Type :=
| Lit (s : string)
| Cat (r1 r2 : regex)
| Alt (r1 r2 : regex)
| Opt (r : regex)
| Star (p : ascii -> bool)
| Plus (p : ascii -> bool)
| Group (i : nat) (r : regex).

Abbreviation captures := (gmap nat string).

Fixpoint strip_prefix (l s : string) : option string :=
  match l, s with
  | EmptyString, _ => Some s
  | String a l', String b s' => if Ascii.eqb a b then strip_prefix l' s' else None
  | String _ _, EmptyString => None
  end.

(** Greedy repetition of a class: the longest run first, then shorter. *)
Fixpoint star {A} (p : ascii -> bool) (s : string) (k : string -> option A)
  : option A :=
  match s with
  | String c s' =>
      if p c then
        match star p s' k with
        | Some r => Some r
        | None => k s
        end
      else k s
  | EmptyString => k s
  end.

(** What was consumed between the subject [s] and its suffix [rest]. *)
Definition consumed (s rest : string) : string :=
  String.substring 0 (String.length s - String.length rest) s.

Fixpoint rmatch (r : regex) (s : string) (caps : captures)
    (k : string -> captures -> option captures) : option captures :=
  match r with
  | Lit l =>
      match strip_prefix l s with
      | Some rest => k rest caps
      | None => None
      end
  | Cat r1 r2 => rmatch r1 s caps (fun rest caps' => rmatch r2 rest caps' k)
  | Alt r1 r2 =>
      match rmatch r1 s caps k with
      | Some c => Some c
      | None => rmatch r2 s caps k
      end
  | Opt r1 =>
      match rmatch r1 s caps k with
      | Some c => Some c
      | None => k s caps
      end
  | Star p => star p s (fun rest => k rest caps)
  | Plus p =>
      match s with
      | String c s' => if p c then star p s' (fun rest => k rest caps) else None
      | EmptyString => None
      end
  | Group i r1 =>
      rmatch r1 s caps (fun rest caps' => k rest (<[i := consumed s rest]> caps'))
  end.

(** [re.match(pattern, s)]: anchored at the start, not at the end. *)
Definition match_ (pattern : regex) (s : string) : option captures :=
  rmatch pattern s ∅ (fun _ caps => Some caps).

End Re.

(** ** [float(s)] on decimal literals

    The part of the built-in [float] that reads an optional sign, digits
    and an optional fraction; exponents, [inf], [nan], underscores and
    surrounding white space are not modelled (such a string raises
    [ValueError] here).  The sources call [float] on the first group of
    the size pattern only, which is always a plain decimal literal. *)

Module Float.

Definition digit_value (c : ascii) : Z := Z.of_N (Str.code c) - 48.

(** The value of a string of digits read after the prefix value [acc]. *)
Fixpoint digits (s : string) (acc : Z) : option Z :=
  match s with
  | EmptyString => Some acc
  | String c s' =>
      if Str.isdigit c then digits s' (10 * acc + digit_value c)%Z else None
  end.

(** Cut at the first ".". *)
Fixpoint cut_dot (s : string) : string * option string :=
  match s with
  | EmptyString => (EmptyString, None)
  | String c s' =>
      if Ascii.eqb c "." then (EmptyString, Some s')
      else let (a, b) := cut_dot s' in (String c a, b)
  end.

Definition unsigned (s : string) : option Qc :=
  match cut_dot s with
  | (ip, None) =>
      match ip with
      | EmptyString => None
      | _ => n ← digits ip 0; Some (fl (inject_Z n))
      end
  | (ip, Some fp) =>
      match ip, fp with
      | EmptyString, EmptyString => None
      | _, _ =>
          n ← digits ip 0;
          m ← digits fp n;
          Some (fl (inject_Z m) / fl (inject_Z (10 ^ Z.of_nat (String.length fp))))%Qc
      end
  end.

Definition of_string (s : string) : result Qc :=
  let r := match s with
           | String "-" s' => Qcopp <$> unsigned s'
           | String "+" s' => unsigned s'
           | _ => unsigned s
           end in
  match r with Some q => Ok q | None => Raise ValueError end.

End Float.

(** ** The standard library's [re.sub]

    Substitution for the patterns of [clean_ocr_text]: a fixed sequence of
    character classes, some of them capture groups, or one class repeated
    ([\s+]).  The replacement template is parsed as the library parses it:
    literal characters, the single-letter escapes, octal escapes and
    numeric group references; a reference to a group that the pattern does
    not have is an error, raised before the string is looked at.  Named
    references ([\g<...>]) are outside the model. *)

Module ReSub.

(** What a call can raise: a built-in exception, or [re.error]. *)
Inductive thrown : Type :=
| Builtin (e : Py.exn)
| re_error (msg : string)
| not_modelled.

Inductive outcome (A : Type) : Type :=
| Return (a : A)
| Throw (t : thrown).
Arguments Return {A} a.
Arguments Throw {A} t.

Definition obind {A B} (o : outcome A) (k : A -> outcome B) : outcome B :=
  match o with Return a => k a | Throw t => Throw t end.

Inductive atom : Type :=
| One (p : ascii -> bool)      (* one character of a class *)
| Grp (p : ascii -> bool).     (* the same, as a capture group *)

Inductive pattern : Type :=
| Chars (atoms : list atom)
| Run (p : ascii -> bool).     (* [p+] *)

Definition is_group (a : atom) : bool :=
  match a with Grp _ => true | One _ => false end.

Definition class (a : atom) : ascii -> bool :=
  match a with Grp p => p | One p => p end.

(** [pattern.groups]. *)
Definition groups (pat : pattern) : nat :=
  match pat with
  | Chars atoms => length (List.filter is_group atoms)
  | Run _ => O
  end.

(** *** Replacement templates *)

Inductive item : Type :=
| Lit (c : ascii)
| Ref (index : nat).

Definition isoct (c : ascii) : bool := Str.between 48 55 c.

Definition digit (c : ascii) : nat := N.to_nat (Str.code c - 48).

(** The single-letter escapes of a template. *)
Definition escape (c : ascii) : option ascii :=
  if Ascii.eqb c "a" then Some (ascii_of_nat 7)
  else if Ascii.eqb c "b" then Some (ascii_of_nat 8)
  else if Ascii.eqb c "f" then Some (ascii_of_nat 12)
  else if Ascii.eqb c "n" then Some (ascii_of_nat 10)
  else if Ascii.eqb c "r" then Some (ascii_of_nat 13)
  else if Ascii.eqb c "t" then Some (ascii_of_nat 9)
  else if Ascii.eqb c "v" then Some (ascii_of_nat 11)
  else if Ascii.eqb c "\" then Some "\"%char
  else None.

Definition isletter (c : ascii) : bool :=
  Str.between 65 90 c || Str.between 97 122 c.

Definition nat_text (n : nat) : string :=
  if (n <? 10)%nat then String (ascii_of_nat (48 + n)) EmptyString
  else String (ascii_of_nat (48 + n / 10))
         (String (ascii_of_nat (48 + n mod 10)) EmptyString).

(** [addgroup]: a reference is checked against the number of groups of
    the pattern when the template is parsed. *)
Definition addgroup (ngroups index : nat) (rest : outcome (list item))
  : outcome (list item) :=
  if (ngroups <? index)%nat
  then Throw (re_error ("invalid group reference " ++ nat_text index))
  else obind rest (fun items => Return (Ref index :: items)).

Definition literal (c : ascii) (rest : outcome (list item)) : outcome (list item) :=
  obind rest (fun items => Return (Lit c :: items)).

Fixpoint parse_template (ngroups : nat) (template : string) : outcome (list item) :=
  match template with
  | EmptyString => Return []
  | String c rest =>
      if negb (Ascii.eqb c "\") then literal c (parse_template ngroups rest)
      else
        match rest with
        | EmptyString => Throw (re_error "bad escape (end of pattern)")
        | String c1 rest1 =>
            if Ascii.eqb c1 "g" then Throw not_modelled
            else if Ascii.eqb c1 "0" then
              (* an octal escape of up to three digits *)
              match rest1 with
              | String c2 rest2 =>
                  if isoct c2 then
                    match rest2 with
                    | String c3 rest3 =>
                        if isoct c3
                        then literal (ascii_of_nat ((8 * digit c2 + digit c3) mod 256))
                               (parse_template ngroups rest3)
                        else literal (ascii_of_nat (digit c2))
                               (parse_template ngroups rest2)
                    | EmptyString => Return [Lit (ascii_of_nat (digit c2))]
                    end
                  else literal (ascii_of_nat 0) (parse_template ngroups rest1)
              | EmptyString => Return [Lit (ascii_of_nat 0)]
              end
            else if Str.isdigit c1 then
              match rest1 with
              | String c2 rest2 =>
                  if Str.isdigit c2 then
                    match rest2 with
                    | String c3 rest3 =>
                        if isoct c1 && isoct c2 && isoct c3 then
                          (* three octal digits: a character *)
                          let code := 64 * digit c1 + 8 * digit c2 + digit c3 in
                          if (255 <? code)%nat
                          then Throw (re_error "octal escape value outside of range 0-0o377")
                          else literal (ascii_of_nat code) (parse_template ngroups rest3)
                        else addgroup ngroups (10 * digit c1 + digit c2)
                               (parse_template ngroups rest2)
                    | EmptyString =>
                        addgroup ngroups (10 * digit c1 + digit c2) (Return [])
                    end
                  else addgroup ngroups (digit c1) (parse_template ngroups rest1)
              | EmptyString => addgroup ngroups (digit c1) (Return [])
              end
            else
              match escape c1 with
              | Some e => literal e (parse_template ngroups rest1)
              | None =>
                  if isletter c1 then Throw (re_error "bad escape")
                  else literal c (literal c1 (parse_template ngroups rest1))
              end
        end
  end.

(** The text that a template stands for, given the captured groups. *)
Fixpoint expand (items : list item) (caps : list string) : string :=
  match items with
  | [] => EmptyString
  | Lit c :: items' => String c (expand items' caps)
  | Ref O :: items' => expand items' caps
  | Ref (S i) :: items' => nth i caps EmptyString ++ expand items' caps
  end.

(** *** Matching and scanning *)

(** The groups captured when [atoms] match a prefix of [s]. *)
Fixpoint match_atoms (atoms : list atom) (s : string) : option (list string) :=
  match atoms with
  | [] => Some []
  | a :: atoms' =>
      match s with
      | EmptyString => None
      | String c s' =>
          if class a c then
            match match_atoms atoms' s' with
            | Some caps =>
                Some (if is_group a then String c EmptyString :: caps else caps)
            | None => None
            end
          else None
      end
  end.

(** Leftmost matches that do not overlap are replaced; [skip] counts the
    characters of the last match that are still to be passed over. *)
Fixpoint scan (atoms : list atom) (items : list item) (s : string) (skip : nat)
  : string :=
  match s with
  | EmptyString =>
      match atoms with
      | [] => expand items []
      | _ => EmptyString
      end
  | String c s' =>
      match skip with
      | S skip' => scan atoms items s' skip'
      | O =>
          match match_atoms atoms s with
          | Some caps =>
              match atoms with
              | [] => expand items caps ++ String c (scan atoms items s' O)
              | _ :: atoms' => expand items caps ++ scan atoms items s' (length atoms')
              end
          | None => String c (scan atoms items s' O)
          end
      end
  end.

(** Every maximal run of characters of the class is replaced. *)
Fixpoint scan_runs (p : ascii -> bool) (repl : string) (s : string) (inside : bool)
  : string :=
  match s with
  | EmptyString => EmptyString
  | String c s' =>
      if p c then
        if inside then scan_runs p repl s' true
        else repl ++ scan_runs p repl s' true
      else String c (scan_runs p repl s' false)
  end.

(** [re.sub(pattern, repl, string)].  A template without a backslash is
    taken literally. *)
Definition compile_template (pat : pattern) (repl : string) : outcome (list item) :=
  if Str.contains "\" repl then parse_template (groups pat) repl
  else Return (map Lit (list_ascii_of_string repl)).

Definition sub (pat : pattern) (repl : string) (s : string) : outcome string :=
  obind (compile_template pat repl) (fun items =>
    Return match pat with
           | Chars atoms => scan atoms items s O
           | Run p => scan_runs p (expand items []) s false
           end).

End ReSub.

(** ** text_attributes/font_size_handling.py *)

Module font_size_handling.
Import Re.

(** [(-?\d*\.?\d+)\s*(pt|px|em|rem|%)?], in its three parts. *)
Definition number_pattern : regex :=
  Cat (Opt (Lit "-"))
 (Cat (Star Str.isdigit)
 (Cat (Opt (Lit "."))
      (Plus Str.isdigit))).

Definition unit_pattern : regex :=
  Alt (Lit "pt") (Alt (Lit "px") (Alt (Lit "em") (Alt (Lit "rem") (Lit "%")))).

Definition size_pattern : regex :=
  Cat (Group 1 number_pattern)
 (Cat (Star Str.isspace)
      (Opt (Group 2 unit_pattern))).

Definition unit_conversions : gmap string Qc :=
  list_to_map
    [ ("pt", fl 1.0); ("px", fl 0.75); ("em", fl 12.0); ("rem", fl 12.0);
      ("%", fl 0.12) ].

(** [match.group(i)] of a group that has to be there. *)
Definition group (caps : captures) (i : nat) : result string :=
  match caps !! i with Some g => Ok g | None => Raise IndexError end.

(** The common body of the normalizers: [dflt] is the value returned when
    the pattern does not match. *)
Definition normalize_with (dflt : Qc) (size : value) : result value :=
  match size with
  | VBool _ | VInt _ | VFloat _ =>
      match as_num size with
      | Some q => Ok (VFloat q)
      | None => Raise TypeError
      end
  | VStr s =>
      (* Extract numeric value and unit *)
      match match_ size_pattern s with
      | None => Ok (VFloat dflt)
      | Some caps =>
          let! g1 := group caps 1 in
          let! value := Float.of_string g1 in
          let unit := match caps !! 2 with
                      | Some u => if (u =? "")%string then "pt" else u
                      | None => "pt"
                      end in
          (* Convert to points *)
          match unit_conversions !! unit with
          | Some ratio => Ok (VFloat (value * ratio))
          | None => Raise KeyError
          end
      end
  | _ => Raise TypeError
  end.

Definition normalize_font_size (size : value) : result value :=
  normalize_with (fl 12.0) size.

(** [span[key].attr *= k] on the object stored under [key].  A [VObj] is
    an object whose attributes can be read and assigned; a box that is a
    tuple or a list of coordinates has no attribute [attr], and reading it
    raises. *)
Definition scale_attr (key attr : string) (k : value) : M dict unit :=
  do obj <- getitem key ;
  do old <- lift (getattr obj attr) ;
  do new <- lift (mul old k) ;
  match obj with
  | VObj attrs => setitem key (VObj (<[attr := new]> attrs))
  | _ => lift (Raise AttributeError)
  end.

Definition reinsert_font_size (style_dict : dict) : M dict unit :=
  match style_dict !! "font-size" with
  | Some v =>
      do size <- lift (normalize_font_size v) ;
      do _ <- setitem "size" size ;
      (* Update text scaling and positioning *)
      do has_text <- contains "text" ;
      do has_bbox <- contains "bbox" ;
      if has_text && has_bbox then
        (* Calculate new dimensions based on size change *)
        do old_size <- get "size" (VFloat (fl 12.0)) ;
        do scale_factor <- lift (truediv size old_size) ;
        (* Update bbox dimensions *)
        do _ <- scale_attr "bbox" "height" scale_factor ;
        (* Adjust baseline position *)
        do has_baseline <- contains "baseline" ;
        do _ <-
          (if has_baseline then
             do baseline <- getitem "baseline" ;
             do baseline <- lift (mul baseline scale_factor) ;
             setitem "baseline" baseline
           else ret tt) ;
        (* Store original size for reference *)
        setitem "original_size" old_size
      else ret tt
  | None => ret tt
  end.

Section Formatting.

(** The text that an f-string substitutes for a value ([format(v)]). *)
Variable format : value -> string.

Definition extract_font_size (span : value) : result string :=
  match span with
  | VDict span =>
      match span !! "size" with
      | Some size => Ok ("font-size: " ++ format size ++ "pt;")
      | None => Ok ""
      end
  | _ => Ok ""
  end.

End Formatting.

End font_size_handling.

(** ** text_attributes/letter_spacing_handling.py *)

Module letter_spacing_handling.

(** The pattern and the conversion table are written out again in this
    source file, character for character the same. *)
Definition normalize_letter_spacing (spacing : value) : result value :=
  font_size_handling.normalize_with (fl 0.0) spacing.

Section Formatting.
Import PySeq.

(** The text that an f-string substitutes for a value, plainly
    ([format(v)]) and with two decimals ([format(v, ".2f")], here applied
    to floats only). *)
Variable format : value -> string.
Variable format_2f : value -> string.

(** One turn of the loop over the positions of the characters: the gap
    between the character [i] and the next one, if both have a bounding
    box and the gap is positive. *)
Definition gap_at (chars : value) (i : nat) : result (option value) :=
  let! this := index chars i in
  let! has_bbox := str_in "bbox" this in
  let! both := if has_bbox
               then let! next := index chars (S i) in str_in "bbox" next
               else Ok false in
  if both then
    let! next := index chars (S i) in
    let! bbox := subscript next "bbox" in
    let! x0 := getattr bbox "x0" in
    let! this := index chars i in
    let! bbox := subscript this "bbox" in
    let! x1 := getattr bbox "x1" in
    let! gap := sub x0 x1 in
    let! positive := gt gap (VInt 0) in
    Ok (if positive then Some gap else None)
  else Ok None.

Fixpoint collect_gaps (chars : value) (indices : list nat) (spacings : list value)
  : result (list value) :=
  match indices with
  | [] => Ok spacings
  | i :: indices' =>
      let! gap := gap_at chars i in
      collect_gaps chars indices'
        (match gap with Some gap => (spacings ++ [gap])%list | None => spacings end)
  end.

Definition extract_letter_spacing (span : value) : result string :=
  match span with
  | VDict span =>
      let explicit :=
        match span !! "char_spacing" with
        | Some spacing =>
            (* Only include if non-default *)
            if negb (eq_int spacing 0)
            then Some ("letter-spacing: " ++ format spacing ++ "pt;")
            else None
        | None => None
        end in
      match explicit with
      | Some style => Ok style
      | None =>
          (* Try to detect spacing from character positions *)
          match span !! "chars" with
          | Some chars =>
              let! n := len chars in
              let! spacings := collect_gaps chars (seq 0 (n - 1)) [] in
              if truthy (VList spacings) then
                let! total := sum_ spacings in
                let! avg_spacing :=
                  truediv total (VInt (Z.of_nat (length spacings))) in
                (* Threshold to ignore minimal spacing *)
                let! enough := gt avg_spacing (VFloat (fl 0.1)) in
                if enough
                then Ok ("letter-spacing: " ++ format_2f avg_spacing ++ "pt;")
                else Ok ""
              else Ok ""
          | None => Ok ""
          end
      end
  | _ => Ok ""
  end.

End Formatting.

Section Writer.
Import PySeq.

(** [pdf_writer.get_text_width(char)]. *)
Variable get_text_width : value -> result value.

(** [span[key].attr += k] on the object stored under [key]. *)
Definition add_attr (key attr : string) (k : value) : M dict unit :=
  do obj <- getitem key ;
  do old <- lift (getattr obj attr) ;
  do new <- lift (add old k) ;
  match obj with
  | VObj attrs => setitem key (VObj (<[attr := new]> attrs))
  | _ => lift (Raise AttributeError)
  end.

(** [span["bbox"].attr if "bbox" in span else 0]. *)
Definition bbox_attr_or_zero (attr : string) : M dict value :=
  do has_bbox <- contains "bbox" ;
  if has_bbox then
    do bbox <- getitem "bbox" ;
    lift (getattr bbox attr)
  else ret (VInt 0).

(** What the loop [for char in text] visits: the characters of a string,
    the elements of a list; for a dictionary its keys, in an order that
    is not modelled. *)
Definition text_items (text : value) : result (list value) :=
  match text with
  | VStr s => Ok (map (fun c => VStr (String c EmptyString)) (list_ascii_of_string s))
  | VList l => Ok l
  | VDict d => Ok (map (fun kv => VStr kv.1) (map_to_list d))
  | _ => Raise TypeError
  end.

(** The loop that places the characters one after the other; the span is
    read, not written. *)
Fixpoint place_chars (spacing : value) (text : list value) (x_pos : value)
    (chars : list value) : M dict (list value) :=
  match text with
  | [] => ret chars
  | char :: text' =>
      do char_width <- lift (get_text_width char) ;
      do x1 <- lift (add x_pos char_width) ;
      do y0 <- bbox_attr_or_zero "y0" ;
      do y1 <- bbox_attr_or_zero "y1" ;
      let rect := VObj (list_to_map [("x0", x_pos); ("x1", x1); ("y0", y0); ("y1", y1)]) in
      let entry := VDict (list_to_map [("c", char); ("bbox", rect)]) in
      do step <- lift (add char_width spacing) ;
      do x_pos <- lift (add x_pos step) ;
      place_chars spacing text' x_pos (chars ++ [entry])%list
  end.

Definition reinsert_letter_spacing (style_dict : dict) : M dict unit :=
  match style_dict !! "letter-spacing" with
  | Some v =>
      do spacing <- lift (normalize_letter_spacing v) ;
      do _ <- setitem "char_spacing" spacing ;
      (* Update text positioning if needed *)
      do has_text <- contains "text" ;
      if has_text then
        do text <- getitem "text" ;
        do n <- lift (len text) ;
        (* Spaces between characters *)
        let char_count := VInt (Z.of_nat n - 1) in
        do total_spacing <- lift (mul char_count spacing) ;
        (* Adjust text positioning and dimensions *)
        do has_bbox <- contains "bbox" ;
        do _ <- (if has_bbox then add_attr "bbox" "width" total_spacing else ret tt) ;
        (* Store character count for layout calculations *)
        do _ <- setitem "char_count" char_count ;
        (* Handle character-level positioning if needed *)
        do significant <- lift (gt spacing (VFloat (fl 0.5))) ;
        if significant then
          do x_pos <- bbox_attr_or_zero "x0" ;
          do items <- lift (text_items text) ;
          do chars <- place_chars spacing items x_pos [] ;
          setitem "chars" (VList chars)
        else ret tt
      else ret tt
  | None => ret tt
  end.

End Writer.

End letter_spacing_handling.

(** ** text_attributes/text_alignment_handling.py *)

Module text_alignment_handling.
Import PySeq.

Section Formatting.

(** The text that an f-string substitutes for a value ([format(v)]). *)
Variable format : value -> string.

(** One turn of the loop over the lines: the edges of a line that has a
    bounding box are appended. *)
Definition add_edges (edges : list value * list value) (line : value)
  : result (list value * list value) :=
  let! has_bbox := str_in "bbox" line in
  if has_bbox then
    let! bbox := subscript line "bbox" in
    let! x0 := getattr bbox "x0" in
    let! bbox := subscript line "bbox" in
    let! x1 := getattr bbox "x1" in
    Ok ((edges.1 ++ [x0])%list, (edges.2 ++ [x1])%list)
  else Ok edges.

Fixpoint collect_edges (lines : list value) (edges : list value * list value)
  : result (list value * list value) :=
  match lines with
  | [] => Ok edges
  | line :: lines' =>
      let! edges := add_edges edges line in
      collect_edges lines' edges
  end.

(** [max(l) - min(l)]. *)
Definition spread (l : list value) : result value :=
  let! hi := max_ l in
  let! lo := min_ l in
  sub hi lo.

Definition midpoint (lr : value * value) : result value :=
  let! s := add lr.1 lr.2 in truediv s (VInt 2).

Definition extract_text_align (block : value) : result string :=
  match block with
  | VDict block =>
      (* Check explicit alignment property *)
      match block !! "align" with
      | Some align => Ok ("text-align: " ++ format align ++ ";")
      | None =>
          (* Try to detect alignment from text positioning *)
          match block !! "lines" with
          | Some lines =>
              if truthy lines then
                let! lines := iter lines in
                let! edges := collect_edges lines ([], []) in
                let (left_edges, right_edges) := edges in
                if truthy (VList left_edges) && truthy (VList right_edges) then
                  (* Calculate variances *)
                  let! left_variance := spread left_edges in
                  let! right_variance := spread right_edges in
                  let! left_ok := lt left_variance (VInt 1) in
                  let! right_ok := if left_ok then lt right_variance (VInt 1)
                                   else Ok false in
                  if left_ok && right_ok then Ok "text-align: justify;"
                  else
                    let! left_ok := lt left_variance (VInt 1) in
                    if left_ok then Ok "text-align: left;"
                    else
                      let! right_ok := lt right_variance (VInt 1) in
                      if right_ok then Ok "text-align: right;"
                      else
                        (* Check for center alignment *)
                        let! centers := mapM midpoint (combine left_edges right_edges) in
                        let! center_variance := spread centers in
                        let! centered := lt center_variance (VInt 1) in
                        if centered then Ok "text-align: center;"
                        else Ok "text-align: left;"
                else Ok "text-align: left;"
              else Ok "text-align: left;"
          | None => Ok "text-align: left;"
          end
      end
  | _ => Ok ""
  end.

End Formatting.

Definition get_available_alignments : list string :=
  ["left"; "right"; "center"; "justify"].

(** [all(r > k for r in l)]: the loop stops at the first ratio that is
    not above [k]. *)
Fixpoint all_above (k : value) (l : list value) : result bool :=
  match l with
  | [] => Ok true
  | r :: l' => let! above := gt r k in if above then all_above k l' else Ok false
  end.

Definition calculate_alignment_metrics (block_width : value) (line_widths : list value)
  : result dict :=
  let len := VInt (Z.of_nat (length line_widths)) in
  let! average_line_width :=
    if truthy (VList line_widths)
    then let! s := sum_ line_widths in truediv s len
    else Ok (VInt 0) in
  let! max_line_width :=
    if truthy (VList line_widths) then max_ line_widths else Ok (VInt 0) in
  let! min_line_width :=
    if truthy (VList line_widths) then min_ line_widths else Ok (VInt 0) in
  let! fill_ratios :=
    if truthy (VList line_widths)
    then mapM (fun w => truediv w block_width) line_widths
    else Ok [] in
  let metrics : dict :=
    list_to_map
      [ ("block_width", block_width);
        ("average_line_width", average_line_width);
        ("max_line_width", max_line_width);
        ("min_line_width", min_line_width);
        ("line_count", len);
        ("fill_ratios", VList fill_ratios) ] in
  (* Calculate alignment recommendations *)
  let! justify := all_above (VFloat (fl 0.7)) fill_ratios in
  let! center := lt len (VInt 5) in
  let! half := mul block_width (VFloat (fl 0.5)) in
  let! right := lt average_line_width half in
  Ok (<["recommendations" :=
          VDict (list_to_map [ ("justify", VBool justify);
                               ("center", VBool center);
                               ("right", VBool right) ])]> metrics).

End text_alignment_handling.

(** ** processing/ocr_execution.py *)

Module ocr_execution.

(** The dictionary of columns that the recognition engine returns: entry
    [i] of every column describes word [i]. *)
Record ocr_data : Type := {
  text : list string;
  conf : list Qc;
  block_num : list Z;
  left : list Z;
  top : list Z;
  width : list Z;
  height : list Z
}.

(** [column[i]]. *)
Definition at_ {A} (column : list A) (i : nat) : result A :=
  match column !! i with
  | Some x => Ok x
  | None => Raise IndexError
  end.

Record loop_state : Type := {
  blocks : list dict;
  current_block : option dict
}.

Section Geometry.

(** The rectangle constructor [fitz.Rect(x0, y0, x1, y1)] and the union
    [r1 | r2] of the document library. *)
Variable Rect : Z -> Z -> Z -> Z -> value.
Variable rect_or : value -> value -> value.

Definition word_rect (d : ocr_data) (i : nat) : result value :=
  let! l := at_ (left d) i in
  let! t := at_ (top d) i in
  let! l' := at_ (left d) i in
  let! w := at_ (width d) i in
  let! t' := at_ (top d) i in
  let! h := at_ (height d) i in
  Ok (Rect l t (l' + w) (t' + h)).

(** [current_block is None or current_block['number'] != block_num] *)
Definition starts_block (current : option dict) (n : Z) : result bool :=
  match current with
  | None => Ok true
  | Some cb => let! number := lookup_item cb "number" in Ok (negb (eq_int number n))
  end.

(** The body of the loop for index [i]. *)
Definition step (d : ocr_data) (st : loop_state) (i : nat) : result loop_state :=
  let! raw := at_ (text d) i in
  let text := Str.strip raw in
  if (text =? "")%string then Ok st
  else
    let! conf := at_ (conf d) i in
    if Qc_ltb conf (fl 30) then Ok st     (* Skip low confidence results *)
    else
      let! n := at_ (block_num d) i in
      let! fresh := starts_block (current_block st) n in
      if fresh then
        let blocks :=
          match current_block st with
          | Some cb => if truthy (VDict cb) then (blocks st ++ [cb])%list else blocks st
          | None => blocks st
          end in
        let! bbox := word_rect d i in
        Ok {| blocks := blocks;
              current_block :=
                Some (<["lines" := VList []]>
                       (<["text" := VStr text]>
                         (<["bbox" := bbox]>
                           (<["number" := VInt n]> ∅)))) |}
      else
        match current_block st with
        | Some cb =>
            let! old := lookup_item cb "text" in
            let! new := add old (VStr (" " ++ text)) in
            let cb := <["text" := new]> cb in
            let! box := lookup_item cb "bbox" in
            let! r := word_rect d i in
            Ok {| blocks := blocks st;
                  current_block := Some (<["bbox" := rect_or box r]> cb) |}
        | None => Raise TypeError
        end.

Fixpoint loop (d : ocr_data) (indices : list nat) (st : loop_state)
  : result loop_state :=
  match indices with
  | [] => Ok st
  | i :: indices' => let! st := step d st i in loop d indices' st
  end.

Definition _convert_to_blocks (d : ocr_data) : result (list dict) :=
  let! st := loop d (seq 0 (length (text d)))
                  {| blocks := []; current_block := None |} in
  Ok match current_block st with
     | Some cb => if truthy (VDict cb) then (blocks st ++ [cb])%list else blocks st
     | None => blocks st
     end.

End Geometry.

End ocr_execution.

(** ** processing/ocr_preprocessing.py *)

Module ocr_preprocessing.

(** *** The arithmetic of floats

    The threshold is decided by comparisons of floats, and two splits
    whose variances are equal as fractions can differ once they are
    rounded.  The operations on floats that the function uses are therefore
    parameters of the model, so that what is proved of the function holds
    for every arithmetic.  Two are given below: the exact one, on
    fractions, and the one of binary64 floats, which rounds every result. *)
Record arithmetic : Type := {
  float : Type;
  (** [0], the first value of [max_variance]. *)
  fzero : float;
  (** [a / b] on two integers, the second not zero. *)
  fdiv : Z -> Z -> float;
  (** [x - y]. *)
  fsub : float -> float -> float;
  (** [x ** 2]. *)
  fsquare : float -> float;
  (** [n * x] for an integer [n]. *)
  fscale : Z -> float -> float;
  (** [x > y]. *)
  fgt : float -> float -> bool
}.

Definition qz (n : Z) : Qc := fl (inject_Z n).

(** Fractions, without rounding. *)
Definition exact : arithmetic := {|
  float := Qc;
  fzero := 0%Qc;
  fdiv a b := (qz a / qz b)%Qc;
  fsub x y := (x - y)%Qc;
  fsquare x := (x * x)%Qc;
  fscale n x := (qz n * x)%Qc;
  fgt x y := Qc_ltb y x
|}.

(** The integer nearest to [n / d], the even one of two that are equally
    near; [0 <= n] and [0 < d]. *)
Definition nearest (n d : Z) : Z :=
  let q := (n / d)%Z in
  let r := (n mod d)%Z in
  match (2 * r ?= d)%Z with
  | Lt => q
  | Gt => (q + 1)%Z
  | Eq => if Z.even q then q else (q + 1)%Z
  end.

(** [(n / d) / 2 ^ e] as a fraction of two integers. *)
Definition shifted (n d e : Z) : Z * Z :=
  if (0 <=? e)%Z then (n, (d * 2 ^ e)%Z) else ((n * 2 ^ (- e))%Z, d).

(** The binary64 float nearest to [n / d], for [0 < n] and [0 < d]: a
    significand of 53 bits times a power of two.  The exponent is not
    bounded: there is no overflow and no gradual underflow, which the
    histogram of an image, with counts far below 2 ^ 1000, does not reach. *)
Definition round_pos (n d : Z) : Q :=
  let e := (Z.log2 n - Z.log2 d - 53)%Z in
  let e := if ((shifted n d e).1 / (shifted n d e).2 <? 2 ^ 53)%Z
           then e else (e + 1)%Z in
  let m := nearest (shifted n d e).1 (shifted n d e).2 in
  if (0 <=? e)%Z then inject_Z (m * 2 ^ e) else Qmake m (Z.to_pos (2 ^ (- e))).

Definition round (q : Q) : Q :=
  match Qnum q with
  | Z0 => 0%Q
  | Zpos n => round_pos (Zpos n) (Zpos (Qden q))
  | Zneg n => Qopp (round_pos (Zpos n) (Zpos (Qden q)))
  end.

Definition rnd (q : Qc) : Qc := Q2Qc (round q).

(** Binary64 floats: every operation gives the float nearest to the exact
    result.  The quotient of two integers is rounded once, as Python does;
    an integer is converted to a float before it is multiplied; the square
    is the rounded product (the [pow] of the C library, which Python calls,
    may differ from it in the last place). *)
Definition binary64 : arithmetic := {|
  float := Qc;
  fzero := 0%Qc;
  fdiv a b := rnd (qz a / qz b);
  fsub x y := rnd (x - y);
  fsquare x := rnd (x * x);
  fscale n x := rnd (rnd (qz n) * x);
  fgt x y := Qc_ltb y x
|}.

Section Threshold.

Variable A : arithmetic.

Record otsu_state : Type := {
  weight_bg : Z;
  sum_bg : Z;
  max_variance : float A;
  threshold : Z
}.

(** [hist[t]]. *)
Definition hist_at (hist : list Z) (t : nat) : result Z :=
  match hist !! t with
  | Some h => Ok h
  | None => Raise IndexError
  end.

(** [sum(hist)]. *)
Definition sum_list (l : list Z) : Z := fold_left Z.add l 0%Z.

(** [sum(i * hist[i] for i in range(lo, 256))], from the running sum [acc]. *)
Fixpoint weighted_sum (hist : list Z) (indices : list nat) (acc : Z) : result Z :=
  match indices with
  | [] => Ok acc
  | i :: indices' =>
      let! h := hist_at hist i in
      weighted_sum hist indices' (acc + Z.of_nat i * h)%Z
  end.

(** The loop [for t in range(256)], with its [continue] and its [break].
    The two divisions are guarded by the tests on the weights. *)
Fixpoint otsu_loop (hist : list Z) (total : Z) (ts : list nat) (st : otsu_state)
  : result otsu_state :=
  match ts with
  | [] => Ok st
  | t :: ts' =>
      let! h := hist_at hist t in
      let weight_bg := (weight_bg st + h)%Z in
      if (weight_bg =? 0)%Z then
        otsu_loop hist total ts'
          {| weight_bg := weight_bg; sum_bg := sum_bg st;
             max_variance := max_variance st; threshold := threshold st |}
      else
        let weight_fg := (total - weight_bg)%Z in
        if (weight_fg =? 0)%Z then
          Ok {| weight_bg := weight_bg; sum_bg := sum_bg st;
                max_variance := max_variance st; threshold := threshold st |}
        else
          let! h' := hist_at hist t in
          let sum_bg := (sum_bg st + Z.of_nat t * h')%Z in
          let mean_bg := fdiv A sum_bg weight_bg in
          let! fg := weighted_sum hist (seq (t + 1) (256 - (t + 1))) 0 in
          let mean_fg := fdiv A fg weight_fg in
          let variance :=
            fscale A (weight_bg * weight_fg) (fsquare A (fsub A mean_bg mean_fg)) in
          if fgt A variance (max_variance st) then
            otsu_loop hist total ts'
              {| weight_bg := weight_bg; sum_bg := sum_bg;
                 max_variance := variance; threshold := Z.of_nat t |}
          else
            otsu_loop hist total ts'
              {| weight_bg := weight_bg; sum_bg := sum_bg;
                 max_variance := max_variance st; threshold := threshold st |}
  end.

(** [hist] is the histogram of the image, one count per grey level. *)
Definition get_adaptive_threshold (hist : list Z) : result Z :=
  let total := sum_list hist in
  let! st := otsu_loop hist total (seq 0 256)
               {| weight_bg := 0; sum_bg := 0; max_variance := fzero A; threshold := 0 |} in
  Ok (threshold st).

End Threshold.

Arguments weight_bg {A} _.
Arguments sum_bg {A} _.
Arguments max_variance {A} _.
Arguments threshold {A} _.

(** [text_sample] is given by the code points of its characters. *)
Definition get_language_hints (text_sample : list N) : list string :=
  let languages : list string := [] in
  (* Check for CJK characters *)
  let languages :=
    if existsb (fun c => (0x4E00 <? c)%N && (c <? 0x9FFF)%N) text_sample
    then (languages ++ ["chi_sim"; "chi_tra"; "jpn"; "kor"])%list
    else languages in
  (* Check for Cyrillic *)
  let languages :=
    if existsb (fun c => (0x0400 <? c)%N && (c <? 0x04FF)%N) text_sample
    then (languages ++ ["rus"])%list
    else languages in
  (* Default to English if no specific scripts detected *)
  match languages with
  | [] => (languages ++ ["eng"])%list
  | _ => languages
  end.

End ocr_preprocessing.

(** ** The standard library's [difflib.SequenceMatcher], on strings

    [ratio] of two strings with no junk predicate, for a second sequence
    shorter than 200 characters (longer ones are subject to the library's
    "popular element" heuristic, which is not modelled).  Without junk the
    extension loops that follow the table scan in [find_longest_match]
    cannot move and are left out. *)

Module difflib.

(** [b2j[c]]: the indices of [c] in [b], increasing. *)
Definition indices_of (c : ascii) (b : list ascii) : list nat :=
  List.filter (fun j => bool_decide (b !! j = Some c)) (seq 0 (length b)).

Record best_match : Type := { besti : nat; bestj : nat; bestsize : nat }.

(** The inner loop over [j] for one [i]. *)
Definition scan_row (i blo bhi : nat) (j2len : gmap nat nat)
    (acc : gmap nat nat * best_match) (j : nat) : gmap nat nat * best_match :=
  let (newj2len, best) := acc in
  if (j <? blo)%nat then acc
  else if (bhi <=? j)%nat then acc
  else
    let k := (match j with O => O | S j' => default O (j2len !! j') end + 1)%nat in
    let newj2len := <[j := k]> newj2len in
    if (bestsize best <? k)%nat
    then (newj2len, {| besti := i + 1 - k; bestj := j + 1 - k; bestsize := k |})
    else (newj2len, best).

Fixpoint scan_rows (a b : list ascii) (blo bhi : nat) (rows : list nat)
    (j2len : gmap nat nat) (best : best_match) : best_match :=
  match rows with
  | [] => best
  | i :: rows' =>
      let js := match a !! i with Some c => indices_of c b | None => [] end in
      let (newj2len, best) := fold_left (scan_row i blo bhi j2len) js (∅, best) in
      scan_rows a b blo bhi rows' newj2len best
  end.

Definition find_longest_match (a b : list ascii) (alo ahi blo bhi : nat)
  : best_match :=
  scan_rows a b blo bhi (seq alo (ahi - alo)) ∅
    {| besti := alo; bestj := blo; bestsize := 0 |}.

(** The total size of the matching blocks of [a[alo:ahi]] and
    [b[blo:bhi]]: the longest match, then the same to its left and to its
    right.  Each nested range is strictly shorter, so [fuel = ahi - alo + 1]
    is enough (lemma [matches_fuel]). *)
Fixpoint matches (fuel : nat) (a b : list ascii) (alo ahi blo bhi : nat) : nat :=
  match fuel with
  | O => O
  | S fuel' =>
      let x := find_longest_match a b alo ahi blo bhi in
      let i := besti x in
      let j := bestj x in
      let k := bestsize x in
      if (k =? 0)%nat then O
      else
        (k
         + (if (alo <? i)%nat && (blo <? j)%nat
            then matches fuel' a b alo i blo j else O)
         + (if (i + k <? ahi)%nat && (j + k <? bhi)%nat
            then matches fuel' a b (i + k) ahi (j + k) bhi else O))%nat
  end.

Definition ratio_of (a b : string) : Qc :=
  let la := String.length a in
  let lb := String.length b in
  let m := matches (la + 1) (list_ascii_of_string a) (list_ascii_of_string b)
             0 la 0 lb in
  if (la + lb =? 0)%nat then 1%Qc
  else (fl 2.0 * fl (inject_Z (Z.of_nat m)) / fl (inject_Z (Z.of_nat (la + lb))))%Qc.

(** [SequenceMatcher(None, a, b).ratio()] on values. *)
Definition ratio (a b : value) : result Qc :=
  match a, b with
  | VStr a, VStr b => Ok (ratio_of a b)
  | _, _ => Raise TypeError
  end.

End difflib.

(** ** utils/pdf_metadata.py *)

Module pdf_metadata.

Section Formatting.

Variable format : value -> string.

(** [align_map.get(v, "left")] for
    [align_map = {0: "left", 1: "center", 2: "right", 3: "justify"}]: the
    key is hashed, which lists and dictionaries refuse, and found when it
    equals one of the four integers. *)
Definition align_name (v : value) : result string :=
  match v with
  | VList _ | VDict _ => Raise TypeError
  | _ =>
      Ok (if eq_int v 0 then "left"
          else if eq_int v 1 then "center"
          else if eq_int v 2 then "right"
          else if eq_int v 3 then "justify"
          else "left")
  end.

Definition extract_block_properties (block : value) : result (gmap string string) :=
  match block with
  | VDict block =>
      (* Alignment *)
      let! properties :=
        match block !! "align" with
        | Some align =>
            let! name := align_name align in
            Ok (<["text-align" := name]> (∅ : gmap string string))
        | None => Ok ∅
        end in
      (* Line properties *)
      let properties :=
        match block !! "line_height" with
        | Some h => <["line-height" := format h ++ "pt"]> properties
        | None => properties
        end in
      (* Text flow properties *)
      let properties :=
        match block !! "preserve_whitespace" with
        | Some p => <["white-space" := if truthy p then "pre" else "normal"]> properties
        | None => properties
        end in
      Ok properties
  | _ => Ok ∅
  end.

End Formatting.

End pdf_metadata.

(** ** processing/post_ocr_cleanup.py *)

Module post_ocr_cleanup.
Import pdf_metadata.

Record merge_state : Type := {
  merged_blocks : list dict;
  current_block : option dict
}.

Section Merge.

Variable format : value -> string.

(** [difflib.SequenceMatcher(None, a, b).ratio()]. *)
Variable ratio : value -> value -> result Qc.

(** [not current_block]: nothing yet, or an empty dictionary. *)
Definition no_current (current : option dict) : bool :=
  match current with
  | None => true
  | Some cb => negb (truthy (VDict cb))
  end.

Definition props_match (current_props next_props : gmap string string) : bool :=
  forallb (fun prop => bool_decide (current_props !! prop = next_props !! prop))
          ["font-family"; "font-size"; "text-align"].

(** [current_block["lines"].extend(block["lines"])].  The blocks of the
    list are taken to be distinct objects that do not share their lists of
    lines, as the block builders produce them: extending the list in place
    is then the update of the "lines" entry of the block being built.
    The loop over blocks that may share their lists is given further
    down ([merge_similar_blocks_in_place]); where no list is shared the
    two return the same (lemma [merge_in_place_agrees]). *)
Definition extend_lines (current block : dict) : result dict :=
  let! lines := lookup_item current "lines" in
  match lines with
  | VList l =>
      let! more := lookup_item block "lines" in
      let! more := PySeq.iter more in
      Ok (<["lines" := VList (l ++ more)]> current)
  | _ => Raise AttributeError
  end.

(** Whether [block] is merged into [current]: the tests of the loop body,
    in their order. *)
Definition similar (similarity_threshold : Qc) (current block : dict) : result bool :=
  (* Check if blocks have similar properties *)
  let! current_props := extract_block_properties format (VDict current) in
  let! next_props := extract_block_properties format (VDict block) in
  (* Check text content similarity *)
  if props_match current_props next_props then
    match current !! "text", block !! "text" with
    | Some t1, Some t2 =>
        let! similarity := ratio t1 t2 in
        Ok (negb (Qc_ltb similarity similarity_threshold))
    | _, _ => Ok false
    end
  else Ok false.

Definition step (similarity_threshold : Qc) (st : merge_state) (block : dict)
  : result merge_state :=
  match current_block st with
  | Some current =>
      if no_current (current_block st) then
        Ok {| merged_blocks := merged_blocks st; current_block := Some block |}
      else
        let! merge := similar similarity_threshold current block in
        if merge then
          (* Merge blocks *)
          let! current := extend_lines current block in
          Ok {| merged_blocks := merged_blocks st; current_block := Some current |}
        else
          Ok {| merged_blocks := (merged_blocks st ++ [current])%list;
                current_block := Some block |}
  | None => Ok {| merged_blocks := merged_blocks st; current_block := Some block |}
  end.

Fixpoint loop (similarity_threshold : Qc) (blocks : list dict) (st : merge_state)
  : result merge_state :=
  match blocks with
  | [] => Ok st
  | block :: blocks' =>
      let! st := step similarity_threshold st block in
      loop similarity_threshold blocks' st
  end.

Definition merge_similar_blocks (blocks : list dict) (similarity_threshold : Qc)
  : result (list dict) :=
  let! st := loop similarity_threshold blocks
               {| merged_blocks := []; current_block := None |} in
  Ok (if no_current (current_block st) then merged_blocks st
      else match current_block st with
           | Some current => (merged_blocks st ++ [current])%list
           | None => merged_blocks st
           end).

(** *** The same loop over blocks that share their lists of lines

    [current_block["lines"].extend(...)] changes a list object in place.
    Where two blocks of the argument hold the same list object, or are the
    same dictionary, the extension of one is seen through the other.  The
    definitions below make the list objects explicit: the "lines" entry of
    a block that is a list is the address of a list object of the store.
    The dictionaries themselves are never written to, so that a dictionary
    that occurs twice in the argument is two equal blocks here.  The other
    entries of a block are values that hold none of the list objects. *)

Definition loc := nat.

Definition store := loc -> list value.

Definition update (h : store) (l : loc) (lines : list value) : store :=
  fun l' => if Nat.eqb l' l then lines else h l'.

Inductive lines_entry : Type :=
| Missing                  (* the block has no key "lines" *)
| ListObject (l : loc)     (* a list *)
| Other (v : value).       (* a value that has no method [extend] *)

Record block_object : Type := {
  entries : dict;
  lines_at : lines_entry
}.

(** The dictionary that a block is while the store is [h]. *)
Definition contents (h : store) (block : block_object) : dict :=
  match lines_at block with
  | Missing => delete "lines" (entries block)
  | ListObject l => <["lines" := VList (h l)]> (entries block)
  | Other v => <["lines" := v]> (entries block)
  end.

(** [current_block["lines"].extend(block["lines"])]: a list extended by
    itself is doubled. *)
Definition extend_in_place (current block : block_object) : M store unit :=
  fun h =>
    match lines_at current with
    | Missing => (Raise KeyError, h)
    | Other _ => (Raise AttributeError, h)
    | ListObject l =>
        match lines_at block with
        | Missing => (Raise KeyError, h)
        | ListObject l' => (Ok tt, update h l (h l ++ h l')%list)
        | Other v =>
            match PySeq.iter v with
            | Ok more => (Ok tt, update h l (h l ++ more)%list)
            | Raise e => (Raise e, h)
            end
        end
    end.

Record object_state : Type := {
  merged_objects : list block_object;
  current_object : option block_object
}.

Definition step_in_place (similarity_threshold : Qc) (st : object_state)
    (block : block_object) : M store object_state :=
  match current_object st with
  | Some current =>
      do h <- gets (fun h => h);
      if no_current (Some (contents h current)) then
        ret {| merged_objects := merged_objects st; current_object := Some block |}
      else
        do merge <- lift (similar similarity_threshold (contents h current)
                            (contents h block));
        if merge then
          (* Merge blocks *)
          do _ <- extend_in_place current block;
          ret {| merged_objects := merged_objects st; current_object := Some current |}
        else
          ret {| merged_objects := (merged_objects st ++ [current])%list;
                 current_object := Some block |}
  | None => ret {| merged_objects := merged_objects st; current_object := Some block |}
  end.

Fixpoint loop_in_place (similarity_threshold : Qc) (blocks : list block_object)
    (st : object_state) : M store object_state :=
  match blocks with
  | [] => ret st
  | block :: blocks' =>
      do st <- step_in_place similarity_threshold st block;
      loop_in_place similarity_threshold blocks' st
  end.

Definition merge_similar_blocks_in_place (blocks : list block_object)
    (similarity_threshold : Qc) : M store (list block_object) :=
  do st <- loop_in_place similarity_threshold blocks
             {| merged_objects := []; current_object := None |};
  do h <- gets (fun h => h);
  ret (if no_current (option_map (contents h) (current_object st))
       then merged_objects st
       else match current_object st with
            | Some current => (merged_objects st ++ [current])%list
            | None => merged_objects st
            end).

End Merge.

(** The default of the parameter [similarity_threshold]. *)
Definition default_threshold : Qc := fl 0.85.

(** The [replacements] of [clean_ocr_text], in the order of the
    dictionary. *)
Definition upper : ascii -> bool := Str.between 65 90.
Definition lowercase : ascii -> bool := Str.between 97 122.
Definition chr (c : ascii) : ascii -> bool := Ascii.eqb c.

Definition replacements : list (ReSub.pattern * string) :=
  [ (ReSub.Chars [ReSub.One (chr "l"); ReSub.Grp upper], "I\1");
    (ReSub.Chars [ReSub.Grp Str.isdigit; ReSub.One (chr "l")], "\11");
    (ReSub.Chars [ReSub.Grp upper; ReSub.One (chr "1")], "\1l");
    (ReSub.Chars [ReSub.One (chr "0"); ReSub.Grp upper], "O\1");
    (ReSub.Chars [ReSub.Grp upper; ReSub.One (chr "0")], "\1O");
    (ReSub.Chars [ReSub.Grp lowercase; ReSub.One (chr "/"); ReSub.Grp lowercase],
     "\1l\2");
    (ReSub.Chars [ReSub.One (chr "r"); ReSub.One (chr "n")], "m");
    (ReSub.Chars [ReSub.Grp upper; ReSub.One (chr "5")], "\1S") ].

Fixpoint apply_replacements (rs : list (ReSub.pattern * string)) (text : string)
  : ReSub.outcome string :=
  match rs with
  | [] => ReSub.Return text
  | (pattern, replacement) :: rs' =>
      ReSub.obind (ReSub.sub pattern replacement text) (apply_replacements rs')
  end.

Definition clean_ocr_text (text : value) : ReSub.outcome string :=
  match text with
  | VStr text =>
      (* Remove repeated whitespace *)
      ReSub.obind (ReSub.sub (ReSub.Run Str.isspace) " " text) (fun text =>
      (* Fix common OCR errors *)
      ReSub.obind (apply_replacements replacements text) (fun text =>
      ReSub.Return (Str.strip text)))
  | _ => ReSub.Throw (ReSub.Builtin TypeError)
  end.

Section LineBreaks.

(** The comparison that [list.index] makes between an element and the
    value looked for: the same object, or an equal one. *)
Variable eqv : value -> value -> bool.

(** [lines.index(line)], counting from [i]. *)
Fixpoint index_from (lines : list value) (line : value) (i : nat) : result nat :=
  match lines with
  | [] => Raise ValueError
  | x :: lines' => if eqv x line then Ok i else index_from lines' line (S i)
  end.

(** [block["lines"][i + 1] if i < len(block["lines"]) - 1 else None],
    where [i] is the index of [line]. *)
Definition next_line_of (lines : value) (line : value) : result value :=
  match lines with
  | VList l =>
      let! i := index_from l line O in
      if (Z.of_nat i <? Z.of_nat (length l) - 1)%Z then
        let! i := index_from l line O in
        match l !! (i + 1)%nat with
        | Some next => Ok next
        | None => Raise IndexError
        end
      else Ok VNone
  | _ => Raise AttributeError
  end.

(** [v[0].islower()] *)
Definition starts_lower (v : value) : result bool :=
  match v with
  | VStr EmptyString => Raise IndexError
  | VStr (String c _) => Ok (Str.islower (String c EmptyString))
  | VList [] => Raise IndexError
  | VList (VStr s :: _) => Ok (Str.islower s)
  | VList (_ :: _) => Raise AttributeError
  | VDict _ => Raise KeyError
  | _ => Raise TypeError
  end.

(** [next_line and "text" in next_line and next_line["text"][0].islower()] *)
Definition continues (next_line : value) : result bool :=
  if truthy next_line then
    let! has_text := str_in "text" next_line in
    if has_text then
      let! text := PySeq.subscript next_line "text" in
      starts_lower text
    else Ok false
  else Ok false.

(** The body of the loop over the lines of one block: the state is
    [(fixed_lines, current_line)]. *)
Definition fix_line (lines : value) (st : list value * string) (line : value)
  : result (list value * string) :=
  let (fixed_lines, current_line) := st in
  let! has_text := str_in "text" line in
  if has_text then
    let! text := PySeq.subscript line "text" in
    match text, line with
    | VStr text, VDict fields =>
        (* Check if line ends with hyphenation *)
        if Str.endswith text "-" then
          Ok (fixed_lines, current_line ++ Str.drop_last 1 text)
        else
          (* Check if line ends mid-sentence *)
          let! joined :=
            if negb (existsb (Str.endswith text) ["."; "!"; "?"]) then
              (* Check next line's case to determine if it's a continuation *)
              let! next_line := next_line_of lines line in
              continues next_line
            else Ok false in
          if joined then Ok (fixed_lines, current_line ++ text ++ " ")
          else
            let current_line := current_line ++ text in
            Ok ((fixed_lines ++ [VDict (<["text" := VStr current_line]> fields)])%list,
                "")
    | _, _ => Raise AttributeError
    end
  else Ok st.

Fixpoint fix_lines (lines : value) (todo : list value) (st : list value * string)
  : result (list value * string) :=
  match todo with
  | [] => Ok st
  | line :: todo' =>
      let! st := fix_line lines st line in
      fix_lines lines todo' st
  end.

Definition fix_block (block : dict) : result dict :=
  match block !! "lines" with
  | Some lines =>
      let! todo := PySeq.iter lines in
      let! st := fix_lines lines todo ([], "") in
      let (fixed_lines, current_line) := st in
      (* Handle any remaining text *)
      let fixed_lines :=
        if negb (current_line =? "")%string
        then (fixed_lines ++ [VDict (<["text" := VStr current_line]> ∅)])%list
        else fixed_lines in
      Ok (<["lines" := VList fixed_lines]> block)
  | None => Ok block
  end.

Definition fix_line_breaks (blocks : list dict) : result (list dict) :=
  PySeq.mapM fix_block blocks.

End LineBreaks.

End post_ocr_cleanup.

(** ** config/ocr_settings.py *)

Module ocr_settings.

Definition get_ocr_parameters : dict :=
  list_to_map
    [ ("dpi", VInt 300);
      ("lang", VStr "eng");
      ("psm", VInt 3);
      ("oem", VInt 3);
      ("preprocessing",
       VDict (list_to_map
                [ ("contrast_threshold", VInt 128);
                  ("min_text_height", VInt 8);
                  ("noise_reduction", VBool true);
                  ("deskew", VBool true) ]));
      ("tesseract_path", VStr "C:\Program Files\Tesseract-OCR\tesseract.exe") ].

End ocr_settings.

(** ** processing/ocr_execution.py: the class [OCRProcessor]

    The recognition engine and the preparation of the image are outside
    the program: they are parameters, and may return or raise anything. *)

Module OCRProcessor.
Import ReSub.

Definition of_result {A} (r : result A) : outcome A :=
  match r with Ok a => Return a | Raise e => Throw (Builtin e) end.

Section Engine.

Variable image : Type.
Variable format : value -> string.
Variable eqv : value -> value -> bool.
Variable Rect : Z -> Z -> Z -> Z -> value.
Variable rect_or : value -> value -> value.

(** [prepare_page_for_ocr] returns an image or, on any error, [None]. *)
Variable prepare_page_for_ocr : image -> option image.

(** [pytesseract.image_to_string(image, config=...)]: the code points of
    the recognized text. *)
Variable image_to_string : image -> string -> outcome (list N).

(** [pytesseract.image_to_data(image, lang=..., config=...)]. *)
Variable image_to_data : image -> string -> string -> outcome ocr_execution.ocr_data.

(** [self.params], set by the constructor. *)
Definition params : dict := ocr_settings.get_ocr_parameters.

(** The loop that cleans the text of every block. *)
Fixpoint clean_blocks (blocks : list dict) : outcome (list dict) :=
  match blocks with
  | [] => Return []
  | block :: blocks' =>
      obind (match block !! "text" with
             | Some text =>
                 obind (post_ocr_cleanup.clean_ocr_text text) (fun text =>
                 Return (<["text" := VStr text]> block))
             | None => Return block
             end) (fun block =>
      obind (clean_blocks blocks') (fun blocks' =>
      Return (block :: blocks')))
  end.

(** The body of the [try]; an exception of any kind makes the method
    return [None]. *)
Definition _process_image (img : image) : option (list dict) :=
  let attempt : outcome (option (list dict)) :=
    (* Prepare image for OCR *)
    match prepare_page_for_ocr img with
    | None => Return None
    | Some prepared_image =>
        (* Detect possible languages *)
        obind (image_to_string prepared_image "--psm 3") (fun sample_text =>
        let languages := ocr_preprocessing.get_language_hints sample_text in
        (* Perform OCR with detected languages *)
        let lang := String.concat "+" languages in
        obind (of_result (lookup_item params "psm")) (fun psm =>
        obind (of_result (lookup_item params "oem")) (fun oem =>
        let config := "--psm " ++ format psm ++ " --oem " ++ format oem in
        obind (image_to_data prepared_image lang config) (fun ocr_data =>
        (* Convert OCR data to text blocks *)
        obind (of_result (ocr_execution._convert_to_blocks Rect rect_or ocr_data))
              (fun blocks =>
        (* Clean up OCR results *)
        obind (clean_blocks blocks) (fun blocks =>
        obind (of_result (post_ocr_cleanup.fix_line_breaks eqv blocks)) (fun blocks =>
        Return (Some blocks))))))))
    end in
  match attempt with
  | Return blocks => blocks
  | Throw _ => None
  end.

(** *** [process_pdf]

    The document library is outside the program as well.  Its calls act
    on a state of their own, the [world]; each of them may raise.  The
    calls that change the document ([_insert_text], [doc.save]) and
    [doc.close] are recorded, in their order, before they are made. *)

Inductive event : Type :=
| Inserted (blocks : list dict) (bbox : value)
| Saved (pdf_path : string)
| Closed.

Variable world : Type.
Variable doc : Type.
Variable page : Type.

Definition IO (A : Type) : Type :=
  world * list event -> outcome A * (world * list event).

Definition io_ret {A} (a : A) : IO A := fun s => (Return a, s).

Definition io_bind {A B} (m : IO A) (k : A -> IO B) : IO B :=
  fun s => match m s with
           | (Return a, s') => k a s'
           | (Throw t, s') => (Throw t, s')
           end.

Definition call {A} (f : world -> outcome A * world) : IO A :=
  fun s => let (r, w) := f s.1 in (r, (w, s.2)).

Definition emit (e : event) : IO unit :=
  fun s => (Return tt, (s.1, (s.2 ++ [e])%list)).

(** [fitz.open(pdf_path)], [len(doc)], [doc[page_num]], [page.get_text()],
    [doc.save(pdf_path)] and [doc.close()]. *)
Variable fitz_open : string -> world -> outcome doc * world.
Variable len : doc -> world -> outcome nat * world.
Variable doc_getitem : doc -> nat -> world -> outcome page * world.
Variable get_text : page -> world -> outcome string * world.
Variable save : doc -> string -> world -> outcome unit * world.
Variable close : doc -> world -> outcome unit * world.

(** [self._extract_images(page)]: the images of a page, each with its
    bounding box (the entries "image" and "bbox" of the dictionaries that
    the method builds; "transform" is not read). *)
Variable _extract_images : page -> world -> outcome (list (image * value)) * world.

(** [self._insert_text(page, blocks, image_bbox)]. *)
Variable _insert_text : page -> list dict -> value -> world -> outcome unit * world.

(** The loop over the images of one page. *)
Fixpoint process_images (pg : page) (images : list (image * value)) (modified : bool)
  : IO bool :=
  match images with
  | [] => io_ret modified
  | img_info :: images' =>
      let text_blocks := _process_image img_info.1 in
      io_bind (match text_blocks with
               | Some (block :: blocks) =>
                   io_bind (emit (Inserted (block :: blocks) img_info.2)) (fun _ =>
                   io_bind (call (_insert_text pg (block :: blocks) img_info.2)) (fun _ =>
                   io_ret true))
               | _ => io_ret modified
               end) (fun modified =>
      process_images pg images' modified)
  end.

(** The loop over the pages. *)
Fixpoint process_pages (d : doc) (page_nums : list nat) (modified : bool) : IO bool :=
  match page_nums with
  | [] => io_ret modified
  | page_num :: page_nums' =>
      io_bind (call (doc_getitem d page_num)) (fun pg =>
      io_bind (call (get_text pg)) (fun text =>
      io_bind
        (* Skip pages that already have text *)
        (if truthy (VStr (Str.strip text)) then io_ret modified
         else
           (* Get images from page *)
           io_bind (call (_extract_images pg)) (fun images =>
           match images with
           | [] => io_ret modified
           | _ :: _ =>
               (* Process each image *)
               process_images pg images modified
           end))
        (fun modified => process_pages d page_nums' modified)))
  end.

(** The body of the [try]; an exception of any kind makes the method
    return [False]. *)
Definition process_pdf (pdf_path : string) : IO bool :=
  fun s =>
    let attempt :=
      io_bind (call (fitz_open pdf_path)) (fun d =>
      io_bind (call (len d)) (fun n =>
      io_bind (process_pages d (seq 0 n) false) (fun modified =>
      io_bind (if modified
               then io_bind (emit (Saved pdf_path)) (fun _ => call (save d pdf_path))
               else io_ret tt) (fun _ =>
      io_bind (emit Closed) (fun _ =>
      io_bind (call (close d)) (fun _ =>
      io_ret modified)))))) in
    match attempt s with
    | (Return modified, s') => (Return modified, s')
    | (Throw _, s') => (Return false, s')
    end.

End Engine.

End OCRProcessor.

(** * Vocabulary of the statements *)

(** The span carries an integer flag field with bit 2 set. *)
Definition underlined (span : dict) : Prop :=
  exists f, span !! "flags" = Some (VInt f) /\ Z.testbit f 2 = true.

(** A span of 12pt and the style map that asks for a dashed underline. *)
Definition span12 : dict := <["size" := VInt 12]> (<["flags" := VInt 0]> ∅).
Definition dashed_style : dict := <["text-decoration-style" := VStr "dashed"]> ∅.

(** The stored value is the float [q]. *)
Definition number_is (v : option value) (q : Q) : bool :=
  match v with
  | Some (VFloat x) => Qeq_bool x q
  | _ => false
  end.

(** [post m s Qok Qerr]: running [m] from [s] either returns [a] in a
    state [s'] with [Qok a s'], or raises in a state [s'] with [Qerr s']. *)
Definition post {S A} (m : M S A) (s : S) (Qok : A -> S -> Prop) (Qerr : S -> Prop)
  : Prop :=
  match m s with
  | (Ok a, s') => Qok a s'
  | (Raise _, s') => Qerr s'
  end.

(** Every character of [s] is in the class [p]. *)
Fixpoint all_chars (p : ascii -> bool) (s : string) : bool :=
  match s with
  | EmptyString => true
  | String c s' => p c && all_chars p s'
  end.

(** [s] is empty or starts outside the class [p]. *)
Definition stops (p : ascii -> bool) (s : string) : Prop :=
  match s with
  | EmptyString => True
  | String c _ => p c = false
  end.

(** The words of a regular expression, with the groups they capture:
    [derives r w caps caps'] when [r] can consume exactly [w], turning the
    captures [caps] into [caps']. *)
Inductive derives : Re.regex -> string -> Re.captures -> Re.captures -> Prop :=
| derives_lit l caps : derives (Re.Lit l) l caps caps
| derives_cat r1 r2 w1 w2 c0 c1 c2 :
    derives r1 w1 c0 c1 -> derives r2 w2 c1 c2 ->
    derives (Re.Cat r1 r2) (w1 ++ w2) c0 c2
| derives_alt_l r1 r2 w c0 c1 :
    derives r1 w c0 c1 -> derives (Re.Alt r1 r2) w c0 c1
| derives_alt_r r1 r2 w c0 c1 :
    derives r2 w c0 c1 -> derives (Re.Alt r1 r2) w c0 c1
| derives_opt_some r w c0 c1 :
    derives r w c0 c1 -> derives (Re.Opt r) w c0 c1
| derives_opt_none r caps : derives (Re.Opt r) "" caps caps
| derives_star p w caps :
    all_chars p w = true -> derives (Re.Star p) w caps caps
| derives_plus p w caps :
    w <> "" -> all_chars p w = true -> derives (Re.Plus p) w caps caps
| derives_group i r w c0 c1 :
    derives r w c0 c1 -> derives (Re.Group i r) w c0 (<[i := w]> c1).

(** The string starts with a decimal number: a digit, or a point and a
    digit, after an optional minus sign. *)
Definition starts_number (s : string) : bool :=
  match s with
  | String c s' =>
      Str.isdigit c
      || (Ascii.eqb c "." &&
          match s' with String d _ => Str.isdigit d | EmptyString => false end)
  | EmptyString => false
  end.

Definition has_number (s : string) : bool :=
  match s with
  | String "-" s' => starts_number s'
  | _ => starts_number s
  end.

(** A decimal numeral: an optional minus sign, digits, and an optional
    fraction. *)
Definition fraction_text (frac : option string) : string :=
  match frac with Some fs => "." ++ fs | None => "" end.

Definition numeral (negative : bool) (ds : string) (frac : option string) : string :=
  (if negative then "-" else "") ++ ds ++ fraction_text frac.

(** The points in one unit, as the specification lists them. *)
Definition points_per (unit : string) : option Q :=
  if (unit =? "pt")%string then Some 1%Q
  else if (unit =? "px")%string then Some 0.75%Q
  else if (unit =? "em")%string then Some 12%Q
  else if (unit =? "rem")%string then Some 12%Q
  else if (unit =? "%")%string then Some 0.12%Q
  else None.

(** The shape of the first group: [-?\d*\.?\d+]. *)
Definition number_shape (g : string) : Prop :=
  exists sign ds1 dot ds2,
    g = (sign ++ ds1 ++ dot ++ ds2)%string
    /\ (sign = "" \/ sign = "-")
    /\ all_chars Str.isdigit ds1 = true
    /\ (dot = "" \/ dot = ".")
    /\ ds2 <> "" /\ all_chars Str.isdigit ds2 = true.

Definition known_unit (u : string) : Prop :=
  u = "pt" \/ u = "px" \/ u = "em" \/ u = "rem" \/ u = "%".

(** What a well-formed numeral is, and what may follow it. *)
Definition numeral_ok (ds : string) (frac : option string) : Prop :=
  all_chars Str.isdigit ds = true
  /\ match frac with
     | Some fs => fs <> "" /\ all_chars Str.isdigit fs = true
     | None => ds <> ""
     end.

Definition follows_numeral (frac : option string) (rest : string) : Prop :=
  stops Str.isdigit rest
  /\ (frac = None -> stops (Ascii.eqb ".") rest).

(** The continuation that ends a match. *)
Definition final : string -> Re.captures -> option Re.captures :=
  fun _ caps => Some caps.

(** The result is the float [q]. *)
Definition returns_number (r : result value) (q : Q) : bool :=
  match r with
  | Ok (VFloat x) => Qeq_bool x q
  | _ => false
  end.

(** A 10pt span with text and a bounding box 24pt high, and the style map
    that sets the font size to 20pt. *)
Definition box_attrs : dict :=
  <["height" := VFloat (fl 24)]> (<["width" := VFloat (fl 80)]> ∅).

Definition boxed_span : dict :=
  <["bbox" := VObj box_attrs]>
    (<["size" := VFloat (fl 10)]> (<["text" := VStr "Title"]> ∅)).

Definition sized_style : dict := <["font-size" := VStr "20pt"]> ∅.

(** A line whose bounding box spans [x0 .. x1], and a block without an
    explicit alignment made of such lines. *)
Definition box_x (x0 x1 : Z) : value :=
  VObj (<["y1" := VInt 12]> (<["x1" := VInt x1]>
         (<["y0" := VInt 0]> (<["x0" := VInt x0]> ∅)))).

Definition line_x (edges : Z * Z) : value :=
  VDict (<["bbox" := box_x edges.1 edges.2]> ∅).

Definition block_of_edges (left_edges right_edges : list Z) : value :=
  VDict (<["lines" := VList (map line_x (combine left_edges right_edges))]> ∅).

(** *** Words and blocks of the recognition stage *)

(** One recognized word: a row of the column dictionary. *)
Record word : Type := {
  w_text : string;
  w_conf : Qc;
  w_block : Z;
  w_left : Z;
  w_top : Z;
  w_width : Z;
  w_height : Z
}.

(** The column dictionary whose rows are the given words. *)
Definition columns (ws : list word) : ocr_execution.ocr_data :=
  {| ocr_execution.text := map w_text ws;
     ocr_execution.conf := map w_conf ws;
     ocr_execution.block_num := map w_block ws;
     ocr_execution.left := map w_left ws;
     ocr_execution.top := map w_top ws;
     ocr_execution.width := map w_width ws;
     ocr_execution.height := map w_height ws |}.

Definition stripped (w : word) : string := Str.strip (w_text w).

(** The filter of the specification: a word is forwarded when it is not
    empty (once stripped) and its confidence is at least 30. *)
Definition kept (w : word) : bool :=
  negb (stripped w =? "")%string && negb (Qc_ltb (w_conf w) (fl 30)).

(** Consecutive words with the same block number, grouped. *)
Fixpoint group (ws : list word) : list (list word) :=
  match ws with
  | [] => []
  | w :: ws' =>
      match group ws' with
      | [] => [[w]]
      | [] :: gs => [w] :: gs
      | (w' :: g) :: gs =>
          if (w_block w =? w_block w')%Z
          then (w :: w' :: g) :: gs
          else [w] :: (w' :: g) :: gs
      end
  end.

Definition mk_block (number : Z) (bbox : value) (text : string) : dict :=
  <["lines" := VList []]>
    (<["text" := VStr text]>
      (<["bbox" := bbox]>
        (<["number" := VInt number]> ∅))).

Section Blocks.

Variable Rect : Z -> Z -> Z -> Z -> value.
Variable rect_or : value -> value -> value.

Definition word_box (w : word) : value :=
  Rect (w_left w) (w_top w) (w_left w + w_width w) (w_top w + w_height w).

(** The block of a group of words: the number of the group, the union of
    the boxes, the stripped texts joined by single spaces, no lines. *)
Definition block_of_group (g : list word) : dict :=
  match g with
  | [] => ∅
  | w :: g' =>
      mk_block (w_block w)
        (fold_left (fun b w' => rect_or b (word_box w')) g' (word_box w))
        (String.concat " " (map stripped g))
  end.

(** The loop of [_convert_to_blocks] seen on rows: the finished blocks and
    the number, box and text of the block being built. *)
Definition builder : Type := list dict * option (Z * value * string).

Definition loop_state_of (st : builder) : ocr_execution.loop_state :=
  {| ocr_execution.blocks := st.1;
     ocr_execution.current_block :=
       match st.2 with
       | Some (n, b, t) => Some (mk_block n b t)
       | None => None
       end |}.

Definition absorb (st : builder) (w : word) : builder :=
  if kept w then
    match st.2 with
    | None => (st.1, Some (w_block w, word_box w, stripped w))
    | Some (n, b, t) =>
        if (n =? w_block w)%Z
        then (st.1, Some (n, rect_or b (word_box w), t ++ " " ++ stripped w))
        else ((st.1 ++ [mk_block n b t])%list,
              Some (w_block w, word_box w, stripped w))
    end
  else st.

Definition flush (st : builder) : list dict :=
  match st.2 with
  | Some (n, b, t) => (st.1 ++ [mk_block n b t])%list
  | None => st.1
  end.

(** [" " + w1 + " " + w2 + ...]: what the words [g] add to a text. *)
Fixpoint joined (g : list word) : string :=
  match g with
  | [] => ""
  | w :: g' => " " ++ stripped w ++ joined g'
  end.

(** The block that starts as [(n, b, t)] and takes in the words [g]. *)
Definition block_from (n : Z) (b : value) (t : string) (g : list word) : dict :=
  mk_block n (fold_left (fun b w => rect_or b (word_box w)) g b) (t ++ joined g).

(** The blocks when [(n, b, t)] is being built and the groups [gs] follow. *)
Definition join_first (n : Z) (b : value) (t : string) (gs : list (list word))
  : list dict :=
  match gs with
  | [] => [mk_block n b t]
  | [] :: gs' => mk_block n b t :: map block_of_group gs'
  | (w' :: g) :: gs' =>
      if (n =? w_block w')%Z
      then block_from n b t (w' :: g) :: map block_of_group gs'
      else mk_block n b t :: map block_of_group gs
  end.

End Blocks.

(** The invariants of the table scan of [difflib.find_longest_match]: the
    run lengths of a row are bounded, and the best match so far is empty
    or lies between [alo] and [hi]. *)
Definition lengths_within (n : nat) (j2len : gmap nat nat) : Prop :=
  map_Forall (fun _ v => v <= n) j2len.

Definition match_within (alo hi : nat) (x : difflib.best_match) : Prop :=
  difflib.bestsize x = 0
  \/ (alo <= difflib.besti x /\ difflib.besti x + difflib.bestsize x <= hi).

(** The text of a block. *)
Definition block_text (block : dict) : string :=
  match block !! "text" with
  | Some (VStr s) => s
  | _ => ""
  end.

(** Rectangles with integer corners and their bounding union, used where
    an example needs the rectangles of the document library. *)
Definition int_box (x0 y0 x1 y1 : Z) : value :=
  VObj (<["y1" := VInt y1]> (<["x1" := VInt x1]>
         (<["y0" := VInt y0]> (<["x0" := VInt x0]> ∅)))).

Definition corner (r : value) (name : string) : Z :=
  match getattr r name with
  | Ok (VInt z) => z
  | _ => 0%Z
  end.

Definition box_union (r1 r2 : value) : value :=
  int_box (Z.min (corner r1 "x0") (corner r2 "x0"))
          (Z.min (corner r1 "y0") (corner r2 "y0"))
          (Z.max (corner r1 "x1") (corner r2 "x1"))
          (Z.max (corner r1 "y1") (corner r2 "y1")).

(** Three words of one engine block with confidences 29, 30 and 100, and
    a fourth word of the next block. *)
Definition sample_words : list word :=
  [ {| w_text := "faint"; w_conf := fl 29; w_block := 1;
       w_left := 0; w_top := 0; w_width := 40; w_height := 10 |};
    {| w_text := "edge "; w_conf := fl 30; w_block := 1;
       w_left := 50; w_top := 0; w_width := 30; w_height := 10 |};
    {| w_text := "sure"; w_conf := fl 100; w_block := 1;
       w_left := 90; w_top := 2; w_width := 30; w_height := 10 |};
    {| w_text := "next"; w_conf := fl 95.5; w_block := 2;
       w_left := 0; w_top := 30; w_width := 30; w_height := 10 |} ]%Z.

(** *** The between-class variance of a histogram *)

(** [hist[i]], zero outside the list. *)
Definition bin (hist : list Z) (i : nat) : Z := nth i hist 0%Z.

(** [f 0 + ... + f (n - 1)]. *)
Fixpoint sumf (f : nat -> Z) (n : nat) : Z :=
  match n with
  | O => 0%Z
  | S n' => (sumf f n' + f n')%Z
  end.

(** The weight and the first moment of the bins below [k]. *)
Definition mass_below (hist : list Z) (k : nat) : Z := sumf (bin hist) k.

Definition moment_below (hist : list Z) (k : nat) : Z :=
  sumf (fun i => Z.of_nat i * bin hist i)%Z k.

(** The between-class variance of the split after bin [t], as the
    arithmetic [A] computes it: background is the bins [0..t], foreground
    the bins [t+1..255]; zero when one of the classes is empty. *)
Definition between_class_variance (A : ocr_preprocessing.arithmetic)
    (hist : list Z) (t : nat) : ocr_preprocessing.float A :=
  let weight_bg := mass_below hist (S t) in
  let weight_fg := (mass_below hist 256 - weight_bg)%Z in
  if (weight_bg =? 0)%Z then ocr_preprocessing.fzero A
  else if (weight_fg =? 0)%Z then ocr_preprocessing.fzero A
  else
    let mean_bg :=
      ocr_preprocessing.fdiv A (moment_below hist (S t)) weight_bg in
    let mean_fg :=
      ocr_preprocessing.fdiv A
        (moment_below hist 256 - moment_below hist (S t)) weight_fg in
    ocr_preprocessing.fscale A (weight_bg * weight_fg)
      (ocr_preprocessing.fsquare A (ocr_preprocessing.fsub A mean_bg mean_fg)).

(** What the comparison of an arithmetic has to satisfy: [x > y] is a
    strict order in which being neither above nor below is transitive,
    and a computed variance is never below zero.  Both hold of fractions
    and of the floats that are numbers. *)
Record lawful (A : ocr_preprocessing.arithmetic) : Prop := {
  gt_irreflexive : forall x, ocr_preprocessing.fgt A x x = false;
  gt_transitive : forall x y z,
    ocr_preprocessing.fgt A x y = true -> ocr_preprocessing.fgt A y z = true ->
    ocr_preprocessing.fgt A x z = true;
  gt_between : forall x y z,
    ocr_preprocessing.fgt A x z = true ->
    ocr_preprocessing.fgt A x y = true \/ ocr_preprocessing.fgt A y z = true;
  variance_not_below_zero : forall (n : Z) x,
    (0 <= n)%Z ->
    ocr_preprocessing.fgt A (ocr_preprocessing.fzero A)
      (ocr_preprocessing.fscale A n (ocr_preprocessing.fsquare A x)) = false
}.

(** A histogram with [h1] pixels at level [p1], [h2] at level [p2] and
    none elsewhere. *)
Definition two_peaks (p1 h1 p2 h2 : nat) : list Z :=
  map (fun i => if (i =? p1)%nat then Z.of_nat h1
                else if (i =? p2)%nat then Z.of_nat h2 else 0%Z)
      (seq 0 256).

(** [th] is the first bin where the between-class variance is greatest:
    no bin has a greater one, and every bin before [th] has a smaller
    one. *)
Definition first_maximum (A : ocr_preprocessing.arithmetic)
    (hist : list Z) (th : nat) : Prop :=
  (th < 256)%nat
  /\ (forall t, (t < 256)%nat ->
        ocr_preprocessing.fgt A (between_class_variance A hist t)
          (between_class_variance A hist th) = false)
  /\ (forall t, (t < th)%nat ->
        ocr_preprocessing.fgt A (between_class_variance A hist th)
          (between_class_variance A hist t) = true).

(** What the loop of [get_adaptive_threshold] has established when the
    bins below [k] are done. *)
Definition otsu_invariant (A : ocr_preprocessing.arithmetic) (hist : list Z) (k : nat)
    (st : ocr_preprocessing.otsu_state A) : Prop :=
  ocr_preprocessing.weight_bg st = mass_below hist k
  /\ ocr_preprocessing.sum_bg st = moment_below hist k
  /\ exists th : nat,
      ocr_preprocessing.threshold st = Z.of_nat th
      /\ ((ocr_preprocessing.max_variance st = ocr_preprocessing.fzero A /\ th = O
           /\ forall t, (t < k)%nat ->
                ocr_preprocessing.fgt A (between_class_variance A hist t)
                  (ocr_preprocessing.fzero A) = false)
          \/ (ocr_preprocessing.fgt A (ocr_preprocessing.max_variance st)
                (ocr_preprocessing.fzero A) = true
              /\ (th < k)%nat
              /\ ocr_preprocessing.max_variance st = between_class_variance A hist th
              /\ (forall t, (t < k)%nat ->
                    ocr_preprocessing.fgt A (between_class_variance A hist t)
                      (ocr_preprocessing.max_variance st) = false)
              /\ (forall t, (t < th)%nat ->
                    ocr_preprocessing.fgt A (ocr_preprocessing.max_variance st)
                      (between_class_variance A hist t) = true))).

(** The between-class variance of every split between the two peaks, as
    the arithmetic [A] computes it. *)
Definition peak_variance (A : ocr_preprocessing.arithmetic) (p1 h1 p2 h2 : nat)
  : ocr_preprocessing.float A :=
  ocr_preprocessing.fscale A (Z.of_nat h1 * Z.of_nat h2)
    (ocr_preprocessing.fsquare A
       (ocr_preprocessing.fsub A
          (ocr_preprocessing.fdiv A (Z.of_nat p1 * Z.of_nat h1) (Z.of_nat h1))
          (ocr_preprocessing.fdiv A (Z.of_nat p2 * Z.of_nat h2) (Z.of_nat h2)))).

(** The histogram of the pixels given by their grey levels. *)
Definition histogram_of (pixels : list nat) : list Z :=
  map (fun i => Z.of_nat (count_occ Nat.eq_dec pixels i)) (seq 0 256).

(** *** Numbers of ordinary magnitude

    Floats are modelled by fractions.  The two agree, up to the rounding
    of each result, on numbers that are neither so large that a product
    overflows or an integer has no float, nor so small that a product
    underflows to zero: the statements about sizes and widths are made
    for numbers between [tiny] and [huge]. *)
Definition tiny : Qc := fl (1 # 10 ^ 100).
Definition huge : Qc := fl (inject_Z (10 ^ 100)).

(** A size or a width: positive, of ordinary magnitude. *)
Definition ordinary (q : Qc) : Prop := (tiny <= q)%Qc /\ (q <= huge)%Qc.

(** A number that no conversion or product with a constant of the code
    takes out of the range of floats. *)
Definition in_float_range (q : Qc) : Prop := (- huge <= q)%Qc /\ (q <= huge)%Qc.

(** A number that an integer and a float hold alike: an integer of this
    range is converted to a float without rounding. *)
Definition float_exact (q : Qc) : Prop :=
  (- fl (inject_Z (2 ^ 53)) <= q)%Qc /\ (q <= fl (inject_Z (2 ^ 53)))%Qc.

(** *** Blocks for the merge examples *)

(** A left-aligned block with the given text, made of one line. *)
Definition text_block (text : string) : dict :=
  <["lines" := VList [VDict (<["text" := VStr text]> ∅)]]>
    (<["text" := VStr text]>
      (<["align" := VInt 0]> ∅)).


(** The value left by a run of the merge loop. *)
Definition merge_result (st : post_ocr_cleanup.merge_state) : list dict :=
  if post_ocr_cleanup.no_current (post_ocr_cleanup.current_block st)
  then post_ocr_cleanup.merged_blocks st
  else match post_ocr_cleanup.current_block st with
       | Some current => (post_ocr_cleanup.merged_blocks st ++ [current])%list
       | None => post_ocr_cleanup.merged_blocks st
       end.

(** A formatter for the examples: strings as they are; the blocks of the
    examples carry no other value that is formatted. *)
Definition format_text (v : value) : string :=
  match v with
  | VStr s => s
  | _ => ""
  end.

(** The run of the merge loop that starts with [current] as the block
    being built. *)
Definition merge_from (format : value -> string)
    (ratio : value -> value -> result Qc) (threshold : Qc)
    (current : dict) (blocks : list dict) : result (list dict) :=
  let! st := post_ocr_cleanup.loop format ratio threshold blocks
               {| post_ocr_cleanup.merged_blocks := [];
                  post_ocr_cleanup.current_block := Some current |} in
  Ok (merge_result st).

(** ** Vocabulary of the further properties *)

(** The factor by which the font size is multiplied to give the rise of
    an alignment word. *)
Definition rise_factor (align : string) : Qc :=
  if (align =? "super")%string then fl 0.33
  else if (align =? "sub")%string then fl (-0.33)
  else if (align =? "text-top")%string then fl 1.0
  else if (align =? "text-bottom")%string then fl (-1.0)
  else if (align =? "middle")%string then fl 0.5
  else fl 0.0.

(** The flag bits that an alignment word sets. *)
Definition align_bits (align : string) : Z :=
  if (align =? "super")%string then 2
  else if (align =? "sub")%string then 3
  else 0.

(** What extraction answers after the reinsertion of an alignment word
    into a span of positive font size. *)
Definition read_back (align : string) : string :=
  if (align =? "super")%string || (align =? "sub")%string
     || (align =? "text-top")%string || (align =? "middle")%string
  then "vertical-align: super;"
  else if (align =? "text-bottom")%string then "vertical-align: sub;"
  else "vertical-align: baseline;".

(** The factor by which reinsertion of an alignment word changes the
    font size. *)
Definition size_factor (align : string) : Qc :=
  if (align =? "sub")%string || (align =? "super")%string then fl 0.75 else 1%Qc.

(** A block as [_convert_to_blocks] builds it: it has a text and an
    empty list of lines. *)
Definition fresh_block (block : dict) : Prop :=
  is_Some (block !! "text") /\ block !! "lines" = Some (VList []).

(** Every block of the state of [_convert_to_blocks], finished or being
    built, is such a block. *)
Definition carries_text (st : ocr_execution.loop_state) : Prop :=
  Forall fresh_block (ocr_execution.blocks st)
  /\ forall cb : dict, ocr_execution.current_block st = Some cb -> fresh_block cb.

(** A line that ends a sentence: a dictionary whose text ends with a full
    stop, an exclamation mark or a question mark. *)
Definition sentence_line (line : value) : Prop :=
  exists (fields : dict) (text : string),
    line = VDict fields
    /\ fields !! "text" = Some (VStr text)
    /\ existsb (Str.endswith text) ["."; "!"; "?"] = true.

(** A line whose text ends with a hyphen. *)
Definition hyphen_line (line : value) : Prop :=
  exists (fields : dict) (text : string),
    line = VDict fields
    /\ fields !! "text" = Some (VStr text)
    /\ Str.endswith text "-" = true.

(** The text of a line without its last character. *)
Definition stem (line : value) : string :=
  match line with
  | VDict fields =>
      match fields !! "text" with
      | Some (VStr text) => Str.drop_last 1 text
      | _ => ""
      end
  | _ => ""
  end.

(** The stems of a run of hyphenated lines, one after the other. *)
Fixpoint stems (lines : list value) : string :=
  match lines with
  | [] => ""
  | line :: lines' => stem line ++ stems lines'
  end.

(** The lines that a block contributes when it is merged into another:
    what a loop over its "lines" visits. *)
Definition lines_of (block : dict) : list value :=
  match block !! "lines" with
  | Some v => match PySeq.iter v with Ok l => l | Raise _ => [] end
  | None => []
  end.

(** The lines of a block while the store is [h]. *)
Definition lines_in (h : post_ocr_cleanup.store) (block : post_ocr_cleanup.block_object)
  : list value :=
  lines_of (post_ocr_cleanup.contents h block).

(** The list objects that the blocks hold, block by block. *)
Fixpoint list_objects (blocks : list post_ocr_cleanup.block_object)
  : list post_ocr_cleanup.loc :=
  match blocks with
  | [] => []
  | block :: blocks' =>
      match post_ocr_cleanup.lines_at block with
      | post_ocr_cleanup.ListObject l => l :: list_objects blocks'
      | _ => list_objects blocks'
      end
  end.

(** The blocks that a state of the loop holds: those emitted, then the
    one being built. *)
Definition state_blocks (st : post_ocr_cleanup.object_state)
  : list post_ocr_cleanup.block_object :=
  (post_ocr_cleanup.merged_objects st
   ++ match post_ocr_cleanup.current_object st with
      | Some current => [current]
      | None => []
      end)%list.

(** The state of the loop on dictionaries that a state of the loop on
    objects is while the store is [h]. *)
Definition state_contents (h : post_ocr_cleanup.store)
    (st : post_ocr_cleanup.object_state) : post_ocr_cleanup.merge_state :=
  {| post_ocr_cleanup.merged_blocks :=
       map (post_ocr_cleanup.contents h) (post_ocr_cleanup.merged_objects st);
     post_ocr_cleanup.current_block :=
       option_map (post_ocr_cleanup.contents h) (post_ocr_cleanup.current_object st) |}.

(** A block whose "lines" entry is a list holds it as a list object. *)
Definition lists_are_objects (block : post_ocr_cleanup.block_object) : Prop :=
  forall l, post_ocr_cleanup.lines_at block <> post_ocr_cleanup.Other (VList l).

(** All the lines of a list of blocks while the store is [h]. *)
Definition all_lines (h : post_ocr_cleanup.store)
    (blocks : list post_ocr_cleanup.block_object) : list value :=
  concat (map (lines_in h) blocks).

(** A left-aligned block with the given text whose lines are the list
    object at [l]. *)
Definition text_object (text : string) (l : post_ocr_cleanup.loc)
  : post_ocr_cleanup.block_object :=
  {| post_ocr_cleanup.entries := <["text" := VStr text]> (<["align" := VInt 0]> ∅);
     post_ocr_cleanup.lines_at := post_ocr_cleanup.ListObject l |}.

(** A store in which every list object holds the one line [text]. *)
Definition one_line_each (text : string) : post_ocr_cleanup.store :=
  fun _ => [VDict (<["text" := VStr text]> ∅)].

(** Two blocks that differ at most in their lines. *)
Definition same_but_lines (a b : dict) : Prop :=
  forall key : string, key <> "lines" -> a !! key = b !! key.

(** The histogram of an image with [h] pixels, all of the grey level [p]. *)
Definition single_level (p h : nat) : list Z :=
  map (fun i => if (i =? p)%nat then Z.of_nat h else 0%Z) (seq 0 256).


(** The names of the standard fonts of a PDF document: a family, followed
    by the letters of the style. *)
Definition core_families : list string := ["helv"; "tiro"; "cour"].

Definition style_letters (bold italic : bool) : string :=
  (if bold then "b" else "") ++ (if italic then "i" else "").

(** The font names that [get_similar_fonts] knows. *)
Definition known_fonts : list string :=
  ["helvetica"; "arial"; "verdana"; "tahoma";
   "times"; "georgia"; "palatino"; "garamond";
   "courier"; "consolas"; "monaco"].

(** The code points that [get_language_hints] takes for Chinese, Japanese
    or Korean, and for Cyrillic: the end points of the ranges are left
    out. *)
Definition cjk (c : N) : bool := (0x4E00 <? c)%N && (c <? 0x9FFF)%N.
Definition cyrillic (c : N) : bool := (0x0400 <? c)%N && (c <? 0x04FF)%N.

(** A list of numbers, with their values. *)
Definition numbers (l : list value) (qs : list Qc) : Prop :=
  Forall2 (fun v q => as_num v = Some q) l qs.

(** The entry [name] of the recommendations of alignment metrics. *)
Definition recommended (metrics : dict) (name : string) : option value :=
  match metrics !! "recommendations" with
  | Some (VDict recommendations) => recommendations !! name
  | _ => None
  end.

(** The sum of a list of rationals. *)
Definition total (qs : list Qc) : Qc := fold_right Qcplus 0%Qc qs.
(** * Verified properties *)

(** ** Tactics for running monadic code on a symbolic dictionary *)

Ltac run_step :=
  unfold Py.bind, Py.contains, Py.get, Py.setitem, Py.getitem, Py.gets,
    Py.modify, Py.lift, Py.ret, Py.rbind, Py.lookup_item in *; cbn beta iota.

Ltac map_lookup_step :=
  match goal with
  | |- context [(<[?i := ?x]> ?m) !! ?j] =>
      first [ constr_eq i j; rewrite (lookup_insert_eq m i x)
            | rewrite (lookup_insert_ne m i j x) by discriminate ]
  end.

Ltac map_lookups := repeat map_lookup_step.

(** ** Bit-level facts about the flag field *)

Lemma land_bit0 (f : Z) : Z.testbit (Z.land f (Z.lnot (Z.lor 2 3))) 0 = false.
Proof. rewrite Z.land_spec. replace (Z.lnot (Z.lor 2 3)) with (-4)%Z by reflexivity.
  rewrite andb_false_r. reflexivity. Qed.

Lemma land_nonzero_of_bit (f m : Z) (i : Z) :
  (0 <= i)%Z -> Z.testbit f i = true -> Z.testbit m i = true ->
  (Z.land f m =? 0)%Z = false.
Proof.
  intros Hi Hf Hm. apply Z.eqb_neq. intros H0.
  assert (Hb : Z.testbit (Z.land f m) i = true) by (rewrite Z.land_spec, Hf, Hm; reflexivity).
  rewrite H0, Z.bits_0 in Hb. discriminate.
Qed.

(** ** A weakest-precondition calculus for the mutation monad *)

Section Post.
Context {S : Type}.

Lemma post_final {A} (m : M S A) (s : S) (Q : S -> Prop) :
  post m s (fun _ => Q) Q -> Q (m s).2.
Proof. unfold post. destruct (m s) as [[a | e] s']; auto. Qed.

Lemma post_returns {A} (m : M S A) (s : S) (Qok : A -> S -> Prop) :
  post m s Qok (fun _ => False) -> exists a s', m s = (Ok a, s') /\ Qok a s'.
Proof. unfold post. destruct (m s) as [[a | e] s']; intros H; [eauto | contradiction]. Qed.

Lemma post_bind {A B} (m : M S A) (k : A -> M S B) s Qok Qerr :
  post m s (fun a s' => post (k a) s' Qok Qerr) Qerr ->
  post (Py.bind m k) s Qok Qerr.
Proof. unfold post, Py.bind. destruct (m s) as [[a | e] s']; auto. Qed.

Lemma post_ret {A} (a : A) s (Qok : A -> S -> Prop) Qerr :
  Qok a s -> post (Py.ret a) s Qok Qerr.
Proof. auto. Qed.

Lemma post_lift {A} (r : result A) s (Qok : A -> S -> Prop) (Qerr : S -> Prop) :
  match r with Ok a => Qok a s | Raise _ => Qerr s end ->
  post (Py.lift r) s Qok Qerr.
Proof. unfold post, Py.lift. destruct r; auto. Qed.

Lemma post_gets {A} (f : S -> A) s (Qok : A -> S -> Prop) Qerr :
  Qok (f s) s -> post (Py.gets f) s Qok Qerr.
Proof. auto. Qed.

Lemma post_modify (f : S -> S) s (Qok : unit -> S -> Prop) Qerr :
  Qok tt (f s) -> post (Py.modify f) s Qok Qerr.
Proof. auto. Qed.

End Post.

Lemma post_get (k : string) (d : value) (s : dict) Qok Qerr :
  Qok (default d (s !! k)) s -> post (Py.get k d) s Qok Qerr.
Proof. auto. Qed.

Lemma post_contains (k : string) (s : dict) Qok Qerr :
  Qok (bool_decide (is_Some (s !! k))) s -> post (Py.contains k) s Qok Qerr.
Proof. auto. Qed.

Lemma post_setitem (k : string) (v : value) (s : dict) Qok Qerr :
  Qok tt (<[k := v]> s) -> post (Py.setitem k v) s Qok Qerr.
Proof. auto. Qed.

Lemma post_getitem (k : string) (s : dict) (Qok : value -> dict -> Prop) Qerr :
  match s !! k with Some v => Qok v s | None => Qerr s end ->
  post (Py.getitem k) s Qok Qerr.
Proof. unfold post, Py.getitem. destruct (s !! k); auto. Qed.



(** ** String methods on examples *)

Example split_example :
  Str.split "  underline   dashed red " = ["underline"; "dashed"; "red"].
Proof. reflexivity. Qed.

Example strip_example : Str.strip "  a b  " = "a b".
Proof. reflexivity. Qed.

Example normalize_font_size_px :
  font_size_handling.normalize_font_size (VStr "16px") = Ok (VFloat (fl 12)).
Proof. vm_compute. do 2 f_equal. apply Qc_is_canon. reflexivity. Qed.

(** ** Numbers of ordinary magnitude *)

Lemma tiny_pos : (0 < tiny)%Qc.
Proof. vm_compute. reflexivity. Qed.

Lemma ordinary_pos (q : Qc) : ordinary q -> (0 < q)%Qc.
Proof. intros [Hlo _]. exact (Qclt_le_trans _ _ _ tiny_pos Hlo). Qed.

Lemma ordinary_nonzero (q : Qc) : ordinary q -> q <> 0%Qc.
Proof.
  intros Hq ->. apply ordinary_pos in Hq. exact (Qclt_not_le _ _ Hq (Qcle_refl _)).
Qed.

(** ** Vertical alignment: extraction order and the reset mask *)

Section VerticalAlign.
Import vertical_align_handling.

(** Whenever bit 1 of an integer flag field is set the first test,
    [flags & 2], succeeds: extraction answers "super" and the test for
    the subscript pattern is never reached. *)
Lemma extract_vertical_align_bit1 (span : dict) (f : Z) :
  span !! "flags" = Some (VInt f) ->
  Z.testbit f 1 = true ->
  extract_vertical_align (VDict span) = Ok "vertical-align: super;".
Proof.
  intros Hflags Hbit. unfold extract_vertical_align. rewrite Hflags. cbn.
  rewrite (land_nonzero_of_bit f 2 1) by (auto; lia). reflexivity.
Qed.

(** C1 (as the code behaves): a span whose flag field has bits 0 and 1
    both set, the subscript pattern that reinsertion writes, is extracted
    as "vertical-align: super;", not as "vertical-align: sub;". *)
Theorem extract_vertical_align_subscript_pattern (span : dict) (f : Z) :
  span !! "flags" = Some (VInt f) ->
  Z.land f 3 = 3%Z ->
  extract_vertical_align (VDict span) = Ok "vertical-align: super;"
  /\ extract_vertical_align (VDict span) <> Ok "vertical-align: sub;".
Proof.
  intros Hflags H3.
  assert (Hbit : Z.testbit f 1 = true).
  { assert (H : Z.testbit (Z.land f 3) 1 = true) by (rewrite H3; reflexivity).
    rewrite Z.land_spec in H. apply andb_true_iff in H. tauto. }
  rewrite (extract_vertical_align_bit1 span f Hflags Hbit).
  split; [reflexivity | discriminate].
Qed.

Lemma extract_vertical_align_subscript_pattern_witness :
  extract_vertical_align (VDict (<["flags" := VInt 3]> ∅))
    = Ok "vertical-align: super;"
  /\ extract_vertical_align (VDict (<["flags" := VInt 3]> ∅))
    <> Ok "vertical-align: sub;".
Proof.
  apply (extract_vertical_align_subscript_pattern (<["flags" := VInt 3]> ∅) 3);
    reflexivity.
Defined.

(** The branch that answers "sub" from the flags is taken by the spans
    that have bit 0 (italic) without bit 1. *)
Lemma extract_vertical_align_italic_only (span : dict) (f : Z) :
  span !! "flags" = Some (VInt f) ->
  Z.testbit f 1 = false ->
  Z.testbit f 0 = true ->
  extract_vertical_align (VDict span) = Ok "vertical-align: sub;".
Proof.
  intros Hflags H1 H0. unfold extract_vertical_align. rewrite Hflags. cbn.
  assert (Z.land f 2 = 0)%Z as ->.
  { apply Z.bits_inj'. intros n Hn. rewrite Z.land_spec, Z.bits_0.
    destruct (Z.eq_dec n 1%Z) as [-> | Hne]; [rewrite H1; reflexivity |].
    replace (Z.testbit 2 n) with false; [apply andb_false_r |].
    symmetry. change 2%Z with (2 ^ 1)%Z. rewrite Z.pow2_bits_eqb by lia.
    apply Z.eqb_neq. congruence. }
  cbn. rewrite (land_nonzero_of_bit f 3 0) by (auto; lia). reflexivity.
Qed.

(** Writing "sub" and reading it back gives "super". *)
Example subscript_round_trip :
  let span := (reinsert_vertical_align (<["vertical-align" := VStr "sub"]> ∅)
                 (<["flags" := VInt 0]> ∅)).2 in
  span !! "flags" = Some (VInt 3)
  /\ extract_vertical_align (VDict span) = Ok "vertical-align: super;".
Proof. split; reflexivity. Qed.

Lemma reset_mask_flags (v : value) (f : Z) :
  as_int v = Some f ->
  and_ v (VInt (Z.lnot (Z.lor 2 3))) = Ok (VInt (Z.land f (Z.lnot (Z.lor 2 3)))).
Proof.
  destruct v; cbn; intros H; try discriminate; injection H as <-; reflexivity.
Qed.

(** C9: reinsertion with a "vertical-align" value other than "sub" leaves
    an integer flag field whose bit 0, the italic bit, is clear, whatever
    it was before; this holds also when a later step of the handler
    raises, since the flags are written first. *)
Theorem reinsert_vertical_align_clears_italic
    (span style_dict : dict) (align : value) (f : Z) :
  style_dict !! "vertical-align" = Some align ->
  eq_str align "sub" = false ->
  as_int (default (VInt 0) (span !! "flags")) = Some f ->
  exists f', (reinsert_vertical_align style_dict span).2 !! "flags" = Some (VInt f')
             /\ Z.testbit f' 0 = false.
Proof.
  intros Halign Hsub Hf. unfold reinsert_vertical_align. rewrite Halign.
  run_step. rewrite (reset_mask_flags _ f Hf). cbn beta iota.
  unfold size_times, neg_size_times. run_step. cbn [in_strs existsb].
  rewrite Hsub. cbn [orb].
  destruct (eq_str align "super") eqn:Hsuper.
  - map_lookups. cbn [or_ as_int].
    repeat case_match; simplify_eq/=; map_lookups; eexists;
      (split; [reflexivity |]);
      rewrite <- Z.bit0_odd, Z.lor_spec, land_bit0; reflexivity.
  - repeat case_match; simplify_eq/=; map_lookups; eexists;
      (split; [reflexivity |]); rewrite <- Z.bit0_odd; apply land_bit0.
Qed.

Lemma reinsert_vertical_align_clears_italic_witness :
  exists f',
    (reinsert_vertical_align (<["vertical-align" := VStr "super"]> ∅)
       (<["size" := VInt 12]> (<["flags" := VInt 1]> ∅))).2 !! "flags"
      = Some (VInt f')
    /\ Z.testbit f' 0 = false.
Proof.
  apply (reinsert_vertical_align_clears_italic
           (<["size" := VInt 12]> (<["flags" := VInt 1]> ∅))
           (<["vertical-align" := VStr "super"]> ∅) (VStr "super") 1);
    reflexivity.
Defined.

(** An italic span, after each of the five edits named in the claim. *)
Example italic_lost_after_edit :
  Forall (fun align =>
            (reinsert_vertical_align (<["vertical-align" := VStr align]> ∅)
               (<["flags" := VInt 1]> ∅)).2 !! "flags"
            = Some (VInt (if String.eqb align "super" then 2 else 0)))
         ["super"; "baseline"; "text-top"; "text-bottom"; "middle"].
Proof. repeat constructor. Qed.

End VerticalAlign.

(** ** Underline handlers and flag bit 2 *)

Section Underline.
Import underline_handling dashed_underline_handling.

Lemma or_4_flags (v : value) (f : Z) :
  as_int v = Some f -> or_ v (VInt 4) = Ok (VInt (Z.lor f 4)).
Proof.
  destruct v; cbn; intros H; try discriminate; injection H as <-; reflexivity.
Qed.

Lemma lor_4_bit2 (f : Z) : Z.testbit (Z.lor f 4) 2 = true.
Proof. rewrite Z.lor_spec. apply orb_true_r. Qed.












(** The same span with "text-decoration" set to "none". *)
Example underline_bit_survives_none :
  (reinsert_underline (<["text-decoration" := VStr "none"]> ∅)
     (<["flags" := VInt 4]> ∅)).2 !! "flags" = Some (VInt 4).
Proof. reflexivity. Qed.

End Underline.

(** ** Dashed underline: round trip and geometry *)

Section DashedUnderline.
Import dashed_underline_handling.

Lemma as_num_of_int (v : value) (n : Z) :
  as_int v = Some n -> as_num v = Some (fl (inject_Z n)).
Proof.
  destruct v; cbn; intros H; try discriminate; injection H as <-; try reflexivity.
  destruct b; f_equal; apply Qc_is_canon; reflexivity.
Qed.

Lemma mul_numeric (a b : value) :
  is_Some (as_num a) -> is_Some (as_num b) ->
  exists v, mul a b = Ok v /\ is_Some (as_num v).
Proof.
  intros [x Hx] [y Hy]. unfold mul.
  destruct (is_float a || is_float b) eqn:Hfl.
  - rewrite Hx, Hy. eexists. split; [reflexivity | cbn; eauto].
  - apply orb_false_iff in Hfl as [Ha Hb].
    destruct a, b; cbn in *; try discriminate; eexists; (split; [reflexivity | cbn; eauto]).
Qed.

Lemma neg_numeric (a : value) :
  is_Some (as_num a) -> exists v, neg a = Ok v /\ is_Some (as_num v).
Proof.
  intros [x Hx]. destruct a; cbn in *; try discriminate;
    eexists; (split; [reflexivity | cbn; eauto]).
Qed.

Lemma truediv_numeric (a : value) (n : Z) :
  is_Some (as_num a) -> n <> 0%Z ->
  exists v, truediv a (VInt n) = Ok v /\ is_Some (as_num v).
Proof.
  intros [x Hx] Hn. unfold truediv. rewrite Hx. cbn [as_num].
  assert (Qc_eqb (fl (inject_Z n)) 0 = false) as ->.
  { unfold Qc_eqb. apply not_true_iff_false. intros H. apply Qeq_bool_iff in H.
    unfold fl, Q2Qc in H. cbn [this] in H. rewrite Qred_correct in H.
    unfold Qeq in H. cbn in H. change (Qred 0) with 0%Q in H. cbn in H. lia. }
  eexists. split; [reflexivity | cbn; eauto].
Qed.

Lemma max2_numeric (a b : value) :
  is_Some (as_num a) -> is_Some (as_num b) ->
  exists v, max2 a b = Ok v /\ is_Some (as_num v).
Proof.
  intros [x Hx] [y Hy]. unfold max2, gt, lt. rewrite Hx, Hy.
  destruct (Qc_ltb x y); eexists; (split; [reflexivity |]); eauto.
Qed.

Lemma twelfths_numeric (k : Z) (size : value) :
  is_Some (as_num size) -> exists v, twelfths k size = Ok v /\ is_Some (as_num v).
Proof.
  intros Hs. unfold twelfths.
  destruct (mul_numeric (VInt k) size) as (p & -> & Hp); [cbn; eauto | exact Hs |].
  cbn. apply truediv_numeric; [exact Hp | discriminate].
Qed.

Lemma thickness_of_numeric (size : value) (k : Q) :
  is_Some (as_num size) -> exists v, thickness_of size k = Ok v /\ is_Some (as_num v).
Proof.
  intros Hs. unfold thickness_of.
  destruct (mul_numeric size (VFloat (fl k))) as (p & -> & Hp); [exact Hs | cbn; eauto |].
  cbn. apply max2_numeric; [cbn; eauto | exact Hp].
Qed.

Lemma below_numeric (size : value) (k : Q) :
  is_Some (as_num size) -> exists v, below size k = Ok v /\ is_Some (as_num v).
Proof.
  intros Hs. unfold below.
  destruct (neg_numeric size Hs) as (m & -> & Hm). cbn.
  apply mul_numeric; [exact Hm | cbn; eauto].
Qed.

(** C6: on a span with a numeric size, reinserting a style map whose
    "text-decoration-style" is "dashed" succeeds, extraction of the result
    gives exactly "text-decoration-style: dashed;", and the dash length,
    gap length, thickness and position written into the span are the
    values [calculate_dash_pattern] returns for the same size (dash_length,
    gap_length, thickness, offset). *)
Theorem dashed_round_trip_geometry
    (span style_dict : dict) (size : value) (f : Z) :
  style_dict !! "text-decoration-style" = Some (VStr "dashed") ->
  span !! "size" = Some size ->
  is_Some (as_num size) ->
  as_int (default (VInt 0) (span !! "flags")) = Some f ->
  let out := reinsert_dashed_underline style_dict span in
  out.1 = Ok tt
  /\ extract_dashed_underline (VDict out.2) = Ok "text-decoration-style: dashed;"
  /\ exists (metrics : dict) (dash gap thickness position : value),
       calculate_dash_pattern size (VStr "dashed") = Ok metrics
       /\ out.2 !! "dash_pattern" = Some (VList [dash; gap])
       /\ metrics !! "dash_length" = Some dash
       /\ metrics !! "gap_length" = Some gap
       /\ out.2 !! "underline_thickness" = Some thickness
       /\ metrics !! "thickness" = Some thickness
       /\ out.2 !! "underline_position" = Some position
       /\ metrics !! "offset" = Some position.
Proof.
  intros Hstyle Hsize Hnum Hf.
  destruct (twelfths_numeric 3 size Hnum) as (dash & Hdash & _).
  destruct (twelfths_numeric 2 size Hnum) as (gap & Hgap & _).
  destruct (thickness_of_numeric size 0.04 Hnum) as (th & Hth & _).
  destruct (below_numeric size 0.1 Hnum) as (pos & Hpos & _).
  assert (Hout : reinsert_dashed_underline style_dict span =
    (Ok tt,
     <["baseline_offset" := pos]>
       (<["underline_position" := pos]>
         (<["underline_thickness" := th]>
           (<["dash_pattern" := VList [dash; gap]]>
             (<["underline_style" := VStr "dashed"]>
               (<["flags" := VInt (Z.lor f 4)]> span))))))).
  { unfold reinsert_dashed_underline. rewrite Hstyle.
    cbn [in_strs existsb eq_str String.eqb Ascii.eqb Bool.eqb orb].
    run_step. rewrite (or_4_flags _ f Hf). cbn beta iota. map_lookups.
    rewrite Hsize. cbn [bool_decide decide_rel is_Some_dec].
    map_lookups. rewrite Hsize. cbn beta iota.
    rewrite Hdash, Hgap, Hth, Hpos. reflexivity. }
  intros out. subst out. rewrite Hout. cbn [fst snd].
  split; [reflexivity |].
  split.
  { unfold extract_dashed_underline. map_lookups.
    change (and_ (default (VInt 0) (Some (VInt (Z.lor f 4)))) (VInt 4))
      with (Ok (VInt (Z.land (Z.lor f 4) 4))).
    unfold Py.rbind, truthy.
    rewrite (land_nonzero_of_bit (Z.lor f 4) 4 2);
      [| lia | apply lor_4_bit2 | reflexivity].
    reflexivity. }
  exists (<["gap_length" := gap]>
           (<["dash_length" := dash]>
             (<["offset" := pos]> (<["thickness" := th]> ∅)))), dash, gap, th, pos.
  split.
  { unfold calculate_dash_pattern. rewrite Hth, Hpos. cbn. rewrite Hdash, Hgap.
    reflexivity. }
  repeat split; map_lookups; reflexivity.
Qed.

Lemma dashed_round_trip_geometry_witness :
  let out := reinsert_dashed_underline dashed_style span12 in
  out.1 = Ok tt
  /\ extract_dashed_underline (VDict out.2) = Ok "text-decoration-style: dashed;"
  /\ exists (metrics : dict) (dash gap thickness position : value),
       calculate_dash_pattern (VInt 12) (VStr "dashed") = Ok metrics
       /\ out.2 !! "dash_pattern" = Some (VList [dash; gap])
       /\ metrics !! "dash_length" = Some dash
       /\ metrics !! "gap_length" = Some gap
       /\ out.2 !! "underline_thickness" = Some thickness
       /\ metrics !! "thickness" = Some thickness
       /\ out.2 !! "underline_position" = Some position
       /\ metrics !! "offset" = Some position.
Proof.
  apply (dashed_round_trip_geometry span12 dashed_style (VInt 12) 0);
    [reflexivity | reflexivity | cbn; eauto | reflexivity].
Defined.

(** The numbers at 12pt: dashes of 3pt, gaps of 2pt, thickness 0.5pt,
    position 1.2pt below the baseline. *)
Example dashed_geometry_at_12 :
  let span' := (reinsert_dashed_underline dashed_style span12).2 in
  match span' !! "dash_pattern" with
  | Some (VList [dash; gap]) => number_is (Some dash) 3 && number_is (Some gap) 2
  | _ => false
  end = true
  /\ number_is (span' !! "underline_thickness") 0.5 = true
  /\ number_is (span' !! "underline_position") (-1.2) = true.
Proof. vm_compute. auto. Qed.

End DashedUnderline.

(** ** Strings and the regular-expression matcher *)

#[local] Arguments String.append !_ _ / : simpl nomatch.

Create HintDb regex.
#[local] Hint Constructors derives : regex.

Section RegexFacts.
Import Re.

Lemma string_app_assoc (a b c : string) : ((a ++ b) ++ c = a ++ (b ++ c))%string.
Proof. induction a as [| x a IH]; cbn; [reflexivity | rewrite IH; reflexivity]. Qed.

Lemma string_app_nil_r (a : string) : (a ++ "")%string = a.
Proof. induction a as [| x a IH]; cbn; [reflexivity | rewrite IH; reflexivity]. Qed.

Lemma string_length_app (a b : string) :
  String.length (a ++ b) = (String.length a + String.length b)%nat.
Proof. induction a as [| x a IH]; cbn; [reflexivity | rewrite IH; reflexivity]. Qed.

Lemma substring_prefix (w rest : string) :
  String.substring 0 (String.length w) (w ++ rest) = w.
Proof. induction w as [| x w IH]; cbn; [destruct rest | rewrite IH]; reflexivity. Qed.

Lemma consumed_app (w rest : string) : consumed (w ++ rest) rest = w.
Proof.
  unfold consumed. rewrite string_length_app.
  replace (String.length w + String.length rest - String.length rest)%nat
    with (String.length w) by lia.
  apply substring_prefix.
Qed.

Lemma strip_prefix_app (l s rest : string) :
  strip_prefix l s = Some rest <-> s = (l ++ rest)%string.
Proof.
  revert s. induction l as [| a l IH]; intros s; cbn.
  - split; [intros [= ->] | intros ->]; reflexivity.
  - destruct s as [| b s]; [split; discriminate |].
    destruct (Ascii.eqb_spec a b) as [-> | Hne].
    + rewrite IH. split; [intros -> | intros [= ->]]; reflexivity.
    + split; [discriminate | intros [= Hb _]; congruence].
Qed.

Lemma all_chars_app (p : ascii -> bool) (a b : string) :
  all_chars p (a ++ b) = all_chars p a && all_chars p b.
Proof.
  induction a as [| x a IH]; cbn; [reflexivity |].
  rewrite IH, andb_assoc. reflexivity.
Qed.

(** Whatever [star] returns was returned by the continuation on a suffix
    that follows a run of the class. *)
Lemma star_sound {A} (p : ascii -> bool) (s : string) (k : string -> option A) (c : A) :
  star p s k = Some c ->
  exists w rest, s = (w ++ rest)%string /\ all_chars p w = true /\ k rest = Some c.
Proof.
  induction s as [| x s IH]; cbn.
  - intros H. exists "", "". auto.
  - destruct (p x) eqn:Hx.
    + destruct (star p s k) as [c' |] eqn:Hs.
      * intros [= ->]. destruct (IH eq_refl) as (w & rest & -> & Hw & Hk).
        exists (String x w), rest. cbn. rewrite Hx, Hw. auto.
      * intros H. exists "", (String x s). auto.
    + intros H. exists "", (String x s). auto.
Qed.

(** The longest run wins when the continuation accepts what follows it. *)
Lemma star_deepest {A} (p : ascii -> bool) (ds rest : string)
    (k : string -> option A) (c : A) :
  all_chars p ds = true -> stops p rest -> k rest = Some c ->
  star p (ds ++ rest) k = Some c.
Proof.
  intros Hds Hrest Hk. induction ds as [| x ds IH]; cbn in *.
  - destruct rest as [| y rest]; cbn in *; [exact Hk | rewrite Hrest; exact Hk].
  - apply andb_true_iff in Hds as [Hx Hds]. rewrite Hx, (IH Hds). reflexivity.
Qed.

(** When the continuation refuses what follows the run but accepts one
    character earlier, the matcher gives the last character back. *)
Lemma star_gives_back {A} (p : ascii -> bool) (ds : string) (d : ascii)
    (rest : string) (k : string -> option A) (c : A) :
  all_chars p ds = true -> p d = true -> stops p rest ->
  k rest = None -> k (String d rest) = Some c ->
  star p (ds ++ String d rest) k = Some c.
Proof.
  intros Hds Hd Hrest Hnone Hk. induction ds as [| x ds IH]; cbn in *.
  - rewrite Hd.
    assert (star p rest k = None) as ->.
    { destruct rest as [| y rest]; cbn in *; [exact Hnone | rewrite Hrest; exact Hnone]. }
    exact Hk.
  - apply andb_true_iff in Hds as [Hx Hds]. rewrite Hx, (IH Hds). reflexivity.
Qed.

Lemma star_never_fails {A} (p : ascii -> bool) (s : string) (k : string -> option A) :
  (forall rest, k rest <> None) -> star p s k <> None.
Proof.
  intros Hk. induction s as [| x s IH]; cbn; [apply Hk |].
  destruct (p x); [| apply Hk].
  destruct (star p s k); [discriminate | contradiction].
Qed.

(** Soundness of the matcher: a result comes from the continuation, run
    on the rest of the subject after a word of the expression. *)
Lemma rmatch_sound (r : regex) :
  forall (s : string) (caps : captures) k (c : captures),
    rmatch r s caps k = Some c ->
    exists w rest caps',
      s = (w ++ rest)%string /\ derives r w caps caps' /\ k rest caps' = Some c.
Proof.
  induction r as [l | r1 IH1 r2 IH2 | r1 IH1 r2 IH2 | r1 IH1 | p | p | i r1 IH1];
    intros s caps k c; cbn.
  - destruct (strip_prefix l s) as [rest |] eqn:Hl; [| discriminate].
    apply strip_prefix_app in Hl as ->. intros Hk.
    exists l, rest, caps. eauto 6 with regex.
  - intros H. apply IH1 in H as (w1 & rest1 & c1 & -> & Hd1 & H).
    apply IH2 in H as (w2 & rest2 & c2 & -> & Hd2 & H).
    exists (w1 ++ w2)%string, rest2, c2. rewrite string_app_assoc.
    eauto 6 with regex.
  - destruct (rmatch r1 s caps k) as [c' |] eqn:H1.
    + intros [= ->]. apply IH1 in H1 as (w & rest & c1 & -> & Hd & H).
      exists w, rest, c1. eauto 6 with regex.
    + intros H. apply IH2 in H as (w & rest & c1 & -> & Hd & H).
      exists w, rest, c1. eauto 6 with regex.
  - destruct (rmatch r1 s caps k) as [c' |] eqn:H1.
    + intros [= ->]. apply IH1 in H1 as (w & rest & c1 & -> & Hd & H).
      exists w, rest, c1. eauto 6 with regex.
    + intros H. exists "", s, caps. eauto 6 with regex.
  - intros H. apply star_sound in H as (w & rest & -> & Hw & H).
    exists w, rest, caps. eauto 6 with regex.
  - destruct s as [| x s]; [discriminate |].
    destruct (p x) eqn:Hx; [| discriminate].
    intros H. apply star_sound in H as (w & rest & -> & Hw & H).
    exists (String x w), rest, caps. split; [reflexivity |]. split; [| exact H].
    apply derives_plus; [discriminate | cbn; rewrite Hx, Hw; reflexivity].
  - intros H. apply IH1 in H as (w & rest & c1 & -> & Hd & H).
    rewrite consumed_app in H. exists w, rest, (<[i := w]> c1).
    eauto 6 with regex.
Qed.

End RegexFacts.

(** ** Size and spacing normalizers *)

Section Normalizers.
Import Re font_size_handling letter_spacing_handling.

Ltac invert_derives :=
  repeat match goal with
         | H : derives (Lit _) _ _ _ |- _ => inversion H; subst; clear H
         | H : derives (Cat _ _) _ _ _ |- _ => inversion H; subst; clear H
         | H : derives (Alt _ _) _ _ _ |- _ => inversion H; subst; clear H
         | H : derives (Opt _) _ _ _ |- _ => inversion H; subst; clear H
         | H : derives (Star _) _ _ _ |- _ => inversion H; subst; clear H
         | H : derives (Plus _) _ _ _ |- _ => inversion H; subst; clear H
         | H : derives (Group _ _) _ _ _ |- _ => inversion H; subst; clear H
         end.

Lemma size_pattern_groups (s : string) (caps : captures) :
  match_ size_pattern s = Some caps ->
  exists g1 rest,
    caps !! 1%nat = Some g1 /\ number_shape g1
    /\ s = (g1 ++ rest)%string
    /\ (caps !! 2%nat = None \/ exists u, caps !! 2%nat = Some u /\ known_unit u).
Proof.
  unfold match_, size_pattern, number_pattern, unit_pattern. intros H.
  apply rmatch_sound in H as (w & rest & caps' & -> & Hd & [= <-]).
  invert_derives.
  all: eexists _, _; (split; [rewrite ?lookup_insert_ne by discriminate;
                               apply lookup_insert_eq |]).
  all: split; [eexists _, _, _, _; split; [reflexivity |]; cbn; intuition auto |].
  all: split; [rewrite !string_app_assoc; reflexivity |].
  all: first [ left; reflexivity
             | right; eexists; split; [apply lookup_insert_eq | unfold known_unit; tauto] ].
Qed.


Lemma digit_not_dot (c : ascii) : Str.isdigit c = true -> Ascii.eqb c "." = false.
Proof.
  intros H. destruct (Ascii.eqb_spec c ".") as [-> | _]; [discriminate | reflexivity].
Qed.

Lemma digits_total (s : string) :
  all_chars Str.isdigit s = true -> forall acc, exists n, Float.digits s acc = Some n.
Proof.
  induction s as [| c s IH]; cbn; intros H acc; [eauto |].
  apply andb_true_iff in H as [Hc Hs]. rewrite Hc. apply IH, Hs.
Qed.

Lemma cut_dot_digits (ds rest : string) :
  all_chars Str.isdigit ds = true ->
  Float.cut_dot (ds ++ rest) =
    let (a, b) := Float.cut_dot rest in ((ds ++ a)%string, b).
Proof.
  induction ds as [| c ds IH]; cbn; intros H.
  - destruct (Float.cut_dot rest); reflexivity.
  - apply andb_true_iff in H as [Hc Hs]. rewrite (digit_not_dot c Hc), (IH Hs).
    destruct (Float.cut_dot rest); reflexivity.
Qed.

Lemma unsigned_total (ds1 dot ds2 : string) :
  all_chars Str.isdigit ds1 = true ->
  dot = "" \/ dot = "." ->
  ds2 <> "" -> all_chars Str.isdigit ds2 = true ->
  exists q, Float.unsigned (ds1 ++ dot ++ ds2) = Some q.
Proof.
  intros H1 [-> | ->] Hne H2; unfold Float.unsigned.
  - cbn [String.append]. rewrite <- (string_app_nil_r (ds1 ++ ds2)).
    rewrite cut_dot_digits by (rewrite all_chars_app, H1, H2; reflexivity).
    cbn [Float.cut_dot]. rewrite string_app_nil_r.
    destruct (digits_total (ds1 ++ ds2)) with (acc := 0%Z) as [n Hn];
      [rewrite all_chars_app, H1, H2; reflexivity |].
    rewrite Hn. destruct (ds1 ++ ds2)%string eqn:E; [| cbn; eauto].
    destruct ds1; [cbn in E; congruence | discriminate].
  - rewrite cut_dot_digits by exact H1. cbn. rewrite string_app_nil_r.
    destruct (digits_total ds1 H1 0%Z) as [n Hn].
    destruct (digits_total ds2 H2 n) as [m Hm].
    rewrite Hn. cbn. rewrite Hm. cbn.
    destruct ds1; [destruct ds2; [congruence |] |]; eauto.
Qed.

Lemma of_string_unsigned (c : ascii) (s : string) :
  Ascii.eqb c "-" = false -> Ascii.eqb c "+" = false ->
  Float.of_string (String c s) =
    match Float.unsigned (String c s) with
    | Some q => Ok q
    | None => Raise ValueError
    end.
Proof.
  destruct c as [[] [] [] [] [] [] [] []]; cbn; intros; try reflexivity; discriminate.
Qed.

Lemma digit_not_sign (c : ascii) :
  Str.isdigit c = true \/ c = "."%char ->
  Ascii.eqb c "-" = false /\ Ascii.eqb c "+" = false.
Proof.
  intros [H | ->]; [| split; reflexivity].
  split; [destruct (Ascii.eqb_spec c "-") as [-> | _]
         | destruct (Ascii.eqb_spec c "+") as [-> | _]];
    first [discriminate | reflexivity].
Qed.

(** [float] accepts every string the first group can hold. *)
Lemma of_string_number_shape (g : string) :
  number_shape g -> exists q, Float.of_string g = Ok q.
Proof.
  intros (sign & ds1 & dot & ds2 & -> & Hsign & H1 & Hdot & Hne & H2).
  destruct (unsigned_total ds1 dot ds2 H1 Hdot Hne H2) as [q Hq].
  destruct Hsign as [-> | ->].
  - cbn [String.append].
    destruct (ds1 ++ dot ++ ds2)%string as [| c s] eqn:E.
    { destruct ds1; [destruct Hdot as [-> | ->]; [destruct ds2 |] |];
        cbn in E; congruence. }
    assert (Hc : Str.isdigit c = true \/ c = "."%char).
    { destruct ds1 as [| d ds1]; cbn in E, H1.
      - destruct Hdot as [-> | ->]; cbn in E.
        + destruct ds2; [congruence |]. cbn in H2. injection E as <- _.
          apply andb_true_iff in H2. tauto.
        + injection E as <- _. tauto.
      - injection E as <- _. apply andb_true_iff in H1. tauto. }
    destruct (digit_not_sign c Hc) as [Hm Hp].
    rewrite (of_string_unsigned c s Hm Hp), Hq. eauto.
  - change ("-" ++ ds1 ++ dot ++ ds2)%string with (String "-" (ds1 ++ dot ++ ds2)).
    unfold Float.of_string. rewrite Hq. cbn. eauto.
Qed.

(** The normalizers return a float on every string. *)
Lemma normalize_with_total (dflt : Qc) (s : string) :
  exists q, normalize_with dflt (VStr s) = Ok (VFloat q).
Proof.
  unfold normalize_with.
  destruct (match_ size_pattern s) as [caps |] eqn:Hm; [| eauto].
  apply size_pattern_groups in Hm as (g1 & rest & Hg1 & Hshape & _ & Hu).
  unfold group. rewrite Hg1. cbn [Py.rbind].
  destruct (of_string_number_shape g1 Hshape) as [q ->]. cbn [Py.rbind].
  destruct Hu as [-> | (u & -> & Hu)]; [cbn; eauto |].
  destruct Hu as [-> | [-> | [-> | [-> | ->]]]]; cbn; eauto.
Qed.


(** *** Which strings the pattern matches *)

Lemma tail_never_fails (r : regex) (rest : string) (caps : captures) :
  rmatch (Cat (Star Str.isspace) (Opt r)) rest caps final <> None.
Proof.
  cbn. apply star_never_fails. intros rest'.
  destruct (rmatch r rest' caps final); discriminate.
Qed.

Lemma no_minus (c : ascii) (s : string) :
  Ascii.eqb c "-" = false -> strip_prefix "-" (String c s) = None.
Proof.
  destruct c as [[] [] [] [] [] [] [] []]; cbn; intros; try reflexivity; discriminate.
Qed.

Lemma no_dot (c : ascii) (s : string) :
  Ascii.eqb c "." = false -> strip_prefix "." (String c s) = None.
Proof.
  destruct c as [[] [] [] [] [] [] [] []]; cbn; intros; try reflexivity; discriminate.
Qed.

Lemma has_number_no_minus (c : ascii) (s : string) :
  Ascii.eqb c "-" = false -> has_number (String c s) = starts_number (String c s).
Proof.
  destruct c as [[] [] [] [] [] [] [] []]; cbn; intros; try reflexivity; discriminate.
Qed.

(** The number part matches wherever a number starts, if what follows
    cannot fail. *)
Lemma unsigned_never_fails (s : string) (caps : captures)
    (k : string -> captures -> option captures) :
  (forall rest caps', k rest caps' <> None) ->
  starts_number s = true ->
  rmatch (Cat (Star Str.isdigit) (Cat (Opt (Lit ".")) (Plus Str.isdigit))) s caps k
    <> None.
Proof.
  intros Hk Hs. destruct s as [| c s]; [discriminate |].
  cbn [starts_number] in Hs. cbn [rmatch].
  destruct (Str.isdigit c) eqn:Hc.
  - cbn [star]. rewrite Hc.
    match goal with |- context [star Str.isdigit s ?K] =>
      destruct (star Str.isdigit s K); [discriminate |] end.
    rewrite (no_dot c s (digit_not_dot c Hc)).
    apply star_never_fails. intros rest. apply Hk.
  - cbn [orb] in Hs. apply andb_true_iff in Hs as [Hdot Hd].
    apply Ascii.eqb_eq in Hdot as ->.
    destruct s as [| d s]; [discriminate |].
    cbn [star]. rewrite Hc. cbn [strip_prefix Ascii.eqb Bool.eqb]. rewrite Hd.
    match goal with |- context [star Str.isdigit s ?K] =>
      pose proof (star_never_fails Str.isdigit s K) as Hn end.
    destruct (star Str.isdigit s _); [discriminate |].
    exfalso. apply Hn; [| reflexivity]. intros rest. apply Hk.
Qed.

Lemma number_never_fails (s : string) (caps : captures)
    (k : string -> captures -> option captures) :
  (forall rest caps', k rest caps' <> None) ->
  has_number s = true ->
  rmatch number_pattern s caps k <> None.
Proof.
  intros Hk Hn. unfold number_pattern.
  set (r := Cat (Star Str.isdigit) (Cat (Opt (Lit ".")) (Plus Str.isdigit))).
  change (match match strip_prefix "-" s with
                | Some rest => rmatch r rest caps k
                | None => None
                end with
          | Some c => Some c
          | None => rmatch r s caps k
          end <> None).
  destruct s as [| c t]; [discriminate |].
  destruct (Ascii.eqb_spec c "-") as [-> | Hc].
  - cbn [strip_prefix Ascii.eqb Bool.eqb]. cbn [has_number] in Hn.
    pose proof (unsigned_never_fails t caps k Hk Hn) as Hu. fold r in Hu.
    destruct (rmatch r t caps k); [discriminate | contradiction].
  - apply Ascii.eqb_neq in Hc. rewrite (no_minus c t Hc).
    rewrite (has_number_no_minus c t Hc) in Hn.
    apply (unsigned_never_fails _ caps k Hk Hn).
Qed.

Lemma starts_number_shape (ds1 dot ds2 rest : string) :
  all_chars Str.isdigit ds1 = true ->
  dot = "" \/ dot = "." ->
  ds2 <> "" -> all_chars Str.isdigit ds2 = true ->
  starts_number (ds1 ++ dot ++ ds2 ++ rest) = true.
Proof.
  intros H1 Hdot Hne H2.
  destruct ds2 as [| d ds2]; [congruence |].
  cbn in H2. apply andb_true_iff in H2 as [Hd _].
  destruct ds1 as [| c ds1].
  - destruct Hdot as [-> | ->]; cbn; rewrite Hd; [reflexivity | apply orb_true_r].
  - cbn in H1. apply andb_true_iff in H1 as [Hc _]. cbn. rewrite Hc. reflexivity.
Qed.

(** The pattern matches exactly the strings that start with a number. *)
Lemma match_iff_has_number (s : string) :
  is_Some (match_ size_pattern s) <-> has_number s = true.
Proof.
  split.
  - intros [caps Hm].
    apply size_pattern_groups in Hm as (g1 & rest & _ & Hshape & -> & _).
    destruct Hshape as (sign & ds1 & dot & ds2 & -> & Hsign & H1 & Hdot & Hne & H2).
    pose proof (starts_number_shape ds1 dot ds2 rest H1 Hdot Hne H2) as Hst.
    rewrite !string_app_assoc.
    destruct Hsign as [-> | ->].
    + cbn [String.append].
      destruct (ds1 ++ dot ++ ds2 ++ rest)%string as [| c t] eqn:E; [discriminate |].
      rewrite has_number_no_minus; [exact Hst |].
      cbn [starts_number] in Hst.
      destruct (Ascii.eqb_spec c "-") as [-> | _]; [discriminate | reflexivity].
    + cbn [String.append has_number]. exact Hst.
  - intros Hn. unfold match_, size_pattern.
    match goal with |- is_Some ?o => destruct o eqn:E; [eauto |] end.
    exfalso. revert E.
    change (rmatch number_pattern s ∅
              (fun rest caps' =>
                 rmatch (Cat (Star Str.isspace) (Opt (Group 2 unit_pattern))) rest
                   (<[1%nat := consumed s rest]> caps') final) <> None).
    apply number_never_fails; [| exact Hn].
    intros rest caps'. apply tail_never_fails.
Qed.


(** *** Numerals followed by a unit *)

Lemma star_stops {A} (p : ascii -> bool) (rest : string) (k : string -> option A) :
  stops p rest -> star p rest k = k rest.
Proof. destruct rest as [| x rest]; cbn; [reflexivity | intros ->; reflexivity]. Qed.

Lemma string_snoc (s : string) :
  s <> "" -> exists s' c, s = (s' ++ String c "")%string.
Proof.
  induction s as [| x s IH]; [congruence |]. intros _.
  destruct s as [| y s].
  - exists "", x. reflexivity.
  - destruct IH as (s' & c & E); [discriminate |].
    exists (String x s'), c. cbn. rewrite E. reflexivity.
Qed.

Lemma unsigned_match (ds : string) (frac : option string) (rest : string)
    (caps : captures) (k : string -> captures -> option captures) (c : captures) :
  numeral_ok ds frac -> follows_numeral frac rest ->
  k rest caps = Some c ->
  rmatch (Cat (Star Str.isdigit) (Cat (Opt (Lit ".")) (Plus Str.isdigit)))
    (ds ++ fraction_text frac ++ rest) caps k = Some c.
Proof.
  intros [Hds Hfrac] [Hrest Hdot] Hk.
  set (K1 := fun rest0 =>
               rmatch (Cat (Opt (Lit ".")) (Plus Str.isdigit)) rest0 caps k).
  change (star Str.isdigit (ds ++ fraction_text frac ++ rest) K1 = Some c).
  destruct frac as [fs |]; cbn [fraction_text].
  - destruct Hfrac as [Hne Hfs]. destruct fs as [| f fs]; [congruence |].
    cbn in Hfs. apply andb_true_iff in Hfs as [Hf Hfs].
    apply star_deepest; [exact Hds | reflexivity |].
    unfold K1. cbn [rmatch String.append strip_prefix Ascii.eqb Bool.eqb].
    rewrite Hf. rewrite (star_deepest Str.isdigit fs rest _ c Hfs Hrest Hk).
    reflexivity.
  - destruct (string_snoc ds Hfrac) as (ds' & l & ->).
    rewrite all_chars_app in Hds. apply andb_true_iff in Hds as [Hds' Hl].
    cbn in Hl. rewrite andb_true_r in Hl.
    rewrite string_app_assoc. cbn [String.append].
    apply star_gives_back; [exact Hds' | exact Hl | exact Hrest | |].
    + unfold K1. cbn [rmatch].
      specialize (Hdot eq_refl).
      destruct rest as [| x rest]; [reflexivity |].
      unfold stops in Hrest, Hdot. cbn [strip_prefix]. rewrite Hdot, Hrest. reflexivity.
    + unfold K1. cbn [rmatch].
      rewrite (no_dot l rest (digit_not_dot l Hl)), Hl.
      rewrite star_stops by exact Hrest. exact Hk.
Qed.

Lemma number_match (negative : bool) (ds : string) (frac : option string)
    (rest : string) (caps : captures)
    (k : string -> captures -> option captures) (c : captures) :
  numeral_ok ds frac -> follows_numeral frac rest ->
  k rest caps = Some c ->
  rmatch number_pattern (numeral negative ds frac ++ rest) caps k = Some c.
Proof.
  intros Hok Hrest Hk. unfold number_pattern.
  set (r := Cat (Star Str.isdigit) (Cat (Opt (Lit ".")) (Plus Str.isdigit))).
  set (s := (numeral negative ds frac ++ rest)%string).
  change (match match strip_prefix "-" s with
                | Some rest0 => rmatch r rest0 caps k
                | None => None
                end with
          | Some c0 => Some c0
          | None => rmatch r s caps k
          end = Some c).
  pose proof (unsigned_match ds frac rest caps k c Hok Hrest Hk) as Hu. fold r in Hu.
  subst s. unfold numeral.
  rewrite !string_app_assoc.
  destruct negative; cbn [String.append].
  - cbn [strip_prefix Ascii.eqb Bool.eqb]. rewrite Hu. reflexivity.
  - destruct (ds ++ fraction_text frac ++ rest)%string as [| x t] eqn:E.
    + exfalso. destruct Hok as [_ Hfrac].
      destruct ds; [| discriminate]. destruct frac; [discriminate | congruence].
    + assert (Hx : Ascii.eqb x "-" = false).
      { destruct Hok as [Hds Hfrac]. apply digit_not_sign.
        destruct ds as [| d ds]; cbn in E.
        - destruct frac; [right; cbn in E; congruence | congruence].
        - left. cbn in Hds. apply andb_true_iff in Hds as [Hd _]. congruence. }
      rewrite (no_minus x t Hx). exact Hu.
Qed.

Lemma unit_match (u tail : string) (caps : captures) :
  known_unit u ->
  rmatch (Group 2 unit_pattern) (u ++ tail) caps final = Some (<[2%nat := u]> caps).
Proof.
  intros Hu.
  change (rmatch unit_pattern (u ++ tail) caps
            (fun rest caps' => final rest (<[2%nat := consumed (u ++ tail) rest]> caps'))
          = Some (<[2%nat := u]> caps)).
  unfold unit_pattern. cbn [rmatch].
  destruct Hu as [-> | [-> | [-> | [-> | ->]]]];
    repeat match goal with
           | |- context [strip_prefix ?l (?v ++ tail)] =>
               first [ rewrite (proj2 (strip_prefix_app l (v ++ tail) tail) eq_refl)
                     | change (strip_prefix l (v ++ tail)) with (@None string) ];
               cbn beta iota
           end;
    rewrite consumed_app; reflexivity.
Qed.

Lemma tail_match (ws u tail : string) (caps : captures) :
  all_chars Str.isspace ws = true -> known_unit u ->
  rmatch (Cat (Star Str.isspace) (Opt (Group 2 unit_pattern)))
    (ws ++ u ++ tail) caps final = Some (<[2%nat := u]> caps).
Proof.
  intros Hws Hu.
  change (star Str.isspace (ws ++ u ++ tail)
            (fun rest =>
               match rmatch (Group 2 unit_pattern) rest caps final with
               | Some c => Some c
               | None => final rest caps
               end)
          = Some (<[2%nat := u]> caps)).
  apply star_deepest; [exact Hws | |].
  - destruct Hu as [-> | [-> | [-> | [-> | ->]]]]; reflexivity.
  - rewrite (unit_match u tail caps Hu). reflexivity.
Qed.

Lemma space_or_unit_follows (frac : option string) (ws u tail : string) :
  all_chars Str.isspace ws = true -> known_unit u ->
  follows_numeral frac (ws ++ u ++ tail).
Proof.
  intros Hws Hu. destruct ws as [| w ws].
  - destruct Hu as [-> | [-> | [-> | [-> | ->]]]]; split; intros; reflexivity.
  - cbn in Hws. apply andb_true_iff in Hws as [Hw _]. cbn.
    revert Hw. destruct w as [[] [] [] [] [] [] [] []]; cbn; intros Hw;
      try discriminate; split; intros; reflexivity.
Qed.

(** The groups captured on a numeral followed by white space and a unit. *)
Lemma size_pattern_on_numeral (negative : bool) (ds : string) (frac : option string)
    (ws u tail : string) :
  numeral_ok ds frac -> all_chars Str.isspace ws = true -> known_unit u ->
  match_ size_pattern (numeral negative ds frac ++ ws ++ u ++ tail)
  = Some (<[2%nat := u]> (<[1%nat := numeral negative ds frac]> ∅)).
Proof.
  intros Hok Hws Hu. unfold match_, size_pattern.
  set (num := numeral negative ds frac).
  change (rmatch number_pattern (num ++ ws ++ u ++ tail) ∅
            (fun rest caps' =>
               rmatch (Cat (Star Str.isspace) (Opt (Group 2 unit_pattern))) rest
                 (<[1%nat := consumed (num ++ ws ++ u ++ tail) rest]> caps') final)
          = Some (<[2%nat := u]> (<[1%nat := num]> ∅))).
  apply number_match; [exact Hok | apply space_or_unit_follows; assumption |].
  rewrite consumed_app. apply tail_match; assumption.
Qed.

Lemma numeral_shape (negative : bool) (ds : string) (frac : option string) :
  numeral_ok ds frac -> number_shape (numeral negative ds frac).
Proof.
  intros [Hds Hfrac]. unfold numeral, number_shape.
  destruct frac as [fs |].
  - destruct Hfrac as [Hne Hfs].
    exists (if negative then "-" else ""), ds, ".", fs.
    repeat split; auto. destruct negative; auto.
  - destruct (string_snoc ds Hfrac) as (ds' & l & ->).
    rewrite all_chars_app in Hds. apply andb_true_iff in Hds as [Hds' Hl].
    exists (if negative then "-" else ""), ds', "", (String l "").
    split; [rewrite string_app_nil_r; reflexivity |].
    split; [destruct negative; auto |].
    split; [exact Hds' |].
    split; [auto |].
    split; [discriminate | exact Hl].
Qed.

Lemma unit_conversions_points (u : string) (r : Q) :
  points_per u = Some r -> unit_conversions !! u = Some (fl r) /\ known_unit u.
Proof.
  unfold points_per, known_unit.
  repeat match goal with
         | |- context [String.eqb u ?l] =>
             destruct (String.eqb_spec u l) as [-> | ?]
         end; intros [= <-];
    (split; [vm_compute; f_equal; apply Qc_is_canon; reflexivity | tauto]).
Qed.


(** C7: on every string the two normalizers return a float and never
    raise; a string that does not start with a number falls back to the
    default (12.0 for the font size, 0.0 for the letter spacing); and a
    numeral followed by optional white space and one of the units pt, px,
    em, rem, % is converted by the fixed ratio of that unit (1, 0.75, 12,
    12, 0.12), whatever follows the unit. *)
Theorem normalizers_total_with_fixed_ratios (s : string) :
  (exists q, normalize_font_size (VStr s) = Ok (VFloat q))
  /\ (exists q, normalize_letter_spacing (VStr s) = Ok (VFloat q))
  /\ (has_number s = false ->
      normalize_font_size (VStr s) = Ok (VFloat (fl 12.0))
      /\ normalize_letter_spacing (VStr s) = Ok (VFloat (fl 0.0)))
  /\ (forall (negative : bool) (ds : string) (frac : option string)
             (ws u tail : string) (r : Q),
        s = (numeral negative ds frac ++ ws ++ u ++ tail)%string ->
        numeral_ok ds frac ->
        all_chars Str.isspace ws = true ->
        points_per u = Some r ->
        exists q,
          Float.of_string (numeral negative ds frac) = Ok q
          /\ normalize_font_size (VStr s) = Ok (VFloat (q * fl r))
          /\ normalize_letter_spacing (VStr s) = Ok (VFloat (q * fl r))).
Proof.
  split; [apply normalize_with_total |].
  split; [apply normalize_with_total |].
  split.
  - intros Hn.
    assert (Hm : match_ size_pattern s = None).
    { destruct (match_ size_pattern s) eqn:E; [| reflexivity].
      assert (has_number s = true) by (apply match_iff_has_number; eauto).
      congruence. }
    unfold normalize_font_size, normalize_letter_spacing, normalize_with.
    rewrite Hm. split; reflexivity.
  - intros negative ds frac ws u tail r -> Hok Hws Hr.
    apply unit_conversions_points in Hr as [Hr Hu].
    destruct (of_string_number_shape _ (numeral_shape negative ds frac Hok)) as [q Hq].
    exists q. split; [exact Hq |].
    unfold normalize_font_size, normalize_letter_spacing, normalize_with.
    rewrite (size_pattern_on_numeral negative ds frac ws u tail Hok Hws Hu).
    unfold group. rewrite lookup_insert_ne by discriminate.
    rewrite !lookup_insert_eq. cbn [Py.rbind]. rewrite Hq. cbn [Py.rbind].
    assert (Hne : String.eqb u "" = false).
    { destruct Hu as [-> | [-> | [-> | [-> | ->]]]]; reflexivity. }
    rewrite Hne, Hr. split; reflexivity.
Qed.

Lemma normalizers_total_with_fixed_ratios_witness :
  exists q,
    Float.of_string "16" = Ok q
    /\ normalize_font_size (VStr "16 px") = Ok (VFloat (q * fl 0.75))
    /\ normalize_letter_spacing (VStr "16 px") = Ok (VFloat (q * fl 0.75)).
Proof.
  destruct (normalizers_total_with_fixed_ratios "16 px") as (_ & _ & _ & H).
  apply (H false "16" None " " "px" "" 0.75%Q); try reflexivity.
  split; [reflexivity | discriminate].
Defined.

Example normalize_examples :
  returns_number (normalize_font_size (VStr "16px")) 12 = true
  /\ returns_number (normalize_font_size (VStr "1.5em")) 18 = true
  /\ returns_number (normalize_font_size (VStr "2rem")) 24 = true
  /\ returns_number (normalize_font_size (VStr "50%")) 6 = true
  /\ returns_number (normalize_font_size (VStr "-2 pt")) (-2) = true
  /\ returns_number (normalize_font_size (VStr ".5px")) 0.375 = true
  /\ returns_number (normalize_font_size (VStr "12")) 12 = true
  /\ returns_number (normalize_font_size (VStr "large")) 12 = true
  /\ returns_number (normalize_font_size (VStr "")) 12 = true
  /\ returns_number (normalize_letter_spacing (VStr "2px")) 1.5 = true
  /\ returns_number (normalize_letter_spacing (VStr "normal")) 0 = true
  /\ returns_number (normalize_font_size (VInt 14)) 14 = true.
Proof. vm_compute. repeat split. Qed.

End Normalizers.

(** ** Font-size reinsertion: the scale factor *)

Section FontSize.
Import font_size_handling.







(** A 10pt span with a box 24pt high, edited to 20pt: the box stays at
    24pt, and the size recorded as original is 20, not 10. *)
Example font_size_edit_loses_old_size :
  let out := reinsert_font_size sized_style boxed_span in
  out.1 = Ok tt
  /\ number_is (out.2 !! "size") 20 = true
  /\ number_is (out.2 !! "original_size") 20 = true
  /\ match out.2 !! "bbox" with
     | Some (VObj attrs) => number_is (attrs !! "height") 24
     | _ => false
     end = true.
Proof. vm_compute. repeat split. Qed.

(** A new size of zero makes the division raise, after the size has been
    overwritten. *)
Example font_size_zero_raises :
  let out := reinsert_font_size (<["font-size" := VInt 0]> ∅) boxed_span in
  out.1 = Raise ZeroDivisionError
  /\ number_is (out.2 !! "size") 0 = true
  /\ out.2 !! "original_size" = None.
Proof. vm_compute. repeat split. Qed.

End FontSize.

(** ** Alignment detection *)

Section Alignment.
Import text_alignment_handling.

Variable format : value -> string.

(** C5 (amended): without an explicit alignment key, lines with left
    edges [10,10,10] and right edges [100,150,120] are detected as "left";
    lines with left edges [10,40,25] and right edges [100,130,115] have
    midpoints 55, 85 and 70, which are 30 apart, and fall through to the
    default "left"; "center" is the answer when the midpoints agree, as
    for left edges [10,40,25] and right edges [100,70,85]. *)
Theorem alignment_detected_from_edges :
  extract_text_align format (block_of_edges [10; 10; 10] [100; 150; 120])%Z
    = Ok "text-align: left;"
  /\ extract_text_align format (block_of_edges [10; 40; 25] [100; 130; 115])%Z
    = Ok "text-align: left;"
  /\ extract_text_align format (block_of_edges [10; 40; 25] [100; 70; 85])%Z
    = Ok "text-align: center;".
Proof. repeat split; vm_compute; reflexivity. Qed.

(** The midpoints of the second example, and how far apart they are. *)
Example midpoints_of_second_example :
  match PySeq.mapM midpoint
          (combine [VInt 10; VInt 40; VInt 25] [VInt 100; VInt 130; VInt 115]) with
  | Ok [a; b; c] =>
      number_is (Some a) 55 && number_is (Some b) 85 && number_is (Some c) 70
      && match spread [a; b; c] with
         | Ok v => number_is (Some v) 30
         | Raise _ => false
         end
  | _ => false
  end = true.
Proof. vm_compute. reflexivity. Qed.

End Alignment.

(** C5 as stated fails: for left edges [10,40,25] and right edges
    [100,130,115] the answer is "left", not "center". *)
Lemma second_example_is_not_center :
  text_alignment_handling.extract_text_align (fun _ => "")
    (block_of_edges [10; 40; 25] [100; 130; 115])%Z
  = Ok "text-align: left;"
  /\ text_alignment_handling.extract_text_align (fun _ => "")
       (block_of_edges [10; 40; 25] [100; 130; 115])%Z
     <> Ok "text-align: center;".
Proof. split; [vm_compute; reflexivity | vm_compute; discriminate]. Qed.

(** ** Block construction from recognized words *)

Section ConvertToBlocks.
Import ocr_execution.

Variable Rect : Z -> Z -> Z -> Z -> value.
Variable rect_or : value -> value -> value.

Lemma at_column {A} (f : word -> A) (pre : list word) (w : word) (rest : list word) :
  at_ (map f (pre ++ w :: rest)) (length pre) = Ok (f w).
Proof.
  unfold at_. rewrite map_app. cbn [map].
  rewrite list_lookup_middle by (rewrite length_map; reflexivity). reflexivity.
Qed.

Lemma eq_int_int (n m : Z) : eq_int (VInt n) m = (n =? m)%Z.
Proof.
  unfold eq_int, Qc_eqb. cbn [as_num].
  destruct (Z.eqb_spec n m) as [-> | Hne].
  - apply Qeq_bool_iff. reflexivity.
  - apply not_true_iff_false. intros H. apply Qeq_bool_iff in H.
    unfold fl, Q2Qc in H. cbn [this] in H. rewrite !Qred_correct in H.
    unfold Qeq in H. cbn in H. lia.
Qed.

Lemma truthy_mk_block (n : Z) (b : value) (t : string) :
  truthy (VDict (mk_block n b t)) = true.
Proof.
  cbn [truthy]. rewrite bool_decide_eq_false_2; [reflexivity |].
  unfold mk_block. apply insert_non_empty.
Qed.

Lemma mk_block_update (n : Z) (b b' : value) (t t' : string) :
  <["bbox" := b']> (<["text" := VStr t']> (mk_block n b t)) = mk_block n b' t'.
Proof.
  unfold mk_block. apply map_eq. intros k.
  destruct (decide (k = "bbox")) as [-> | ?]; [map_lookups; reflexivity |].
  destruct (decide (k = "text")) as [-> | ?]; [map_lookups; reflexivity |].
  destruct (decide (k = "lines")) as [-> | ?]; [map_lookups; reflexivity |].
  destruct (decide (k = "number")) as [-> | ?]; [map_lookups; reflexivity |].
  rewrite !lookup_insert_ne by congruence. reflexivity.
Qed.

Lemma mk_block_fields (n : Z) (b : value) (t : string) :
  mk_block n b t !! "number" = Some (VInt n)
  /\ mk_block n b t !! "bbox" = Some b
  /\ mk_block n b t !! "text" = Some (VStr t)
  /\ mk_block n b t !! "lines" = Some (VList []).
Proof. unfold mk_block. repeat split; map_lookups; reflexivity. Qed.

(** One turn of the loop over the indices is one row absorbed. *)
Lemma step_columns (pre : list word) (w : word) (rest : list word) (st : builder) :
  step Rect rect_or (columns (pre ++ w :: rest)) (loop_state_of st) (length pre)
  = Ok (loop_state_of (absorb Rect rect_or st w)).
Proof.
  unfold step, word_rect, columns, absorb, kept.
  cbn [text conf block_num left top width height].
  rewrite !at_column. cbn [Py.rbind]. fold (stripped w).
  destruct (stripped w =? "")%string; [reflexivity |].
  destruct (Qc_ltb (w_conf w) (fl 30)); [reflexivity |].
  cbn [negb andb]. destruct st as [finished [[[n b] t] |]];
    cbn [loop_state_of current_block blocks fst snd starts_block Py.rbind].
  - destruct (mk_block_fields n b t) as (Hn & Hb & Ht & _).
    unfold lookup_item. rewrite Hn. cbn [Py.rbind].
    rewrite eq_int_int. destruct (n =? w_block w)%Z; cbn [negb].
    + rewrite Ht. cbn [add Py.rbind].
      rewrite lookup_insert_ne by discriminate. rewrite Hb. cbn [Py.rbind].
      rewrite mk_block_update. reflexivity.
    + rewrite truthy_mk_block. reflexivity.
  - reflexivity.
Qed.

Lemma loop_columns (rest pre : list word) (st : builder) :
  loop Rect rect_or (columns (pre ++ rest)) (seq (length pre) (length rest))
    (loop_state_of st)
  = Ok (loop_state_of (fold_left (absorb Rect rect_or) rest st)).
Proof.
  revert pre st. induction rest as [| w rest IH]; intros pre st; [reflexivity |].
  cbn [length seq loop fold_left]. rewrite step_columns. cbn [Py.rbind].
  specialize (IH (pre ++ [w])%list (absorb Rect rect_or st w)).
  rewrite <- app_assoc, length_app in IH. cbn [length app] in IH.
  rewrite Nat.add_1_r in IH. exact IH.
Qed.

Lemma convert_to_blocks_rows (ws : list word) :
  _convert_to_blocks Rect rect_or (columns ws)
  = Ok (flush (fold_left (absorb Rect rect_or) ws ([], None))).
Proof.
  unfold _convert_to_blocks.
  replace (length (text (columns ws))) with (length ws)
    by (cbn; rewrite length_map; reflexivity).
  pose proof (loop_columns ws [] ([], None)) as H. cbn [app length] in H.
  change {| blocks := []; current_block := None |} with (loop_state_of ([], None)).
  rewrite H. cbn [Py.rbind]. f_equal.
  destruct (fold_left (absorb Rect rect_or) ws ([], None)) as [finished [[[n b] t] |]];
    cbn [loop_state_of current_block blocks flush fst snd]; [| reflexivity].
  rewrite truthy_mk_block. reflexivity.
Qed.


(** *** The row fold builds the groups of the forwarded words *)

Abbreviation block_of_group' := (block_of_group Rect rect_or).
Abbreviation block_from' := (block_from Rect rect_or).
Abbreviation join_first' := (join_first Rect rect_or).
Abbreviation absorb' := (absorb Rect rect_or).

Lemma block_from_nil (n : Z) (b : value) (t : string) :
  block_from' n b t [] = mk_block n b t.
Proof. unfold block_from. cbn. rewrite string_app_nil_r. reflexivity. Qed.

Lemma block_from_cons (n : Z) (b : value) (t : string) (w : word) (g : list word) :
  block_from' n b t (w :: g)
  = block_from' n (rect_or b (word_box Rect w)) (t ++ " " ++ stripped w) g.
Proof.
  unfold block_from. cbn [fold_left joined].
  rewrite !string_app_assoc. reflexivity.
Qed.

Lemma concat_joined (w : word) (g : list word) :
  String.concat " " (map stripped (w :: g)) = (stripped w ++ joined g)%string.
Proof.
  revert w. induction g as [| w' g IH]; intros w.
  - cbn. rewrite string_app_nil_r. reflexivity.
  - cbn [map String.concat joined] in *. rewrite IH. reflexivity.
Qed.

Lemma block_of_group_from (w : word) (g : list word) :
  block_of_group' (w :: g)
  = block_from' (w_block w) (word_box Rect w) (stripped w) g.
Proof. unfold block_of_group, block_from. rewrite concat_joined. reflexivity. Qed.

Lemma join_first_start (w : word) (l : list word) :
  join_first' (w_block w) (word_box Rect w) (stripped w) (group l)
  = map block_of_group' (group (w :: l)).
Proof.
  cbn [group]. destruct (group l) as [| [| w' g] gs]; cbn [join_first map].
  - rewrite block_of_group_from, block_from_nil. reflexivity.
  - rewrite block_of_group_from, block_from_nil. reflexivity.
  - destruct (w_block w =? w_block w')%Z; cbn [map].
    + rewrite block_of_group_from. reflexivity.
    + rewrite (block_of_group_from w []), block_from_nil. reflexivity.
Qed.

Lemma join_first_extend (n : Z) (b : value) (t : string) (w : word) (l : list word) :
  n = w_block w ->
  join_first' n b t (group (w :: l))
  = join_first' n (rect_or b (word_box Rect w)) (t ++ " " ++ stripped w) (group l).
Proof.
  intros ->. cbn [group]. destruct (group l) as [| [| w' g] gs]; cbn [join_first].
  - rewrite Z.eqb_refl, block_from_cons, block_from_nil. reflexivity.
  - rewrite Z.eqb_refl, block_from_cons, block_from_nil. reflexivity.
  - destruct (w_block w =? w_block w')%Z eqn:E; cbn [join_first].
    + rewrite Z.eqb_refl, block_from_cons. reflexivity.
    + rewrite Z.eqb_refl, block_from_cons, block_from_nil. reflexivity.
Qed.

Lemma join_first_other (n : Z) (b : value) (t : string) (w : word) (l : list word) :
  (n =? w_block w)%Z = false ->
  join_first' n b t (group (w :: l))
  = mk_block n b t :: map block_of_group' (group (w :: l)).
Proof.
  intros Hn. cbn [group]. destruct (group l) as [| [| w' g] gs]; cbn [join_first].
  - rewrite Hn. reflexivity.
  - rewrite Hn. reflexivity.
  - destruct (w_block w =? w_block w')%Z; cbn [join_first]; rewrite Hn; reflexivity.
Qed.

Lemma flush_building (ws : list word) (finished : list dict)
    (n : Z) (b : value) (t : string) :
  flush (fold_left absorb' ws (finished, Some (n, b, t)))
  = (finished ++ join_first' n b t (group (List.filter kept ws)))%list.
Proof.
  revert finished n b t. induction ws as [| w ws IH]; intros finished n b t.
  - reflexivity.
  - cbn [fold_left List.filter]. unfold absorb at 2. cbn [fst snd].
    destruct (kept w) eqn:Hk; [| apply IH].
    destruct (n =? w_block w)%Z eqn:Hn.
    + rewrite IH. apply Z.eqb_eq in Hn.
      rewrite (join_first_extend n b t w _ Hn). reflexivity.
    + rewrite IH, join_first_start, (join_first_other n b t w _ Hn).
      rewrite <- app_assoc. reflexivity.
Qed.

Lemma flush_idle (ws : list word) (finished : list dict) :
  flush (fold_left absorb' ws (finished, None))
  = (finished ++ map block_of_group' (group (List.filter kept ws)))%list.
Proof.
  induction ws as [| w ws IH].
  - cbn. rewrite app_nil_r. reflexivity.
  - cbn [fold_left List.filter]. unfold absorb at 2. cbn [fst snd].
    destruct (kept w) eqn:Hk; [| apply IH].
    rewrite flush_building, join_first_start. reflexivity.
Qed.

Lemma group_concat (l : list word) : concat (group l) = l.
Proof.
  induction l as [| w l IH]; [reflexivity |].
  cbn [group]. destruct (group l) as [| [| w' g] gs]; cbn in *.
  - subst l. reflexivity.
  - rewrite <- IH. reflexivity.
  - destruct (w_block w =? w_block w')%Z; cbn; rewrite <- IH; reflexivity.
Qed.

Lemma kept_iff (w : word) :
  kept w = true <-> stripped w <> "" /\ (30 <= w_conf w)%Q.
Proof.
  unfold kept, Qc_ltb. rewrite andb_true_iff, !negb_true_iff, negb_false_iff.
  rewrite Qle_bool_iff.
  change (this (fl 30)) with 30%Q.
  destruct (String.eqb_spec (stripped w) ""); split; intros [? ?]; split;
    congruence || assumption.
Qed.

Lemma block_text_of_group (g : list word) :
  block_text (block_of_group' g) = String.concat " " (map stripped g).
Proof.
  destruct g as [| w g]; [reflexivity |].
  unfold block_text, block_of_group.
  destruct (mk_block_fields (w_block w)
              (fold_left (fun b w' => rect_or b (word_box Rect w')) g (word_box Rect w))
              (String.concat " " (map stripped (w :: g)))) as (_ & _ & -> & _).
  reflexivity.
Qed.

(** C3: block construction forwards exactly the words that are not empty
    (once stripped) and have a confidence of at least 30, in their order:
    the blocks are the groups of consecutive forwarded words with the
    same block number, and the text of a block is the stripped texts of
    its group joined by single spaces. *)
Theorem convert_to_blocks_forwards_confident_words (ws : list word) :
  let groups := group (List.filter kept ws) in
  _convert_to_blocks Rect rect_or (columns ws) = Ok (map block_of_group' groups)
  /\ concat groups = List.filter kept ws
  /\ (forall w, In w (concat groups)
               <-> In w ws /\ stripped w <> "" /\ (30 <= w_conf w)%Q)
  /\ map block_text (map block_of_group' groups)
     = map (fun g => String.concat " " (map stripped g)) groups.
Proof.
  intros groups. subst groups. split; [| split; [| split]].
  - rewrite convert_to_blocks_rows, flush_idle. reflexivity.
  - apply group_concat.
  - intros w. rewrite group_concat, filter_In, kept_iff. reflexivity.
  - rewrite map_map. apply map_ext. intros g. apply block_text_of_group.
Qed.

End ConvertToBlocks.

(** Confidences 29, 30 and 100 in one engine block, then a word of the
    next block: the first block holds the words of confidence 30 and 100
    and nothing of the word of confidence 29. *)
Example confidence_29_30_100 :
  option_map (map (fun b => (b !! "number", block_text b, b !! "bbox")))
    (match ocr_execution._convert_to_blocks int_box box_union (columns sample_words) with
     | Ok blocks => Some blocks
     | Raise _ => None
     end)
  = Some [ (Some (VInt 1), "edge sure", Some (int_box 50 0 120 12));
           (Some (VInt 2), "next", Some (int_box 0 30 30 40)) ].
Proof. vm_compute. reflexivity. Qed.

(** ** The adaptive threshold *)

Section Otsu.
Import ocr_preprocessing.

(** *** Sums *)

Lemma sumf_shift (f : nat -> Z) (n : nat) :
  sumf f (S n) = (f O + sumf (fun i => f (S i)) n)%Z.
Proof.
  induction n as [| n IH]; [cbn; lia |].
  cbn [sumf] in *. rewrite IH. lia.
Qed.

Lemma sumf_ext (f g : nat -> Z) (n : nat) :
  (forall i, (i < n)%nat -> f i = g i) -> sumf f n = sumf g n.
Proof.
  induction n as [| n IH]; intros H; [reflexivity |].
  cbn [sumf]. rewrite IH, H by (intros; try apply H; lia). reflexivity.
Qed.

Lemma sum_list_from (l : list Z) (a : Z) :
  fold_left Z.add l a = (a + mass_below l (length l))%Z.
Proof.
  unfold mass_below. revert a. induction l as [| x l IH]; intros a.
  - cbn. lia.
  - cbn [fold_left length]. rewrite IH, sumf_shift.
    change (sumf (fun i => bin (x :: l) (S i)) (length l))
      with (sumf (bin l) (length l)).
    change (bin (x :: l) 0) with x. lia.
Qed.

Lemma sum_list_mass (hist : list Z) :
  sum_list hist = mass_below hist (length hist).
Proof. unfold sum_list. rewrite sum_list_from. lia. Qed.

Lemma hist_at_bin (hist : list Z) (t : nat) :
  (t < length hist)%nat -> hist_at hist t = Ok (bin hist t).
Proof.
  intros Ht. unfold hist_at, bin.
  destruct (hist !! t) as [h |] eqn:E.
  - rewrite (nth_lookup_Some _ _ 0%Z _ E). reflexivity.
  - apply lookup_ge_None in E. lia.
Qed.

Lemma weighted_sum_moment (hist : list Z) (n lo : nat) (acc : Z) :
  (lo + n <= length hist)%nat ->
  weighted_sum hist (seq lo n) acc
  = Ok (acc + (moment_below hist (lo + n) - moment_below hist lo))%Z.
Proof.
  revert lo acc. induction n as [| n IH]; intros lo acc Hlen.
  - cbn. rewrite Nat.add_0_r. f_equal. lia.
  - cbn [seq weighted_sum]. rewrite hist_at_bin by lia. cbn [Py.rbind].
    rewrite IH by lia. f_equal.
    replace (lo + S n)%nat with (S lo + n)%nat by lia.
    unfold moment_below. cbn [sumf]. lia.
Qed.

Lemma bin_nonneg (hist : list Z) (i : nat) :
  Forall (fun h => 0 <= h)%Z hist -> (0 <= bin hist i)%Z.
Proof.
  intros H. unfold bin. destruct (nth_in_or_default i hist 0%Z) as [Hin | ->]; [| lia].
  rewrite List.Forall_forall in H. apply H, Hin.
Qed.

Lemma mass_below_mono (hist : list Z) (j k : nat) :
  Forall (fun h => 0 <= h)%Z hist -> (j <= k)%nat ->
  (mass_below hist j <= mass_below hist k)%Z.
Proof.
  intros Hnn Hjk. induction Hjk as [| k Hjk IH]; [lia |].
  unfold mass_below in *. cbn [sumf]. pose proof (bin_nonneg hist k Hnn). lia.
Qed.

Lemma mass_below_nonneg (hist : list Z) (k : nat) :
  Forall (fun h => 0 <= h)%Z hist -> (0 <= mass_below hist k)%Z.
Proof. intros H. apply (mass_below_mono hist 0 k H). lia. Qed.

(** While the weight is zero every bin so far is empty, so the moment is
    zero as well. *)
Lemma moment_zero_of_mass_zero (hist : list Z) (k : nat) :
  Forall (fun h => 0 <= h)%Z hist ->
  mass_below hist k = 0%Z -> moment_below hist k = 0%Z.
Proof.
  intros Hnn. induction k as [| k IH]; intros H0; [reflexivity |].
  unfold mass_below, moment_below in *. cbn [sumf] in *.
  pose proof (bin_nonneg hist k Hnn).
  pose proof (mass_below_nonneg hist k Hnn) as Hk. unfold mass_below in Hk.
  assert (bin hist k = 0%Z) as -> by lia.
  rewrite IH by lia. lia.
Qed.

(** *** Order on the rationals *)

Lemma Qc_ltb_true (a b : Qc) : Qc_ltb a b = true -> (a < b)%Qc.
Proof.
  unfold Qc_ltb. rewrite negb_true_iff. intros H.
  apply Qcnot_le_lt. intros Hle. apply Qle_bool_iff in Hle. congruence.
Qed.

Lemma Qc_ltb_false (a b : Qc) : Qc_ltb a b = false -> (b <= a)%Qc.
Proof.
  unfold Qc_ltb. rewrite negb_false_iff. intros H. apply Qle_bool_iff in H. exact H.
Qed.

Lemma Qc_lt_ltb (a b : Qc) : (a < b)%Qc -> Qc_ltb a b = true.
Proof.
  intros H. destruct (Qc_ltb a b) eqn:E; [reflexivity |].
  apply Qc_ltb_false in E. exfalso. exact (Qclt_not_le _ _ H E).
Qed.

Lemma qz_nonneg (n : Z) : (0 <= n)%Z -> (0 <= qz n)%Qc.
Proof.
  intros Hn. unfold Qcle, qz, fl, Q2Qc. cbn [this].
  rewrite Qred_le. unfold Qle. cbn. lia.
Qed.

Lemma Qc_mul_nonneg (a b : Qc) : (0 <= a)%Qc -> (0 <= b)%Qc -> (0 <= a * b)%Qc.
Proof.
  intros Ha Hb. pose proof (Qcmult_le_compat_r 0 a b Ha Hb) as H.
  rewrite Qcmult_0_l in H. exact H.
Qed.

Lemma Qc_square_nonneg (d : Qc) : (0 <= d * d)%Qc.
Proof.
  destruct (Qclt_le_dec d 0) as [Hneg | Hpos].
  - replace (d * d)%Qc with ((- d) * (- d))%Qc by ring.
    assert (0 <= - d)%Qc.
    { apply Qclt_le_weak in Hneg. apply Qcle_minus_iff in Hneg.
      rewrite Qcplus_0_l in Hneg. exact Hneg. }
    apply Qc_mul_nonneg; assumption.
  - apply Qc_mul_nonneg; assumption.
Qed.

(** *** The comparison of a lawful arithmetic *)

Section Order.

Variable A : arithmetic.
Hypothesis A_lawful : lawful A.

Lemma gt_asymmetric (x y : float A) : fgt A x y = true -> fgt A y x = false.
Proof.
  intros Hxy. destruct (fgt A y x) eqn:Hyx; [| reflexivity].
  pose proof (gt_transitive A A_lawful x y x Hxy Hyx) as H.
  rewrite (gt_irreflexive A A_lawful) in H. discriminate.
Qed.

Lemma not_gt_of_gt (x y z : float A) :
  fgt A x y = false -> fgt A z y = true -> fgt A x z = false.
Proof.
  intros Hxy Hzy. destruct (fgt A x z) eqn:Hxz; [| reflexivity].
  pose proof (gt_transitive A A_lawful x z y Hxz Hzy). congruence.
Qed.

Lemma gt_of_not_gt (x y z : float A) :
  fgt A x y = true -> fgt A z y = false -> fgt A x z = true.
Proof.
  intros Hxy Hzy. destruct (gt_between A A_lawful x z y Hxy) as [H | H];
    [exact H | congruence].
Qed.

(** Being not above is transitive. *)
Lemma not_gt_transitive (x y z : float A) :
  fgt A x y = false -> fgt A y z = false -> fgt A x z = false.
Proof.
  intros Hxy Hyz. destruct (fgt A x z) eqn:Hxz; [| reflexivity].
  destruct (gt_between A A_lawful x y z Hxz) as [H | H]; congruence.
Qed.

Lemma variance_not_below (hist : list Z) (t : nat) :
  Forall (fun h => 0 <= h)%Z hist -> (t < 256)%nat ->
  fgt A (fzero A) (between_class_variance A hist t) = false.
Proof.
  intros Hnn Ht. unfold between_class_variance.
  destruct (mass_below hist (S t) =? 0)%Z; [apply (gt_irreflexive A A_lawful) |].
  destruct (mass_below hist 256 - mass_below hist (S t) =? 0)%Z;
    [apply (gt_irreflexive A A_lawful) |].
  apply (variance_not_below_zero A A_lawful).
  apply Z.mul_nonneg_nonneg; [apply mass_below_nonneg, Hnn |].
  pose proof (mass_below_mono hist (S t) 256 Hnn). lia.
Qed.

End Order.

(** *** The loop *)

Section Loop.

Variable A : arithmetic.
Hypothesis A_lawful : lawful A.
Variable hist : list Z.
Hypothesis hist_length : length hist = 256%nat.
Hypothesis hist_nonneg : Forall (fun h => 0 <= h)%Z hist.

Abbreviation sigma := (between_class_variance A hist).

(** Once the foreground is empty it stays empty: the remaining splits
    have variance zero. *)
Lemma variance_zero_after (k t : nat) :
  mass_below hist (S k) = mass_below hist 256 ->
  (k <= t < 256)%nat -> sigma t = fzero A.
Proof.
  intros Hk Ht. unfold between_class_variance.
  pose proof (mass_below_mono hist (S k) (S t) hist_nonneg).
  pose proof (mass_below_mono hist (S t) 256 hist_nonneg).
  destruct (mass_below hist (S t) =? 0)%Z; [reflexivity |].
  replace (mass_below hist 256 - mass_below hist (S t))%Z with 0%Z by lia.
  reflexivity.
Qed.

Lemma invariant_gives_maximum (k : nat) (st : otsu_state A) :
  otsu_invariant A hist k st ->
  (forall t, (k <= t < 256)%nat -> sigma t = fzero A) ->
  (k <= 256)%nat ->
  exists th, threshold st = Z.of_nat th /\ first_maximum A hist th.
Proof.
  intros (_ & _ & th & Hth & Hcases) Hrest Hk. exists th. split; [exact Hth |].
  assert (Hall : forall t P, (t < 256)%nat ->
                   ((t < k)%nat -> P) -> ((k <= t < 256)%nat -> P) -> P).
  { intros t P Ht H1 H2. destruct (Nat.lt_ge_cases t k); [apply H1 | apply H2]; lia. }
  destruct Hcases as [(Hmax & -> & Hzero) | (Hpos & Hlt & Hmax & Hle & Hless)].
  - assert (H0 : forall t, (t < 256)%nat -> fgt A (sigma t) (fzero A) = false).
    { intros t Ht. apply (Hall t _ Ht); [apply Hzero |].
      intros Hr. rewrite (Hrest t Hr). apply (gt_irreflexive A A_lawful). }
    split; [lia |]. split.
    + intros t Ht. apply (not_gt_transitive A A_lawful _ (fzero A)); [apply H0, Ht |].
      apply variance_not_below; [exact A_lawful | exact hist_nonneg | lia].
    + intros t Ht. lia.
  - split; [lia |]. rewrite <- Hmax. split.
    + intros t Ht. apply (Hall t _ Ht); [apply Hle |].
      intros Hr. rewrite (Hrest t Hr). apply (gt_asymmetric A A_lawful), Hpos.
    + exact Hless.
Qed.

Lemma otsu_loop_finds_maximum (n : nat) :
  forall (k : nat) (st : otsu_state A),
    (k + n = 256)%nat ->
    otsu_invariant A hist k st ->
    exists st' th,
      otsu_loop A hist (mass_below hist 256) (seq k n) st = Ok st'
      /\ threshold st' = Z.of_nat th /\ first_maximum A hist th.
Proof.
  induction n as [| n IH]; intros k st Hk Hinv.
  - assert (Hrest : forall t, (k <= t < 256)%nat -> sigma t = fzero A)
      by (intros t Ht; lia).
    assert (Hle : (k <= 256)%nat) by lia.
    destruct (invariant_gives_maximum k st Hinv Hrest Hle) as (th & Hth & Hmax).
    exists st, th. auto.
  - pose proof Hinv as (Hw & Hs & th & Hth & Hcases).
    cbn [seq otsu_loop]. rewrite hist_at_bin by lia. cbn [Py.rbind].
    assert (HW : (weight_bg st + bin hist k)%Z = mass_below hist (S k)).
    { rewrite Hw. reflexivity. }
    rewrite HW.
    destruct (mass_below hist (S k) =? 0)%Z eqn:E0.
    { (* continue *)
      apply Z.eqb_eq in E0.
      apply IH; [lia |].
      pose proof (mass_below_mono hist k (S k) hist_nonneg) as Hm.
      pose proof (mass_below_nonneg hist k hist_nonneg) as Hkn.
      assert (Hsk : sigma k = fzero A).
      { unfold between_class_variance. rewrite E0. reflexivity. }
      split; [reflexivity |]. split.
      - cbn [sum_bg]. rewrite Hs.
        rewrite (moment_zero_of_mass_zero hist (S k)) by assumption.
        apply moment_zero_of_mass_zero; [assumption | lia].
      - exists th. split; [exact Hth |]. cbn [max_variance].
        destruct Hcases as [(Hmax & -> & Hzero) | (Hpos & Hlt & Hmax & Hle & Hless)].
        + left. split; [exact Hmax |]. split; [reflexivity |]. intros t Ht.
          destruct (Nat.eq_dec t k) as [-> | ?]; [| apply Hzero; lia].
          rewrite Hsk. apply (gt_irreflexive A A_lawful).
        + right. split; [exact Hpos |]. split; [lia |]. split; [exact Hmax |].
          split; [| exact Hless]. intros t Ht.
          destruct (Nat.eq_dec t k) as [-> | ?]; [| apply Hle; lia].
          rewrite Hsk. apply (gt_asymmetric A A_lawful), Hpos. }
    destruct (mass_below hist 256 - mass_below hist (S k) =? 0)%Z eqn:E1.
    { (* break *)
      apply Z.eqb_eq in E1.
      assert (Hrest : forall t, (k <= t < 256)%nat -> sigma t = fzero A)
        by (intros t Ht; apply (variance_zero_after k t); lia).
      assert (Hle : (k <= 256)%nat) by lia.
      destruct (invariant_gives_maximum k st Hinv Hrest Hle) as (th' & Hth' & Hmax).
      eexists _, th'. split; [reflexivity |]. cbn [threshold]. auto. }
    assert (HM : (sum_bg st + Z.of_nat k * bin hist k)%Z = moment_below hist (S k)).
    { rewrite Hs. reflexivity. }
    rewrite HM.
    rewrite weighted_sum_moment by lia. cbn [Py.rbind].
    replace (k + 1 + (256 - (k + 1)))%nat with 256%nat by lia.
    replace (k + 1)%nat with (S k) by lia.
    rewrite Z.add_0_l.
    assert (Hsk : sigma k =
      fscale A (mass_below hist (S k) * (mass_below hist 256 - mass_below hist (S k)))
        (fsquare A
           (fsub A (fdiv A (moment_below hist (S k)) (mass_below hist (S k)))
              (fdiv A (moment_below hist 256 - moment_below hist (S k))
                 (mass_below hist 256 - mass_below hist (S k)))))).
    { unfold between_class_variance. rewrite E0, E1. reflexivity. }
    rewrite <- Hsk.
    destruct (fgt A (sigma k) (max_variance st)) eqn:Egt.
    + (* a new maximum *)
      apply IH; [lia |].
      split; [reflexivity |]. split; [reflexivity |].
      exists k. split; [reflexivity |]. cbn [max_variance]. right.
      assert (Hprev : forall t, (t < k)%nat -> fgt A (sigma t) (max_variance st) = false).
      { destruct Hcases as [(Hmax & _ & Hzero) | (_ & _ & _ & Hle & _)];
          [| exact Hle].
        intros t Ht. rewrite Hmax. apply Hzero, Ht. }
      split.
      { destruct Hcases as [(Hmax & _) | (Hp & _)];
          [rewrite <- Hmax; exact Egt
          | exact (gt_transitive A A_lawful _ _ _ Egt Hp)]. }
      split; [lia |]. split; [reflexivity |]. split.
      * intros t Ht. destruct (Nat.eq_dec t k) as [-> | ?];
          [apply (gt_irreflexive A A_lawful) |].
        apply (not_gt_of_gt A A_lawful _ (max_variance st));
          [apply Hprev; lia | exact Egt].
      * intros t Ht. apply (gt_of_not_gt A A_lawful _ (max_variance st));
          [exact Egt | apply Hprev; lia].
    + (* no improvement *)
      apply IH; [lia |].
      split; [reflexivity |]. split; [reflexivity |].
      exists th. split; [exact Hth |]. cbn [max_variance].
      destruct Hcases as [(Hmax & -> & Hzero) | (Hpos & Hlt & Hmax & Hle & Hless)].
      * left. split; [exact Hmax |]. split; [reflexivity |]. intros t Ht.
        destruct (Nat.eq_dec t k) as [-> | ?]; [| apply Hzero; lia].
        rewrite <- Hmax. exact Egt.
      * right. split; [exact Hpos |]. split; [lia |]. split; [exact Hmax |].
        split; [| exact Hless]. intros t Ht.
        destruct (Nat.eq_dec t k) as [-> | ?]; [exact Egt | apply Hle; lia].
Qed.

Lemma adaptive_threshold_first_maximum :
  exists th, get_adaptive_threshold A hist = Ok (Z.of_nat th)
             /\ first_maximum A hist th.
Proof.
  unfold get_adaptive_threshold. rewrite sum_list_mass, hist_length.
  destruct (otsu_loop_finds_maximum 256 0
              {| weight_bg := 0; sum_bg := 0; max_variance := fzero A; threshold := 0 |})
    as (st' & th & Hloop & Hth & Hmax).
  - reflexivity.
  - split; [reflexivity |]. split; [reflexivity |].
    exists O. split; [reflexivity |]. left.
    split; [reflexivity |]. split; [reflexivity |]. intros t Ht. lia.
  - rewrite Hloop. cbn [Py.rbind]. exists th. rewrite Hth. auto.
Qed.

End Loop.

(** *** Histograms with two peaks *)

Lemma qz_mul (a b : Z) : qz (a * b) = (qz a * qz b)%Qc.
Proof.
  apply Qc_is_canon. unfold qz, fl. cbn [this Qcmult Q2Qc].
  rewrite !Qred_correct, inject_Z_mult. reflexivity.
Qed.

Lemma qz_inj (a b : Z) : qz a = qz b -> a = b.
Proof.
  intros H. apply (f_equal this) in H. unfold qz, fl in H. cbn [this Q2Qc] in H.
  apply inject_Z_injective. rewrite <- (Qred_correct (inject_Z a)), H.
  apply Qred_correct.
Qed.

Lemma qz_pos (n : Z) : (0 < n)%Z -> (0 < qz n)%Qc.
Proof.
  intros Hn. unfold Qclt, qz, fl, Q2Qc. cbn [this].
  rewrite Qred_lt. unfold Qlt. cbn. lia.
Qed.

Lemma qz_nonzero (n : Z) : (0 < n)%Z -> qz n <> 0%Qc.
Proof.
  intros Hn H. change 0%Qc with (qz 0) in H. apply qz_inj in H. lia.
Qed.

Section TwoPeaks.

Variable A : arithmetic.
Hypothesis A_lawful : lawful A.
Variables p1 h1 p2 h2 : nat.
Hypothesis peaks_apart : (p1 < p2 < 256)%nat.
Hypothesis h1_pos : (0 < h1)%nat.
Hypothesis h2_pos : (0 < h2)%nat.

Abbreviation peaks := (two_peaks p1 h1 p2 h2).
Abbreviation plateau := (peak_variance A p1 h1 p2 h2).

Lemma two_peaks_length : length peaks = 256%nat.
Proof. unfold two_peaks. rewrite length_map, length_seq. reflexivity. Qed.

Lemma two_peaks_nonneg : Forall (fun h => 0 <= h)%Z peaks.
Proof.
  unfold two_peaks. apply List.Forall_forall. intros h Hin.
  apply in_map_iff in Hin as (i & <- & _).
  destruct (i =? p1)%nat; [lia |]. destruct (i =? p2)%nat; lia.
Qed.

Lemma two_peaks_bin (i : nat) :
  (i < 256)%nat ->
  bin peaks i = if (i =? p1)%nat then Z.of_nat h1
                else if (i =? p2)%nat then Z.of_nat h2 else 0%Z.
Proof.
  intros Hi. unfold bin, two_peaks.
  set (f := fun i0 : nat => if (i0 =? p1)%nat then Z.of_nat h1
                            else if (i0 =? p2)%nat then Z.of_nat h2 else 0%Z).
  rewrite (nth_indep _ 0%Z (f O)) by (rewrite length_map, length_seq; exact Hi).
  rewrite map_nth, seq_nth by exact Hi. reflexivity.
Qed.

Lemma two_peaks_mass (k : nat) :
  (k <= 256)%nat ->
  mass_below peaks k
  = ((if (p1 <? k)%nat then Z.of_nat h1 else 0)
     + (if (p2 <? k)%nat then Z.of_nat h2 else 0))%Z.
Proof.
  unfold mass_below. induction k as [| k IH]; intros Hk; [reflexivity |].
  cbn [sumf]. rewrite IH, two_peaks_bin by lia.
  destruct (Nat.eqb_spec k p1), (Nat.eqb_spec k p2),
    (Nat.ltb_spec p1 k), (Nat.ltb_spec p2 k),
    (Nat.ltb_spec p1 (S k)), (Nat.ltb_spec p2 (S k)); lia.
Qed.

Lemma two_peaks_moment (k : nat) :
  (k <= 256)%nat ->
  moment_below peaks k
  = ((if (p1 <? k)%nat then Z.of_nat p1 * Z.of_nat h1 else 0)
     + (if (p2 <? k)%nat then Z.of_nat p2 * Z.of_nat h2 else 0))%Z.
Proof.
  unfold moment_below. induction k as [| k IH]; intros Hk; [reflexivity |].
  cbn [sumf]. rewrite IH, two_peaks_bin by lia.
  destruct (Nat.eqb_spec k p1), (Nat.eqb_spec k p2),
    (Nat.ltb_spec p1 k), (Nat.ltb_spec p2 k),
    (Nat.ltb_spec p1 (S k)), (Nat.ltb_spec p2 (S k)); subst; lia.
Qed.

(** Every split between the peaks has the same computed variance: the
    same operations on the same numbers. *)
Lemma two_peaks_variance (t : nat) :
  (t < 256)%nat ->
  between_class_variance A peaks t
  = if (p1 <=? t)%nat && (t <? p2)%nat then plateau else fzero A.
Proof.
  intros Ht. unfold between_class_variance.
  rewrite !two_peaks_mass, !two_peaks_moment by lia.
  replace (p1 <? 256)%nat with true by (symmetry; apply Nat.ltb_lt; lia).
  replace (p2 <? 256)%nat with true by (symmetry; apply Nat.ltb_lt; lia).
  destruct (Nat.leb_spec p1 t) as [H1 | H1]; cbn [andb].
  - replace (p1 <? S t)%nat with true by (symmetry; apply Nat.ltb_lt; lia).
    destruct (Nat.ltb_spec t p2) as [H2 | H2].
    + replace (p2 <? S t)%nat with false by (symmetry; apply Nat.ltb_ge; lia).
      rewrite !Z.add_0_r.
      replace (Z.of_nat h1 + Z.of_nat h2 - Z.of_nat h1)%Z with (Z.of_nat h2) by lia.
      replace (Z.of_nat p1 * Z.of_nat h1 + Z.of_nat p2 * Z.of_nat h2
               - Z.of_nat p1 * Z.of_nat h1)%Z
        with (Z.of_nat p2 * Z.of_nat h2)%Z by lia.
      replace (Z.of_nat h1 =? 0)%Z with false by (symmetry; apply Z.eqb_neq; lia).
      replace (Z.of_nat h2 =? 0)%Z with false by (symmetry; apply Z.eqb_neq; lia).
      reflexivity.
    + replace (p2 <? S t)%nat with true by (symmetry; apply Nat.ltb_lt; lia).
      replace (Z.of_nat h1 + Z.of_nat h2 - (Z.of_nat h1 + Z.of_nat h2))%Z
        with 0%Z by lia.
      destruct (Z.of_nat h1 + Z.of_nat h2 =? 0)%Z; reflexivity.
  - replace (p1 <? S t)%nat with false by (symmetry; apply Nat.ltb_ge; lia).
    replace (p2 <? S t)%nat with false by (symmetry; apply Nat.ltb_ge; lia).
    reflexivity.
Qed.

(** The threshold of a histogram with two peaks is the lower peak, when
    the variance computed between the peaks is above zero. *)
Lemma two_peaks_threshold :
  fgt A plateau (fzero A) = true ->
  get_adaptive_threshold A peaks = Ok (Z.of_nat p1).
Proof.
  intros Hpos.
  destruct (adaptive_threshold_first_maximum A A_lawful peaks
              two_peaks_length two_peaks_nonneg)
    as (th & Hget & Hth & Hmax & Hfirst).
  rewrite Hget. do 2 f_equal.
  assert (Hp1 : between_class_variance A peaks p1 = plateau).
  { rewrite two_peaks_variance by lia.
    replace (p1 <=? p1)%nat with true by (symmetry; apply Nat.leb_le; lia).
    replace (p1 <? p2)%nat with true by (symmetry; apply Nat.ltb_lt; lia).
    reflexivity. }
  destruct (Nat.lt_trichotomy th p1) as [Hlt | [Heq | Hgt]]; [| exact Heq |].
  - exfalso. pose proof (Hmax p1 ltac:(lia)) as H.
    rewrite Hp1, two_peaks_variance in H by lia.
    replace (p1 <=? th)%nat with false in H by (symmetry; apply Nat.leb_gt; lia).
    cbn [andb] in H. congruence.
  - exfalso. pose proof (Hfirst p1 Hgt) as H.
    rewrite Hp1, two_peaks_variance in H by lia.
    destruct ((p1 <=? th)%nat && (th <? p2)%nat).
    + rewrite (gt_irreflexive A A_lawful) in H. discriminate.
    + rewrite (gt_asymmetric A A_lawful _ _ Hpos) in H. discriminate.
Qed.

End TwoPeaks.

(** *** The two arithmetics *)

Lemma exact_lawful : lawful exact.
Proof.
  split; cbn [fgt fzero fscale fsquare exact float].
  - intros x. unfold Qc_ltb. rewrite negb_false_iff. apply Qle_bool_iff, Qle_refl.
  - intros x y z Hxy Hyz. apply Qc_ltb_true in Hxy, Hyz.
    apply Qc_lt_ltb. eapply Qclt_trans; eassumption.
  - intros x y z Hxz. apply Qc_ltb_true in Hxz.
    destruct (Qc_ltb y x) eqn:E; [left; reflexivity |]. right.
    apply Qc_ltb_false in E. apply Qc_lt_ltb. eapply Qclt_le_trans; eassumption.
  - intros n x Hn. destruct (Qc_ltb (qz n * (x * x)) 0) eqn:E; [| reflexivity].
    apply Qc_ltb_true in E. exfalso. apply (Qclt_not_le _ _ E).
    apply Qc_mul_nonneg; [apply qz_nonneg, Hn | apply Qc_square_nonneg].
Qed.

Lemma nearest_nonneg (n d : Z) : (0 <= n)%Z -> (0 < d)%Z -> (0 <= nearest n d)%Z.
Proof.
  intros Hn Hd. unfold nearest.
  pose proof (Z.div_pos n d Hn Hd).
  destruct (2 * (n mod d) ?= d)%Z; [destruct (Z.even (n / d)) | |]; lia.
Qed.

Lemma shifted_signs (n d e : Z) :
  (0 < n)%Z -> (0 < d)%Z -> (0 <= (shifted n d e).1)%Z /\ (0 < (shifted n d e).2)%Z.
Proof.
  intros Hn Hd. unfold shifted. destruct (0 <=? e)%Z eqn:E; cbn [fst snd].
  - apply Z.leb_le in E. pose proof (Z.pow_pos_nonneg 2 e). nia.
  - apply Z.leb_gt in E. pose proof (Z.pow_pos_nonneg 2 (- e)). nia.
Qed.

Lemma round_pos_nonneg (n d : Z) : (0 < n)%Z -> (0 < d)%Z -> (0 <= round_pos n d)%Q.
Proof.
  intros Hn Hd. unfold round_pos.
  set (e := if (_ <? _)%Z then _ else _).
  destruct (shifted_signs n d e Hn Hd) as [HN HD].
  pose proof (nearest_nonneg _ _ HN HD) as Hm.
  destruct (0 <=? e)%Z eqn:E.
  - apply Z.leb_le in E. pose proof (Z.pow_pos_nonneg 2 e).
    unfold Qle. cbn. nia.
  - unfold Qle. cbn. lia.
Qed.

(** Rounding keeps a number that is not negative so. *)
Lemma rnd_nonneg (q : Qc) : (0 <= q)%Qc -> (0 <= rnd q)%Qc.
Proof.
  intros Hq.
  assert (H : (0 <= round q)%Q).
  { unfold round. destruct q as [[num den] Hcanon]. cbn [this Qnum Qden] in *.
    destruct num as [| n | n].
    - apply Qle_refl.
    - apply round_pos_nonneg; reflexivity.
    - exfalso. apply (Qle_not_lt _ _ Hq). reflexivity. }
  unfold rnd, Qcle, Q2Qc. cbn [this]. rewrite !Qred_correct. exact H.
Qed.

Lemma binary64_lawful : lawful binary64.
Proof.
  split; cbn [fgt fzero fscale fsquare binary64 float].
  - intros x. unfold Qc_ltb. rewrite negb_false_iff. apply Qle_bool_iff, Qle_refl.
  - intros x y z Hxy Hyz. apply Qc_ltb_true in Hxy, Hyz.
    apply Qc_lt_ltb. eapply Qclt_trans; eassumption.
  - intros x y z Hxz. apply Qc_ltb_true in Hxz.
    destruct (Qc_ltb y x) eqn:E; [left; reflexivity |]. right.
    apply Qc_ltb_false in E. apply Qc_lt_ltb. eapply Qclt_le_trans; eassumption.
  - intros n x Hn.
    destruct (Qc_ltb (rnd (rnd (qz n) * rnd (x * x))) 0) eqn:E; [| reflexivity].
    apply Qc_ltb_true in E. exfalso. apply (Qclt_not_le _ _ E).
    apply rnd_nonneg, Qc_mul_nonneg; apply rnd_nonneg;
      [apply qz_nonneg, Hn | apply Qc_square_nonneg].
Qed.

(** Rounding keeps a positive number positive: the significand is at
    least 1. *)
Lemma nearest_above (n d : Z) : (0 < d)%Z -> (d <= n)%Z -> (1 <= nearest n d)%Z.
Proof.
  intros Hd Hn. unfold nearest.
  assert (1 <= n / d)%Z by (apply Z.div_le_lower_bound; lia).
  destruct (2 * (n mod d) ?= d)%Z; [destruct (Z.even (n / d)) | |]; lia.
Qed.

Lemma shifted_above (n d e : Z) :
  (0 < n)%Z -> (0 < d)%Z -> (e <= Z.log2 n - Z.log2 d - 1)%Z ->
  ((shifted n d e).2 <= (shifted n d e).1)%Z.
Proof.
  intros Hn Hd He.
  destruct (Z.log2_spec n Hn) as [Hn1 _]. destruct (Z.log2_spec d Hd) as [_ Hd2].
  pose proof (Z.log2_nonneg n) as Hln. pose proof (Z.log2_nonneg d) as Hld.
  unfold shifted. destruct (0 <=? e)%Z eqn:E; cbn [fst snd].
  - apply Z.leb_le in E.
    assert (H : (2 ^ Z.succ (Z.log2 d) * 2 ^ e <= 2 ^ Z.log2 n)%Z).
    { rewrite <- Z.pow_add_r by lia. apply Z.pow_le_mono_r; lia. }
    pose proof (Z.pow_pos_nonneg 2 e). nia.
  - apply Z.leb_gt in E.
    assert (H : (2 ^ Z.succ (Z.log2 d) <= 2 ^ Z.log2 n * 2 ^ (- e))%Z).
    { rewrite <- Z.pow_add_r by lia. apply Z.pow_le_mono_r; lia. }
    pose proof (Z.pow_pos_nonneg 2 (- e)). nia.
Qed.

Lemma round_pos_pos (n d : Z) : (0 < n)%Z -> (0 < d)%Z -> (0 < round_pos n d)%Q.
Proof.
  intros Hn Hd. unfold round_pos.
  set (e := if (_ <? _)%Z then _ else _).
  assert (He : (e <= Z.log2 n - Z.log2 d - 1)%Z).
  { unfold e. destruct (_ <? _)%Z; lia. }
  destruct (shifted_signs n d e Hn Hd) as [_ HD].
  pose proof (nearest_above _ _ HD (shifted_above n d e Hn Hd He)) as Hm.
  destruct (0 <=? e)%Z eqn:E.
  - apply Z.leb_le in E. pose proof (Z.pow_pos_nonneg 2 e).
    unfold Qlt. cbn. nia.
  - unfold Qlt. cbn. lia.
Qed.

Lemma rnd_pos (q : Qc) : (0 < q)%Qc -> (0 < rnd q)%Qc.
Proof.
  intros Hq.
  assert (H : (0 < round q)%Q).
  { unfold round. destruct q as [[num den] Hcanon]. cbn [this Qnum Qden] in *.
    destruct num as [| n | n].
    - exfalso. vm_compute in Hq. discriminate.
    - apply round_pos_pos; reflexivity.
    - exfalso. vm_compute in Hq. discriminate. }
  unfold rnd, Qclt, Q2Qc. cbn [this]. rewrite !Qred_correct. exact H.
Qed.

Lemma rnd_neg (q : Qc) : (q < 0)%Qc -> (rnd q < 0)%Qc.
Proof.
  intros Hq.
  assert (H : (round q < 0)%Q).
  { unfold round. destruct q as [[num den] Hcanon]. cbn [this Qnum Qden] in *.
    destruct num as [| n | n].
    - exfalso. vm_compute in Hq. discriminate.
    - exfalso. vm_compute in Hq. discriminate.
    - pose proof (round_pos_pos (Z.pos n) (Z.pos den) eq_refl eq_refl) as H.
      apply Qopp_lt_compat in H. exact H. }
  unfold rnd, Qclt, Q2Qc. cbn [this]. rewrite !Qred_correct. exact H.
Qed.

(** The grey levels are floats: rounding leaves them as they are. *)
Lemma rnd_grey_level (p : nat) :
  (p < 256)%nat -> rnd (qz (Z.of_nat p)) = qz (Z.of_nat p).
Proof.
  intros Hp.
  assert (H : forallb (fun p => Qc_eqb (rnd (qz (Z.of_nat p))) (qz (Z.of_nat p)))
                (seq 0 256) = true) by (vm_compute; reflexivity).
  rewrite forallb_forall in H. specialize (H p).
  apply Qc_is_canon, Qeq_bool_iff, H, in_seq. lia.
Qed.

(** In binary64 too the variance between two peaks is above zero. *)
Lemma peak_variance_binary64_pos (p1 h1 p2 h2 : nat) :
  (p1 < p2 < 256)%nat -> (0 < h1)%nat -> (0 < h2)%nat ->
  fgt binary64 (peak_variance binary64 p1 h1 p2 h2) (fzero binary64) = true.
Proof.
  intros Hp Hh1 Hh2. cbn [fgt fzero binary64]. apply Qc_lt_ltb.
  unfold peak_variance. cbn [fscale fsquare fsub fdiv binary64].
  rewrite (qz_mul (Z.of_nat p1)), (qz_mul (Z.of_nat p2)).
  rewrite !Qcdiv_mult_l by (apply qz_nonzero; lia).
  rewrite !rnd_grey_level by lia.
  set (d := rnd (qz (Z.of_nat p1) - qz (Z.of_nat p2))).
  assert (Hd : (d < 0)%Qc).
  { apply rnd_neg.
    assert (H : (qz (Z.of_nat p1) < qz (Z.of_nat p2))%Qc).
    { unfold qz, fl, Qclt, Q2Qc. cbn [this]. rewrite !Qred_correct.
      rewrite <- Zlt_Qlt. lia. }
    apply Qclt_minus_iff in H. apply Qclt_minus_iff.
    replace (0 + - (qz (Z.of_nat p1) - qz (Z.of_nat p2)))%Qc
      with (qz (Z.of_nat p2) + - qz (Z.of_nat p1))%Qc by ring.
    exact H. }
  assert (Hdd : (0 < d * d)%Qc).
  { destruct (Qcle_lt_or_eq _ _ (Qc_square_nonneg d)) as [H | H]; [exact H |].
    symmetry in H. apply Qcmult_integral in H.
    exfalso. destruct H as [-> | ->]; exact (Qclt_not_le _ _ Hd (Qcle_refl _)). }
  apply rnd_pos.
  pose proof (Qcmult_lt_compat_r 0 (rnd (qz (Z.of_nat h1 * Z.of_nat h2))) (rnd (d * d))
                (rnd_pos _ Hdd)) as H.
  rewrite Qcmult_0_l in H. apply H. apply rnd_pos, qz_pos. lia.
Qed.

(** In exact arithmetic the variance between two peaks is above zero. *)
Lemma peak_variance_exact_pos (p1 h1 p2 h2 : nat) :
  (p1 < p2)%nat -> (0 < h1)%nat -> (0 < h2)%nat ->
  fgt exact (peak_variance exact p1 h1 p2 h2) (fzero exact) = true.
Proof.
  intros Hp Hh1 Hh2. cbn [fgt fzero exact]. apply Qc_lt_ltb.
  unfold peak_variance. cbn [fscale fsquare fsub fdiv exact].
  rewrite (qz_mul (Z.of_nat p1)), (qz_mul (Z.of_nat p2)).
  rewrite !Qcdiv_mult_l by (apply qz_nonzero; lia).
  set (d := (qz (Z.of_nat p1) - qz (Z.of_nat p2))%Qc).
  assert (Hd : d <> 0%Qc).
  { unfold d. intros H.
    assert (qz (Z.of_nat p1) = qz (Z.of_nat p2)) as E.
    { replace (qz (Z.of_nat p1)) with (qz (Z.of_nat p1) - qz (Z.of_nat p2)
                                       + qz (Z.of_nat p2))%Qc by ring.
      rewrite H. ring. }
    apply qz_inj in E. lia. }
  assert (Hdd : (0 < d * d)%Qc).
  { destruct (Qcle_lt_or_eq _ _ (Qc_square_nonneg d)) as [H | H]; [exact H |].
    symmetry in H. apply Qcmult_integral in H. tauto. }
  pose proof (Qcmult_lt_compat_r 0 (qz (Z.of_nat h1 * Z.of_nat h2)) (d * d) Hdd) as H.
  rewrite Qcmult_0_l in H. apply H. apply qz_pos. lia.
Qed.

(** C8 (amended): in every arithmetic whose comparison is lawful, that of
    fractions and that of binary64 floats among them, the function
    returns, on a histogram of 256 non-negative counts, the first bin at
    which the between-class variance, as that arithmetic computes it, is
    greatest; and for a histogram whose mass lies in two peaks, at the
    bins p1 < p2, the threshold is p1 itself as soon as the variance
    computed between the peaks is above zero, as it is in exact
    arithmetic and in binary64: at the lower peak and strictly below the
    upper one, which is where binarization by [x > threshold] separates
    the two peaks. *)
Theorem adaptive_threshold_maximizes_variance :
  (forall A : arithmetic,
      lawful A ->
      (forall hist : list Z,
          length hist = 256%nat ->
          Forall (fun h => 0 <= h)%Z hist ->
          exists th, get_adaptive_threshold A hist = Ok (Z.of_nat th)
                     /\ first_maximum A hist th)
      /\ (forall p1 h1 p2 h2 : nat,
            (p1 < p2 < 256)%nat -> (0 < h1)%nat -> (0 < h2)%nat ->
            fgt A (peak_variance A p1 h1 p2 h2) (fzero A) = true ->
            get_adaptive_threshold A (two_peaks p1 h1 p2 h2) = Ok (Z.of_nat p1)))
  /\ lawful exact
  /\ lawful binary64
  /\ (forall p1 h1 p2 h2 : nat,
        (p1 < p2 < 256)%nat -> (0 < h1)%nat -> (0 < h2)%nat ->
        get_adaptive_threshold exact (two_peaks p1 h1 p2 h2) = Ok (Z.of_nat p1)
        /\ get_adaptive_threshold binary64 (two_peaks p1 h1 p2 h2) = Ok (Z.of_nat p1)).
Proof.
  split; [| split; [exact exact_lawful | split; [exact binary64_lawful |]]].
  - intros A HA. split.
    + intros hist Hlen Hnn. apply adaptive_threshold_first_maximum; assumption.
    + intros p1 h1 p2 h2 Hp Hh1 Hh2 Hpos. apply two_peaks_threshold; assumption.
  - intros p1 h1 p2 h2 Hp Hh1 Hh2. split.
    + apply two_peaks_threshold; [exact exact_lawful | assumption .. |].
      apply peak_variance_exact_pos; [lia | assumption | assumption].
    + apply two_peaks_threshold; [exact binary64_lawful | assumption .. |].
      apply peak_variance_binary64_pos; assumption.
Qed.

Lemma adaptive_threshold_maximizes_variance_witness :
  (exists th, get_adaptive_threshold binary64 (two_peaks 50 100 200 100) = Ok (Z.of_nat th)
              /\ first_maximum binary64 (two_peaks 50 100 200 100) th)
  /\ get_adaptive_threshold binary64 (two_peaks 50 100 200 100) = Ok 50%Z
  /\ get_adaptive_threshold exact (two_peaks 50 100 200 100) = Ok 50%Z.
Proof.
  destruct adaptive_threshold_maximizes_variance as (Hany & _ & Hbinary & Hboth).
  destruct (Hany binary64 Hbinary) as [Hmax Hpeaks].
  split; [| split].
  - apply Hmax; [reflexivity |].
    apply List.Forall_forall. intros h Hin.
    apply in_map_iff in Hin as (i & <- & _).
    destruct (i =? 50)%nat; [lia |]. destruct (i =? 200)%nat; lia.
  - apply (Hpeaks 50 100 200 100)%nat; [lia | lia | lia |].
    vm_compute. reflexivity.
  - apply (Hboth 50 100 200 100)%nat; lia.
Defined.

End Otsu.

(** C8 as stated fails: with 100 pixels at level 50 and 100 at level 200
    the threshold is 50, the position of the lower peak, not a level
    strictly between the peaks; in exact arithmetic and in binary64
    alike. *)
Lemma threshold_at_lower_peak :
  ocr_preprocessing.get_adaptive_threshold ocr_preprocessing.exact
    (two_peaks 50 100 200 100) = Ok 50%Z
  /\ ocr_preprocessing.get_adaptive_threshold ocr_preprocessing.binary64
       (two_peaks 50 100 200 100) = Ok 50%Z
  /\ ~ (50 < 50 < 200)%Z.
Proof. split; [| split]; [vm_compute; reflexivity | vm_compute; reflexivity | lia]. Qed.

(** Rounding decides between splits whose variances are equal as
    fractions.  Five pixels, two at level 18, one at 28 and two at 38:
    the splits after 18 and after 28 both have the variance 5000/3; the
    floats computed for them are 1666.6666666666663 and
    1666.666666666667, and the threshold is 28 where exact arithmetic
    gives 18. *)
Example rounding_decides_ties :
  let hist := histogram_of [18; 18; 28; 38; 38]%nat in
  ocr_preprocessing.get_adaptive_threshold ocr_preprocessing.exact hist = Ok 18%Z
  /\ ocr_preprocessing.get_adaptive_threshold ocr_preprocessing.binary64 hist = Ok 28%Z
  /\ between_class_variance ocr_preprocessing.exact hist 18
     = between_class_variance ocr_preprocessing.exact hist 28
  /\ Qc_ltb (between_class_variance ocr_preprocessing.binary64 hist 18)
            (between_class_variance ocr_preprocessing.binary64 hist 28) = true.
Proof. vm_compute. repeat split. Qed.
(** ** The similarity ratio: the recursion over matching blocks *)

Section SequenceMatcher.
Import difflib.

Lemma match_within_mono (alo hi hi' : nat) (x : best_match) :
  hi <= hi' -> match_within alo hi x -> match_within alo hi' x.
Proof. unfold match_within. intros Hle [H | [H1 H2]]; [left | right]; lia. Qed.

Lemma lengths_within_empty (n : nat) : lengths_within n ∅.
Proof. apply map_Forall_empty. Qed.

(** One cell of the table: the run that ends at [(i, j)] is one longer
    than the run that ends at [(i - 1, j - 1)], so it starts at [alo] or
    later. *)
Lemma scan_row_bound (i alo blo bhi : nat) (j2len : gmap nat nat)
    (acc : gmap nat nat * best_match) (j : nat) :
  alo <= i ->
  lengths_within (i - alo) j2len ->
  lengths_within (S i - alo) acc.1 /\ match_within alo (S i) acc.2 ->
  lengths_within (S i - alo) (scan_row i blo bhi j2len acc j).1
  /\ match_within alo (S i) (scan_row i blo bhi j2len acc j).2.
Proof.
  intros Hi Hold [Hnew Hbest]. unfold scan_row. destruct acc as [newj2len best].
  cbn [fst snd] in *.
  destruct (j <? blo)%nat; [split; assumption |].
  destruct (bhi <=? j)%nat; [split; assumption |].
  assert (Hk : match j with O => O | S j' => default O (j2len !! j') end <= i - alo).
  { destruct j as [| j']; [lia |].
    destruct (j2len !! j') as [v |] eqn:Hv; cbn; [| lia].
    exact (Hold j' v Hv). }
  destruct (bestsize best <? _)%nat; cbn [fst snd]; split;
    try (apply map_Forall_insert_2; [lia | assumption]); try assumption.
  right. cbn [besti bestsize]. lia.
Qed.

Lemma scan_cells_bound (i alo blo bhi : nat) (j2len : gmap nat nat) (js : list nat) :
  alo <= i ->
  lengths_within (i - alo) j2len ->
  forall acc : gmap nat nat * best_match,
    lengths_within (S i - alo) acc.1 /\ match_within alo (S i) acc.2 ->
    lengths_within (S i - alo) (fold_left (scan_row i blo bhi j2len) js acc).1
    /\ match_within alo (S i) (fold_left (scan_row i blo bhi j2len) js acc).2.
Proof.
  intros Hi Hold. induction js as [| j js IH]; intros acc Hacc; [exact Hacc |].
  cbn [fold_left]. apply IH. apply scan_row_bound; assumption.
Qed.

Lemma scan_rows_bound (a b : list ascii) (alo blo bhi n : nat) :
  forall (i : nat) (j2len : gmap nat nat) (best : best_match),
    alo <= i ->
    lengths_within (i - alo) j2len ->
    match_within alo i best ->
    match_within alo (i + n) (scan_rows a b blo bhi (seq i n) j2len best).
Proof.
  induction n as [| n IH]; intros i j2len best Hi Hold Hbest; cbn [seq scan_rows].
  - rewrite Nat.add_0_r. assumption.
  - destruct (fold_left _ _ _) as [newj2len best'] eqn:Hfold.
    pose proof (scan_cells_bound i alo blo bhi j2len
                  (match a !! i with Some c => indices_of c b | None => [] end)
                  Hi Hold (∅, best)) as Hrow.
    rewrite Hfold in Hrow. cbn [fst snd] in Hrow.
    destruct Hrow as [Hnew Hbest'].
    { split; [apply lengths_within_empty |].
      apply (match_within_mono alo i); [lia | assumption]. }
    replace (i + S n) with (S i + n) by lia.
    apply IH; [lia | assumption | assumption].
Qed.

(** The longest match lies inside [a[alo:ahi]]. *)
Lemma find_longest_match_within (a b : list ascii) (alo ahi blo bhi : nat) :
  match_within alo ahi (find_longest_match a b alo ahi blo bhi).
Proof.
  unfold find_longest_match.
  destruct (Nat.le_gt_cases alo ahi) as [Hle | Hgt].
  - apply (match_within_mono alo (alo + (ahi - alo))); [lia |].
    apply scan_rows_bound; [lia | apply lengths_within_empty | left; reflexivity].
  - replace (ahi - alo) with 0 by lia. left. reflexivity.
Qed.

(** The ranges to the left and to the right of a match are strictly
    shorter than the range itself: one unit of fuel more than the length
    of the range is enough, and more fuel changes nothing. *)
Lemma matches_fuel (a b : list ascii) (fuel : nat) :
  forall (fuel' alo ahi blo bhi : nat),
    ahi - alo < fuel -> ahi - alo < fuel' ->
    matches fuel a b alo ahi blo bhi = matches fuel' a b alo ahi blo bhi.
Proof.
  induction fuel as [| fuel IH]; intros fuel' alo ahi blo bhi H1 H2; [lia |].
  destruct fuel' as [| fuel']; [lia |]. cbn [matches].
  pose proof (find_longest_match_within a b alo ahi blo bhi) as Hin.
  destruct (find_longest_match a b alo ahi blo bhi) as [i j k].
  unfold match_within in Hin. cbn [besti bestj bestsize] in *.
  destruct (k =? 0)%nat eqn:Hk; [reflexivity |].
  apply Nat.eqb_neq in Hk.
  destruct Hin as [Hin | [Hlo Hhi]]; [contradiction |].
  f_equal; [f_equal |].
  - destruct ((alo <? i)%nat && (blo <? j)%nat); [| reflexivity].
    apply IH; lia.
  - destruct ((i + k <? ahi)%nat && (j + k <? bhi)%nat); [| reflexivity].
    apply IH; lia.
Qed.

(** The count used by [ratio_of] is the count for any larger fuel. *)
Lemma ratio_of_fuel (a b : string) (fuel : nat) :
  String.length a < fuel ->
  matches (String.length a + 1) (list_ascii_of_string a) (list_ascii_of_string b)
          0 (String.length a) 0 (String.length b)
  = matches fuel (list_ascii_of_string a) (list_ascii_of_string b)
            0 (String.length a) 0 (String.length b).
Proof. intros H. apply matches_fuel; lia. Qed.

End SequenceMatcher.

(** ** Merging similar blocks *)

Section MergeSimilar.
Import pdf_metadata post_ocr_cleanup.

Variable format : value -> string.
Variable ratio : value -> value -> result Qc.
Variable threshold : Qc.

Abbreviation similar' := (similar format ratio threshold).
Abbreviation step' := (step format ratio threshold).
Abbreviation loop' := (loop format ratio threshold).
Abbreviation merge' := (fun blocks => merge_similar_blocks format ratio blocks threshold).
Abbreviation merge_from' := (merge_from format ratio threshold).







(** *** The loop, one block at a time *)

Lemma merge_unfold (blocks : list dict) :
  merge' blocks
  = let! st := loop' blocks {| merged_blocks := []; current_block := None |} in
    Ok (merge_result st).
Proof. reflexivity. Qed.

(** Blocks already emitted play no part in what follows. *)
Lemma step_prefix (pre m : list dict) (c : option dict) (block : dict) :
  step' {| merged_blocks := (pre ++ m)%list; current_block := c |} block
  = let! st := step' {| merged_blocks := m; current_block := c |} block in
    Ok {| merged_blocks := (pre ++ merged_blocks st)%list;
          current_block := current_block st |}.
Proof.
  unfold step. cbn [current_block merged_blocks].
  destruct c as [current |]; [| reflexivity].
  destruct (no_current (Some current)); [reflexivity |].
  destruct (similar' current block) as [[|] | e]; cbn [Py.rbind]; try reflexivity.
  - destruct (extend_lines current block); reflexivity.
  - rewrite <- app_assoc. reflexivity.
Qed.

Lemma loop_prefix (blocks pre m : list dict) (c : option dict) :
  loop' blocks {| merged_blocks := (pre ++ m)%list; current_block := c |}
  = let! st := loop' blocks {| merged_blocks := m; current_block := c |} in
    Ok {| merged_blocks := (pre ++ merged_blocks st)%list;
          current_block := current_block st |}.
Proof.
  revert m c. induction blocks as [| block blocks IH]; intros m c; [reflexivity |].
  cbn [loop]. rewrite step_prefix.
  destruct (step' {| merged_blocks := m; current_block := c |} block) as [[m' c'] | e];
    cbn [Py.rbind merged_blocks current_block]; [apply IH | reflexivity].
Qed.

Lemma merge_result_prefix (pre : list dict) (st : merge_state) :
  merge_result {| merged_blocks := (pre ++ merged_blocks st)%list;
                  current_block := current_block st |}
  = (pre ++ merge_result st)%list.
Proof.
  unfold merge_result. cbn [merged_blocks current_block].
  destruct (no_current (current_block st)); [reflexivity |].
  destruct (current_block st); [rewrite app_assoc |]; reflexivity.
Qed.

Lemma merge_cons (block : dict) (blocks : list dict) :
  merge' (block :: blocks) = merge_from' block blocks.
Proof. reflexivity. Qed.

(** An empty dictionary is not a block: the loop drops it. *)
Lemma merge_from_empty (blocks : list dict) :
  merge_from' ∅ blocks = merge' blocks.
Proof. destruct blocks as [| block blocks]; reflexivity. Qed.

Lemma no_current_nonempty (current : dict) :
  current <> ∅ -> no_current (Some current) = false.
Proof.
  intros H. cbn [no_current truthy]. rewrite bool_decide_eq_false_2 by exact H.
  reflexivity.
Qed.

(** The equations of the merge: the next block is compared with the block
    being built and either taken into it or made the next one built. *)
Lemma merge_from_cons (current block : dict) (blocks : list dict) :
  current <> ∅ ->
  merge_from' current (block :: blocks)
  = let! merge := similar' current block in
    if merge then
      let! current := extend_lines current block in
      merge_from' current blocks
    else
      let! rest := merge_from' block blocks in
      Ok (current :: rest).
Proof.
  intros Hne. unfold merge_from. cbn [loop]. unfold step at 1.
  cbn [current_block merged_blocks]. rewrite (no_current_nonempty current Hne).
  destruct (similar' current block) as [[|] | e]; cbn [Py.rbind]; try reflexivity.
  - destruct (extend_lines current block); reflexivity.
  - change ([] ++ [current])%list with ([current] ++ [])%list.
    rewrite loop_prefix.
    destruct (loop' blocks {| merged_blocks := []; current_block := Some block |})
      as [st | e]; cbn [Py.rbind]; [| reflexivity].
    rewrite merge_result_prefix. reflexivity.
Qed.

Lemma merge_from_nil (current : dict) :
  current <> ∅ -> merge_from' current [] = Ok [current].
Proof.
  intros Hne. unfold merge_from, merge_result. cbn [loop Py.rbind current_block].
  rewrite (no_current_nonempty current Hne). reflexivity.
Qed.



End MergeSimilar.

(** *** The two examples, with the similarity ratio of [difflib] *)

Example similarity_ratios :
  Qeq_bool (difflib.ratio_of "Hello world" "Hello wordl") (10 # 11) = true
  /\ Qeq_bool (difflib.ratio_of "Hello world" "Goodbye") (1 # 9) = true
  /\ Qeq_bool (difflib.ratio_of "abcdefghij" "abcdefghiX") (9 # 10) = true
  /\ Qeq_bool (difflib.ratio_of "abcdefghiX" "abcdefghYX") (9 # 10) = true
  /\ Qeq_bool (difflib.ratio_of "abcdefghij" "abcdefghYX") (8 # 10) = true.
Proof. vm_compute. repeat split. Qed.




From Stdlib Require Import Lqa.

(** ** Symbolic execution, continued *)

(** As [wp_step], for runs in which a key read back has just been
    written: the lookup then reduces on the spot. *)
Ltac run_getitem closer :=
  apply post_getitem; map_lookups; cbn beta iota;
  try lazymatch goal with
      | |- match ?o with _ => _ end => destruct o eqn:?; [| closer]
      end.

Ltac exec_step closer :=
  lazymatch goal with
  | |- post (Py.bind _ _) _ _ _ => apply post_bind
  | |- post (Py.ret _) _ _ _ => apply post_ret
  | |- post (Py.setitem _ _) _ _ _ => apply post_setitem
  | |- post (Py.get _ _) _ _ _ => apply post_get
  | |- post (Py.contains _) _ _ _ => apply post_contains
  | |- post (Py.getitem ?k) ?s _ _ => run_getitem closer
  | |- post (Py.lift (Ok _)) _ _ _ => apply post_lift
  | |- post (Py.lift (Raise _)) _ _ _ => apply post_lift; closer
  | |- post (Py.lift ?r) _ _ _ =>
      apply post_lift; destruct r eqn:?; [| closer]
  | |- post (if ?b then _ else _) _ _ _ => destruct b eqn:?
  | |- post (match ?x with _ => _ end) _ _ _ => destruct x eqn:?
  | |- _ => closer
  end.

Ltac exec closer := repeat (cbn beta iota zeta; exec_step closer).

(** The same with a simplifier [simp] for the results of pure steps: a
    step whose result [simp] turns into [Ok _] or [Raise _] is not split
    into cases. *)
Ltac exec_lift simp closer :=
  apply post_lift; map_lookups; simp; cbn beta iota;
  try lazymatch goal with
      | |- match ?r with _ => _ end => destruct r eqn:?; [| closer]
      end.

Ltac exec_step_with simp closer :=
  lazymatch goal with
  | |- post (Py.bind _ _) _ _ _ => apply post_bind
  | |- post (Py.ret _) _ _ _ => apply post_ret
  | |- post (Py.setitem _ _) _ _ _ => apply post_setitem
  | |- post (Py.get _ _) _ _ _ => apply post_get
  | |- post (Py.contains _) _ _ _ => apply post_contains
  | |- post (Py.getitem ?k) ?s _ _ => run_getitem closer
  | |- post (Py.lift _) _ _ _ => exec_lift simp closer
  | |- post (if ?b then _ else _) _ _ _ => destruct b eqn:?
  | |- post (match ?x with _ => _ end) _ _ _ => destruct x eqn:?
  | |- _ => closer
  end.

Ltac exec_with simp closer := repeat (cbn beta iota zeta; exec_step_with simp closer).

Lemma post_eq {S A} (m m' : M S A) (s s' : S) (Qok : A -> S -> Prop) (Qerr : S -> Prop) :
  m s = m' s' -> post m' s' Qok Qerr -> post m s Qok Qerr.
Proof. unfold post. intros ->. auto. Qed.

Lemma default_Some {A} (d x : A) : default d (Some x) = x.
Proof. reflexivity. Qed.


(** ** Arithmetic on floats

    Comparisons and equations between floats are settled on the
    underlying fractions. *)

Lemma Qc_eq_Qeq (a b : Qc) : a = b <-> (this a == this b)%Q.
Proof. split; [intros ->; reflexivity | apply Qc_is_canon]. Qed.

Ltac qc_unfold :=
  unfold Qcle, Qclt, Qcmult, Qcplus, Qcminus, Qcopp, Qcdiv, Qcinv, fl, Q2Qc in *;
  cbn [this] in *;
  repeat match goal with
         | H : context [Qred _] |- _ => setoid_rewrite Qred_correct in H
         | |- context [Qred _] => setoid_rewrite Qred_correct
         end.

Ltac qc_lra :=
  repeat match goal with
         | H : @eq Qc _ _ |- _ => apply Qc_eq_Qeq in H
         | H : ~ @eq Qc _ _ |- _ => rewrite Qc_eq_Qeq in H
         | |- @eq Qc _ _ => apply Qc_eq_Qeq
         | |- ~ @eq Qc _ _ => rewrite Qc_eq_Qeq
         end;
  qc_unfold; lra.

(** ** Vertical alignment: what reinsertion keeps, and what comes back *)

Section VerticalAlignMore.
Import vertical_align_handling.

Lemma reset_mask_high_bits (f i : Z) :
  (2 <= i)%Z -> Z.testbit (Z.land f (Z.lnot (Z.lor 2 3))) i = Z.testbit f i.
Proof.
  intros Hi. rewrite Z.land_spec. change (Z.lor 2 3) with (Z.ones 2).
  rewrite Z.lnot_spec by lia. rewrite Z.ones_spec_high by lia.
  apply andb_true_r.
Qed.

Lemma lor_low_high_bits (f m i : Z) :
  (0 <= m < 4)%Z -> (2 <= i)%Z -> Z.testbit (Z.lor f m) i = Z.testbit f i.
Proof.
  intros Hm Hi. rewrite Z.lor_spec.
  assert (Z.testbit m i = false) as ->; [| apply orb_false_r].
  assert (m = 0 \/ m = 1 \/ m = 2 \/ m = 3)%Z as [-> | [-> | [-> | ->]]] by lia.
  - apply Z.bits_0.
  - change 1%Z with (Z.ones 1). apply Z.ones_spec_high. lia.
  - change 2%Z with (2 ^ 1)%Z. rewrite Z.pow2_bits_eqb by lia. apply Z.eqb_neq. lia.
  - change 3%Z with (Z.ones 2). apply Z.ones_spec_high. lia.
Qed.

(** X1: vertical-align reinsertion touches bits 0 and 1 of the flag field
    only: every other bit (underline, bold, small caps) has the value it
    had before, whatever the alignment asked for and whether or not a
    later step of the handler raises. *)
Theorem reinsert_vertical_align_keeps_other_flags
    (span style_dict : dict) (align : value) (f : Z) :
  style_dict !! "vertical-align" = Some align ->
  as_int (default (VInt 0) (span !! "flags")) = Some f ->
  exists f',
    (reinsert_vertical_align style_dict span).2 !! "flags" = Some (VInt f')
    /\ forall i, (2 <= i)%Z -> Z.testbit f' i = Z.testbit f i.
Proof.
  intros Halign Hf.
  apply (post_final _ _
           (fun s => exists f', s !! "flags" = Some (VInt f')
                                /\ forall i, (2 <= i)%Z -> Z.testbit f' i = Z.testbit f i)).
  unfold reinsert_vertical_align, size_times, neg_size_times. rewrite Halign.
  apply post_bind, post_get, post_bind, post_lift.
  rewrite (reset_mask_flags _ f Hf).
  exec ltac:(simplify_eq/=; map_lookups; eexists; (split; [reflexivity |]);
           intros i Hi;
           rewrite ?lor_low_high_bits by lia; apply reset_mask_high_bits; exact Hi).
Qed.

Lemma reinsert_vertical_align_keeps_other_flags_witness :
  exists f',
    (reinsert_vertical_align (<["vertical-align" := VStr "sub"]> ∅)
       (<["size" := VInt 10]> (<["flags" := VInt 21]> ∅))).2 !! "flags"
    = Some (VInt f')
    /\ forall i, (2 <= i)%Z -> Z.testbit f' i = Z.testbit 21 i.
Proof.
  apply (reinsert_vertical_align_keeps_other_flags
           (<["size" := VInt 10]> (<["flags" := VInt 21]> ∅))
           (<["vertical-align" := VStr "sub"]> ∅) (VStr "sub") 21);
    reflexivity.
Defined.

Lemma fl_opp (q : Q) : fl (- q) = (- fl q)%Qc.
Proof.
  apply Qc_is_canon. unfold fl, Qcopp, Q2Qc. cbn [this].
  transitivity (- q)%Q; [apply Qred_correct |].
  symmetry. etransitivity; [apply Qred_correct |].
  apply Qopp_comp, Qred_correct.
Qed.

Lemma mul_float_r (a : value) (x k : Qc) :
  as_num a = Some x -> mul a (VFloat k) = Ok (VFloat (x * k)).
Proof. intros Hx. unfold mul. rewrite orb_true_r, Hx. reflexivity. Qed.

Lemma neg_as_num (a : value) (x : Qc) :
  as_num a = Some x -> exists m, neg a = Ok m /\ as_num m = Some (- x)%Qc.
Proof.
  destruct a; cbn; intros H; try discriminate; injection H as <-;
    eexists; (split; [reflexivity |]); cbn; f_equal.
  - destruct b; apply Qc_is_canon; reflexivity.
  - change (- n)%Z with (Z.opp n). rewrite <- fl_opp. f_equal.
Qed.

Ltac str_tests :=
  repeat match goal with
         | |- context [eq_str (VStr ?a) ?b] =>
             let r := eval vm_compute in (eq_str (VStr a) b) in
             change (eq_str (VStr a) b) with r
         | |- context [in_strs (VStr ?a) ?l] =>
             let r := eval vm_compute in (in_strs (VStr a) l) in
             change (in_strs (VStr a) l) with r
         end.

(** The span after the reset of flags and rise with which every
    reinsertion starts. *)
Lemma reinsert_vertical_align_run (span style_dict : dict) (align : string) (f : Z) :
  style_dict !! "vertical-align" = Some (VStr align) ->
  as_int (default (VInt 0) (span !! "flags")) = Some f ->
  reinsert_vertical_align style_dict span
  = (let reset : dict :=
       <["rise" := VInt 0]> (<["flags" := VInt (Z.land f (Z.lnot (Z.lor 2 3)))]> span) in
     Py.bind
       (if eq_str (VStr align) "super" then
          do flags <- getitem "flags" ;
          do flags' <- lift (or_ flags (VInt 2)) ;
          do _ <- setitem "flags" flags' ;
          do rise <- size_times (fl 0.33) ;
          setitem "rise" rise
        else if eq_str (VStr align) "sub" then
          do flags <- getitem "flags" ;
          do flags' <- lift (or_ flags (VInt 3)) ;
          do _ <- setitem "flags" flags' ;
          do rise <- neg_size_times (fl 0.33) ;
          setitem "rise" rise
        else if eq_str (VStr align) "text-top" then
          do rise <- get "size" (VInt 12) ;
          setitem "rise" rise
        else if eq_str (VStr align) "text-bottom" then
          do size <- get "size" (VInt 12) ;
          do rise <- lift (neg size) ;
          setitem "rise" rise
        else if eq_str (VStr align) "middle" then
          do rise <- size_times (fl 0.5) ;
          setitem "rise" rise
        else ret tt)
       (fun _ =>
          if in_strs (VStr align) ["sub"; "super"] then
            do size <- size_times (fl 0.75) ;
            setitem "size" size
          else ret tt)
       reset).
Proof.
  intros Hstyle Hf. unfold reinsert_vertical_align. rewrite Hstyle.
  unfold Py.bind at 1. unfold Py.get at 1, Py.gets at 1.
  unfold Py.bind at 1. unfold Py.lift at 1. rewrite (reset_mask_flags _ f Hf).
  reflexivity.
Qed.


Lemma Qc_ltb_lt (a b : Qc) : (a < b)%Qc -> Qc_ltb a b = true.
Proof.
  intros H. destruct (Qc_ltb a b) eqn:E; [reflexivity |].
  apply Qc_ltb_false in E. exfalso. exact (Qclt_not_le _ _ H E).
Qed.

Lemma Qc_ltb_ge (a b : Qc) : (b <= a)%Qc -> Qc_ltb a b = false.
Proof.
  intros H. destruct (Qc_ltb a b) eqn:E; [| reflexivity].
  apply Qc_ltb_true in E. exfalso. exact (Qclt_not_le _ _ E H).
Qed.

Lemma normalize_vertical_align_table (align : string) :
  normalize_vertical_align (VStr align) = Ok (VFloat (rise_factor align)).
Proof.
  unfold normalize_vertical_align, align_values, rise_factor.
  cbn [list_to_map foldr uncurry]. do 2 f_equal.
  repeat match goal with
         | |- context [(?a =? ?b)%string] =>
             destruct (String.eqb_spec a b) as [-> | ?]; [reflexivity |]
         end.
  destruct (String.eqb_spec align "baseline") as [-> | ?]; [reflexivity |].
  cbn [fst snd]. rewrite !lookup_insert_ne by congruence. reflexivity.
Qed.

(** What reinsertion of an alignment word does to a span with an integer
    flag field and a numeric size. *)
Lemma reinsert_vertical_align_outcome
    (span style_dict : dict) (align : string) (f : Z) (q : Qc) :
  style_dict !! "vertical-align" = Some (VStr align) ->
  as_int (default (VInt 0) (span !! "flags")) = Some f ->
  as_num (default (VInt 12) (span !! "size")) = Some q ->
  exists (s' : dict) (rise : value),
    reinsert_vertical_align style_dict span = (Ok tt, s')
    /\ s' !! "flags"
       = Some (VInt (Z.lor (Z.land f (Z.lnot (Z.lor 2 3))) (align_bits align)))
    /\ s' !! "rise" = Some rise
    /\ as_num rise = Some (q * rise_factor align)%Qc
    /\ as_num (default (VInt 12) (s' !! "size")) = Some (q * size_factor align)%Qc
    /\ forall key, key <> "flags" -> key <> "rise" -> key <> "size" ->
                   s' !! key = span !! key.
Proof.
  intros Hstyle Hf Hq.
  destruct (neg_as_num _ q Hq) as (m & Hm & Hmq).
  assert (H1 : fl 1.0 = 1%Qc) by (apply Qc_is_canon; reflexivity).
  assert (H0 : fl 0.0 = 0%Qc) by (apply Qc_is_canon; reflexivity).
  assert (Hz : fl (inject_Z 0) = 0%Qc) by (apply Qc_is_canon; reflexivity).
  assert (Hm1 : fl (-1.0) = (- (1))%Qc) by (apply Qc_is_canon; reflexivity).
  assert (Hm3 : fl (-0.33) = (- fl 0.33)%Qc) by (apply Qc_is_canon; reflexivity).
  enough (post (reinsert_vertical_align style_dict) span
            (fun _ s =>
               exists rise,
                 s !! "flags"
                 = Some (VInt (Z.lor (Z.land f (Z.lnot (Z.lor 2 3))) (align_bits align)))
                 /\ s !! "rise" = Some rise
                 /\ as_num rise = Some (q * rise_factor align)%Qc
                 /\ as_num (default (VInt 12) (s !! "size"))
                    = Some (q * size_factor align)%Qc
                 /\ forall key, key <> "flags" -> key <> "rise" -> key <> "size" ->
                                s !! key = span !! key)
            (fun _ => False)) as Hpost.
  { apply post_returns in Hpost as ([] & s' & -> & rise & H).
    exists s', rise. split; [reflexivity | exact H]. }
  eapply post_eq;
    [exact (reinsert_vertical_align_run span style_dict align f Hstyle Hf) |].
  unfold size_times, neg_size_times, rise_factor, align_bits, size_factor.
  cbn [eq_str in_strs existsb]. cbn zeta.
  destruct (String.eqb_spec align "super") as [-> | Hsuper];
    [| destruct (String.eqb_spec align "sub") as [-> | Hsub];
       [| destruct (String.eqb_spec align "text-top") as [-> | Htop];
          [| destruct (String.eqb_spec align "text-bottom") as [-> | Hbottom];
             [| destruct (String.eqb_spec align "middle") as [-> | Hmiddle]]]]];
    cbn [orb String.eqb Ascii.eqb Bool.eqb andb];
    exec_with ltac:(cbn [or_ as_int];
                    rewrite ?Hm, ?(mul_float_r _ q _ Hq), ?(mul_float_r _ _ _ Hmq))
              ltac:(try discriminate; eexists;
                    (split; [map_lookups; rewrite ?Z.lor_0_r; reflexivity |]);
                    (split; [map_lookups; reflexivity |]);
                    (split; [rewrite ?Hq, ?Hmq; cbn [as_num]; f_equal;
                             rewrite ?Hm3, ?H1, ?H0, ?Hz, ?Hm1; ring |]);
                    (split; [map_lookups; rewrite ?Hq; cbn [default as_num]; f_equal;
                             ring |]);
                    intros key Hk1 Hk2 Hk3; rewrite !lookup_insert_ne by congruence;
                    reflexivity).
Qed.

Lemma extract_vertical_align_of_state (s : dict) (flags : Z) (rise : value) (x : Qc) :
  s !! "flags" = Some (VInt flags) ->
  s !! "rise" = Some rise ->
  as_num rise = Some x ->
  extract_vertical_align (VDict s)
  = Ok (if negb (Z.land flags 2 =? 0)%Z then "vertical-align: super;"
        else if negb (Z.land flags 3 =? 0)%Z then "vertical-align: sub;"
        else if Qc_ltb (fl (inject_Z 0)) x then "vertical-align: super;"
        else if Qc_ltb x (fl (inject_Z 0)) then "vertical-align: sub;"
        else "vertical-align: baseline;").
Proof.
  intros Hflags Hrise Hx. unfold extract_vertical_align.
  rewrite Hflags, Hrise.
  change (default (VInt 0) (Some (VInt flags))) with (VInt flags).
  cbn [and_ as_int rbind truthy].
  destruct (negb (Z.land flags 2 =? 0)%Z); [reflexivity |].
  destruct (negb (Z.land flags 3 =? 0)%Z); [reflexivity |].
  unfold gt, lt. rewrite Hx. cbn [as_num rbind].
  destruct (Qc_ltb (fl (inject_Z 0)) x); [reflexivity |].
  destruct (Qc_ltb x (fl (inject_Z 0))); reflexivity.
Qed.

Lemma land_reset_mask (f m : Z) :
  (0 <= m < 4)%Z -> Z.land (Z.land f (Z.lnot (Z.lor 2 3))) m = 0%Z.
Proof.
  intros Hm. rewrite <- Z.land_assoc.
  assert (Z.land (Z.lnot (Z.lor 2 3)) m = 0%Z) as ->; [| apply Z.land_0_r].
  assert (m = 0 \/ m = 1 \/ m = 2 \/ m = 3)%Z as [-> | [-> | [-> | ->]]] by lia;
    reflexivity.
Qed.

Lemma Qc_pos_mul (q k : Qc) : (0 < q)%Qc -> (0 < k)%Qc -> (0 < q * k)%Qc.
Proof.
  intros Hq Hk. rewrite <- (Qcmult_0_l k). apply Qcmult_lt_compat_r; assumption.
Qed.

Lemma Qc_pos_mul_neg (q k : Qc) : (0 < q)%Qc -> (k < 0)%Qc -> (q * k < 0)%Qc.
Proof.
  intros Hq Hk. rewrite <- (Qcmult_0_l q), (Qcmult_comm q k).
  apply Qcmult_lt_compat_r; assumption.
Qed.

(** X2: what extraction reads back after an alignment word has been
    reinserted into a span whose font size is a number of ordinary
    magnitude: "super" for super, sub, text-top and middle, "sub" for
    text-bottom, "baseline" for baseline and for every other word.  Of
    the six alignment words only super and baseline come back as
    themselves. *)
Theorem vertical_align_read_back
    (span style_dict : dict) (align : string) (f : Z) (q : Qc) :
  style_dict !! "vertical-align" = Some (VStr align) ->
  as_int (default (VInt 0) (span !! "flags")) = Some f ->
  as_num (default (VInt 12) (span !! "size")) = Some q ->
  ordinary q ->
  let out := reinsert_vertical_align style_dict span in
  out.1 = Ok tt
  /\ extract_vertical_align (VDict out.2) = Ok (read_back align).
Proof.
  intros Hstyle Hf Hq Hordinary out. subst out.
  pose proof (ordinary_pos q Hordinary) as Hpos.
  destruct (reinsert_vertical_align_outcome span style_dict align f q Hstyle Hf Hq)
    as (s' & rise & -> & Hflags & Hrise & Hnum & _).
  split; [reflexivity |]. cbn [snd].
  rewrite (extract_vertical_align_of_state s' _ rise _ Hflags Hrise Hnum).
  replace (fl (inject_Z 0)) with 0%Qc by (apply Qc_is_canon; reflexivity).
  rewrite !Z.land_lor_distr_l, !land_reset_mask by lia. rewrite !Z.lor_0_l.
  unfold read_back, align_bits, rise_factor. f_equal.
  destruct (String.eqb_spec align "super") as [-> | Hsuper]; [reflexivity |].
  destruct (String.eqb_spec align "sub") as [-> | Hsub]; [reflexivity |].
  cbn [Z.land Z.eqb negb orb].
  destruct (String.eqb_spec align "text-top") as [-> | Htop].
  { rewrite Qc_ltb_lt; [reflexivity |]. apply Qc_pos_mul; [exact Hpos | reflexivity]. }
  destruct (String.eqb_spec align "text-bottom") as [-> | Hbottom].
  { assert (Hneg : (q * fl (-1.0) < 0)%Qc)
      by (apply Qc_pos_mul_neg; [exact Hpos | reflexivity]).
    rewrite (Qc_ltb_ge 0 _ (Qclt_le_weak _ _ Hneg)), (Qc_ltb_lt _ 0 Hneg).
    reflexivity. }
  destruct (String.eqb_spec align "middle") as [-> | Hmiddle].
  { rewrite Qc_ltb_lt; [reflexivity |]. apply Qc_pos_mul; [exact Hpos | reflexivity]. }
  replace (q * fl 0.0)%Qc with 0%Qc
    by (replace (fl 0.0) with 0%Qc by (apply Qc_is_canon; reflexivity); ring).
  reflexivity.
Qed.

Lemma vertical_align_read_back_witness :
  let out := reinsert_vertical_align (<["vertical-align" := VStr "middle"]> ∅)
               (<["size" := VInt 10]> (<["flags" := VInt 5]> ∅)) in
  out.1 = Ok tt
  /\ extract_vertical_align (VDict out.2) = Ok "vertical-align: super;".
Proof.
  apply (vertical_align_read_back
           (<["size" := VInt 10]> (<["flags" := VInt 5]> ∅))
           (<["vertical-align" := VStr "middle"]> ∅) "middle" 5 (fl (inject_Z 10)));
    first [reflexivity | split; vm_compute; discriminate].
Defined.

(** X3: on a span whose font size is a number of ordinary magnitude, at
    most 2^53, the rise that reinsertion writes is that size times the
    factor that [normalize_vertical_align] gives for the same alignment
    word: 0.33, -0.33, 1, -1, 0.5, and 0 for "baseline" and for every word
    that is not an alignment. *)
Theorem rise_is_size_times_normalized
    (span style_dict : dict) (align : string) (f : Z) (q : Qc) :
  style_dict !! "vertical-align" = Some (VStr align) ->
  as_int (default (VInt 0) (span !! "flags")) = Some f ->
  as_num (default (VInt 12) (span !! "size")) = Some q ->
  ordinary q ->
  float_exact q ->
  let out := reinsert_vertical_align style_dict span in
  exists (rise : value) (k : Qc),
    out.1 = Ok tt
    /\ out.2 !! "rise" = Some rise
    /\ normalize_vertical_align (VStr align) = Ok (VFloat k)
    /\ as_num rise = Some (q * k)%Qc.
Proof.
  intros Hstyle Hf Hq _ _ out. subst out.
  destruct (reinsert_vertical_align_outcome span style_dict align f q Hstyle Hf Hq)
    as (s' & rise & -> & _ & Hrise & Hnum & _).
  exists rise, (rise_factor align).
  repeat split; auto using normalize_vertical_align_table.
Qed.

Lemma rise_is_size_times_normalized_witness :
  let out := reinsert_vertical_align (<["vertical-align" := VStr "text-bottom"]> ∅)
               (<["size" := VInt 10]> (<["flags" := VInt 5]> ∅)) in
  exists (rise : value) (k : Qc),
    out.1 = Ok tt
    /\ out.2 !! "rise" = Some rise
    /\ normalize_vertical_align (VStr "text-bottom") = Ok (VFloat k)
    /\ as_num rise = Some (fl (inject_Z 10) * k)%Qc.
Proof.
  apply (rise_is_size_times_normalized
           (<["size" := VInt 10]> (<["flags" := VInt 5]> ∅))
           (<["vertical-align" := VStr "text-bottom"]> ∅) "text-bottom" 5);
    first [reflexivity | split; vm_compute; discriminate].
Defined.

Lemma script_edits_invariant
    (span style_dict : dict) (align : string) (f : Z) (q : Qc) (n : nat) :
  style_dict !! "vertical-align" = Some (VStr align) ->
  align = "super" \/ align = "sub" ->
  as_int (default (VInt 0) (span !! "flags")) = Some f ->
  as_num (default (VInt 12) (span !! "size")) = Some q ->
  let s := Nat.iter n (fun s => (reinsert_vertical_align style_dict s).2) span in
  is_Some (as_int (default (VInt 0) (s !! "flags")))
  /\ as_num (default (VInt 12) (s !! "size")) = Some (q * fl 0.75 ^ n)%Qc.
Proof.
  intros Hstyle Halign Hf Hq. induction n as [| n [[f' Hf'] Hsize]]; cbn zeta.
  - split; [eauto |]. cbn [Nat.iter nat_rect Qcpower]. rewrite Hq. f_equal. ring.
  - rewrite Nat.iter_succ.
    destruct (reinsert_vertical_align_outcome _ style_dict align f' _ Hstyle Hf' Hsize)
      as (s' & rise & -> & Hflags & _ & _ & Hnew & _).
    cbn [snd]. rewrite Hflags. split; [cbn; eauto |]. rewrite Hnew. f_equal.
    replace (size_factor align) with (fl 0.75)
      by (destruct Halign as [-> | ->]; reflexivity).
    cbn [Qcpower]. ring.
Qed.

Lemma Qc_power_pos (k : Qc) (n : nat) : (0 < k)%Qc -> (0 < k ^ n)%Qc.
Proof.
  intros Hk. induction n as [| n IH]; cbn [Qcpower]; [reflexivity |].
  apply Qc_pos_mul; assumption.
Qed.

(** X4: a superscript or subscript edit is not idempotent.  On a span
    whose font size is a number of ordinary magnitude, each of the first
    hundred applications of the same style map succeeds and multiplies
    the font size it finds by 0.75, so that every application leaves a
    size smaller than before. *)
Theorem repeated_script_edits_shrink
    (span style_dict : dict) (align : string) (f : Z) (q : Qc) (n : nat) :
  style_dict !! "vertical-align" = Some (VStr align) ->
  align = "super" \/ align = "sub" ->
  as_int (default (VInt 0) (span !! "flags")) = Some f ->
  as_num (default (VInt 12) (span !! "size")) = Some q ->
  ordinary q ->
  (n < 100)%nat ->
  let edit := fun s => (reinsert_vertical_align style_dict s).2 in
  let before := Nat.iter n edit span in
  exists old new : Qc,
    as_num (default (VInt 12) (before !! "size")) = Some old
    /\ (reinsert_vertical_align style_dict before).1 = Ok tt
    /\ as_num (default (VInt 12) (edit before !! "size")) = Some new
    /\ new = (old * fl 0.75)%Qc
    /\ (new < old)%Qc.
Proof.
  intros Hstyle Halign Hf Hq Hordinary _ edit before. subst edit before.
  destruct (script_edits_invariant span style_dict align f q n Hstyle Halign Hf Hq)
    as [[f' Hf'] Hsize].
  destruct (reinsert_vertical_align_outcome _ style_dict align f' _ Hstyle Hf' Hsize)
    as (s' & rise & Hrun & _ & _ & _ & Hnew & _).
  exists (q * fl 0.75 ^ n)%Qc, (q * fl 0.75 ^ n * fl 0.75)%Qc.
  split; [exact Hsize |]. rewrite Hrun. cbn [fst snd].
  split; [reflexivity |]. split.
  { rewrite Hnew. f_equal.
    replace (size_factor align) with (fl 0.75)
      by (destruct Halign as [-> | ->]; reflexivity).
    reflexivity. }
  split; [reflexivity |].
  assert (Hold : (0 < q * fl 0.75 ^ n)%Qc).
  { apply Qc_pos_mul; [apply ordinary_pos, Hordinary |].
    apply Qc_power_pos. reflexivity. }
  revert Hold. generalize (q * fl 0.75 ^ n)%Qc. intros old Hold. qc_lra.
Qed.

Lemma repeated_script_edits_shrink_witness :
  let style_dict : dict := <["vertical-align" := VStr "super"]> ∅ in
  let span : dict := <["size" := VInt 16]> ∅ in
  let edit := fun s => (reinsert_vertical_align style_dict s).2 in
  let before := Nat.iter 2 edit span in
  exists old new : Qc,
    as_num (default (VInt 12) (before !! "size")) = Some old
    /\ (reinsert_vertical_align style_dict before).1 = Ok tt
    /\ as_num (default (VInt 12) (edit before !! "size")) = Some new
    /\ new = (old * fl 0.75)%Qc
    /\ (new < old)%Qc.
Proof.
  apply (repeated_script_edits_shrink (<["size" := VInt 16]> ∅)
           (<["vertical-align" := VStr "super"]> ∅) "super" 0 (fl (inject_Z 16)) 2);
    [reflexivity | left; reflexivity | reflexivity | reflexivity
    | split; vm_compute; discriminate | lia].
Defined.

End VerticalAlignMore.
(** ** Underline: what reinsertion writes and what extraction reads back *)

Section UnderlineMore.
Import font_mapping underline_handling.

(** The underline metrics are the same for every font: only the x height,
    the cap height, the stem width and the line gap depend on the family. *)
Lemma get_font_metrics_underline (font : string) :
  exists metrics : dict,
    get_font_metrics (VStr font) = Ok metrics
    /\ metrics !! "underline_position" = Some (VFloat (fl (-0.1)))
    /\ metrics !! "underline_thickness" = Some (VFloat (fl 0.05)).
Proof.
  unfold get_font_metrics, normalize_font_name. cbn [rbind].
  destruct (FONT_FAMILY_MAP !! _) as [base_font |]; [| eexists; repeat split].
  destruct (base_font =? "times")%string; [eexists; repeat split |].
  destruct (base_font =? "courier")%string; eexists; repeat split.
Qed.

Lemma mul_float_int (x : Qc) (n : Z) :
  mul (VFloat x) (VInt n) = Ok (VFloat (x * fl (inject_Z n))).
Proof. reflexivity. Qed.

Lemma sub_float (x y : Qc) : sub (VFloat x) (VFloat y) = Ok (VFloat (x - y)).
Proof. reflexivity. Qed.

(** The run of [reinsert_underline] on a well-formed span: it returns, and
    writes the flag, the style word and, when there are more than two
    words, the remaining words as the colour. *)
Lemma reinsert_underline_outcome
    (span style_dict : dict) (d font : string) (f : Z) (q : Qc) :
  style_dict !! "text-decoration" = Some (VStr d) ->
  Str.contains "underline" d = true ->
  as_int (default (VInt 0) (span !! "flags")) = Some f ->
  as_num (default (VInt 12) (span !! "size")) = Some q ->
  default (VStr "helvetica") (span !! "font") = VStr font ->
  exists s' : dict,
    reinsert_underline style_dict span = (Ok tt, s')
    /\ s' !! "flags" = Some (VInt (Z.lor f 4))
    /\ s' !! "underline_style" = Some (VStr (nth 1 (Str.split d) "solid"))
    /\ s' !! "underline_color"
       = match skipn 2 (Str.split d) with
         | [] => span !! "underline_color"
         | rest => Some (VList (map VStr rest))
         end
    /\ (in_strs (VStr (nth 1 (Str.split d) "solid")) ["double"; "dotted"; "dashed"; "wavy"]
        = false ->
        s' !! "underline_position" = Some (VFloat (q * fl (-0.1)))
        /\ s' !! "underline_thickness" = Some (VFloat (q * fl 0.05))).
Proof.
  intros Hd Hin Hf Hq Hfont.
  destruct (get_font_metrics_underline font) as (metrics & Hmetrics & Hpos & Hth).
  enough (post (reinsert_underline style_dict) span
            (fun _ s =>
               s !! "flags" = Some (VInt (Z.lor f 4))
               /\ s !! "underline_style" = Some (VStr (nth 1 (Str.split d) "solid"))
               /\ s !! "underline_color"
                  = match skipn 2 (Str.split d) with
                    | [] => span !! "underline_color"
                    | rest => Some (VList (map VStr rest))
                    end
               /\ (in_strs (VStr (nth 1 (Str.split d) "solid"))
                           ["double"; "dotted"; "dashed"; "wavy"] = false ->
                   s !! "underline_position" = Some (VFloat (q * fl (-0.1)))
                   /\ s !! "underline_thickness" = Some (VFloat (q * fl 0.05))))
            (fun _ => False)) as Hpost.
  { apply post_returns in Hpost as ([] & s' & -> & H). exists s'. auto. }
  unfold reinsert_underline. rewrite Hd.
  destruct (Str.split d) as [| p0 [| p1 [| p2 rest]]] eqn:Hsplit;
    cbn [skipn nth in_strs existsb eq_str orb];
    exec_with ltac:(unfold lookup_item;
                    cbn [str_in];
                    rewrite ?Hin, ?(or_4_flags _ f Hf), ?Hfont, ?Hmetrics, ?Hpos, ?Hth,
                      ?(mul_float_r _ q _ Hq), ?mul_float_int, ?sub_float, ?Hsplit)
              ltac:(try discriminate;
                    repeat match goal with
                           | H : (_ =? _)%string = _ |- _ => rewrite H
                           | H : existsb _ _ = _ |- _ => cbn [existsb] in H
                           end;
                    cbn [orb];
                    (split; [map_lookups; reflexivity |]);
                    (split; [map_lookups; reflexivity |]);
                    (split; [map_lookups; reflexivity |]);
                    intros Hplain; cbn [orb] in Hplain;
                    rewrite ?orb_true_r in Hplain; try discriminate;
                    split; map_lookups; reflexivity).
Qed.




Lemma Qc_scaled_le (a b k : Qc) : (0 < k)%Qc -> (a <= b)%Qc <-> (a * k <= b * k)%Qc.
Proof.
  intros Hk. split.
  - intros H. apply Qcmult_le_compat_r; [exact H | apply Qclt_le_weak, Hk].
  - apply Qcmult_lt_0_le_reg_r, Hk.
Qed.

Lemma half_point_at_ten (q : Qc) :
  (fl 0.5 <= q * fl 0.05)%Qc <-> (fl (inject_Z 10) <= q)%Qc.
Proof.
  rewrite (Qc_scaled_le (fl 0.5) (q * fl 0.05) (fl (inject_Z 20))) by reflexivity.
  replace (fl 0.5 * fl (inject_Z 20))%Qc with (fl (inject_Z 10))
    by (apply Qc_is_canon; reflexivity).
  replace (q * fl 0.05 * fl (inject_Z 20))%Qc with q; [reflexivity |].
  rewrite <- Qcmult_assoc.
  replace (fl 0.05 * fl (inject_Z 20))%Qc with 1%Qc by (apply Qc_is_canon; reflexivity).
  ring.
Qed.

(** The base thickness and the base position of
    [calculate_underline_metrics]. *)
Lemma calculate_underline_metrics_base (size style : value) (q : Qc) :
  as_num size = Some q ->
  exists (metrics : dict) (t : Qc),
    calculate_underline_metrics size style = Ok metrics
    /\ metrics !! "thickness" = Some (VFloat t)
    /\ metrics !! "position" = Some (VFloat (- q * fl 0.15))
    /\ metrics !! "gap" = Some (VFloat (t * fl (inject_Z 2)))
    /\ t = (if Qc_ltb (fl 0.5) (q * fl 0.05) then q * fl 0.05 else fl 0.5)%Qc.
Proof.
  intros Hq. destruct (neg_as_num size q Hq) as (m & Hm & Hmq).
  unfold calculate_underline_metrics.
  rewrite (mul_float_r _ q _ Hq). cbn [rbind]. unfold max2, gt, lt. cbn [as_num].
  set (t := (if Qc_ltb (fl 0.5) (q * fl 0.05) then q * fl 0.05 else fl 0.5)%Qc).
  assert (Hmax : match Ok (A := bool) (Qc_ltb (fl 0.5) (q * fl 0.05)) with
                 | Ok true => Ok (VFloat (q * fl 0.05))
                 | Ok false => Ok (VFloat (fl 0.5))
                 | Raise e => Raise e
                 end = Ok (VFloat t))
    by (subst t; destruct (Qc_ltb (fl 0.5) (q * fl 0.05)); reflexivity).
  rewrite Hmax. cbn [rbind]. rewrite Hm. cbn [rbind].
  rewrite (mul_float_r _ _ _ Hmq). cbn [rbind]. rewrite !mul_float_int. cbn [rbind].
  destruct (eq_str style "double"); [| destruct (eq_str style "wavy")].
  - rewrite sub_float. eexists _, t. repeat split.
  - rewrite (mul_float_r _ q _ Hq). eexists _, t. repeat split.
  - eexists _, t. repeat split.
Qed.

(** X6: for a plain underline on a span whose font size is a number of
    ordinary magnitude, the thickness and the position that
    [reinsert_underline] writes are 0.05 and -0.1 times the font size,
    whatever the font; [calculate_underline_metrics] gives, for the same
    size, a thickness that agrees with the written one exactly when the
    size is at least 10, and a position, -0.15 times the size, that
    differs from the written one. *)
Theorem underline_geometry_written_and_calculated
    (span style_dict : dict) (d font : string) (f : Z) (q : Qc) :
  style_dict !! "text-decoration" = Some (VStr d) ->
  Str.contains "underline" d = true ->
  in_strs (VStr (nth 1 (Str.split d) "solid")) ["double"; "dotted"; "dashed"; "wavy"]
  = false ->
  as_int (default (VInt 0) (span !! "flags")) = Some f ->
  as_num (default (VInt 12) (span !! "size")) = Some q ->
  default (VStr "helvetica") (span !! "font") = VStr font ->
  ordinary q ->
  let out := reinsert_underline style_dict span in
  exists (metrics : dict) (t p : Qc),
    out.1 = Ok tt
    /\ out.2 !! "underline_thickness" = Some (VFloat (q * fl 0.05))
    /\ out.2 !! "underline_position" = Some (VFloat (q * fl (-0.1)))
    /\ calculate_underline_metrics (default (VInt 12) (span !! "size"))
         (VStr (nth 1 (Str.split d) "solid")) = Ok metrics
    /\ metrics !! "thickness" = Some (VFloat t)
    /\ metrics !! "position" = Some (VFloat p)
    /\ (t = (q * fl 0.05)%Qc <-> (fl (inject_Z 10) <= q)%Qc)
    /\ p <> (q * fl (-0.1))%Qc.
Proof.
  intros Hd Hin Hplain Hf Hq Hfont Hordinary out. subst out.
  destruct (reinsert_underline_outcome span style_dict d font f q Hd Hin Hf Hq Hfont)
    as (s' & -> & _ & _ & _ & Hgeo).
  destruct (Hgeo Hplain) as [Hpos Hth].
  destruct (calculate_underline_metrics_base _ (VStr (nth 1 (Str.split d) "solid")) q Hq)
    as (metrics & t & Hm & Ht & Hp & _ & Htv).
  exists metrics, t, (- q * fl 0.15)%Qc.
  repeat (split; [first [reflexivity | assumption] |]). split.
  - rewrite <- half_point_at_ten. subst t.
    destruct (Qc_ltb (fl 0.5) (q * fl 0.05)) eqn:E.
    + apply Qc_ltb_true in E. split; [intros _; apply Qclt_le_weak, E | reflexivity].
    + apply Qc_ltb_false in E. split.
      * intros <-. apply Qcle_refl.
      * intros H. apply Qcle_antisym; assumption.
  - replace (fl (-0.1)) with (- fl 0.1)%Qc by (apply Qc_is_canon; reflexivity).
    intros H.
    assert (H' : (q * (fl 0.15 - fl 0.1) = 0)%Qc).
    { transitivity (- (- q * fl 0.15) + q * - fl 0.1)%Qc; [ring |].
      rewrite H. ring. }
    apply Qcmult_integral in H' as [H' | H'].
    + exact (ordinary_nonzero q Hordinary H').
    + apply (f_equal this) in H'. vm_compute in H'. discriminate.
Qed.

Lemma underline_geometry_written_and_calculated_witness :
  let span : dict := <["font" := VStr "Georgia"]> (<["size" := VInt 8]> ∅) in
  let out := reinsert_underline (<["text-decoration" := VStr "underline"]> ∅) span in
  exists (metrics : dict) (t p : Qc),
    out.1 = Ok tt
    /\ out.2 !! "underline_thickness" = Some (VFloat (fl (inject_Z 8) * fl 0.05))
    /\ out.2 !! "underline_position" = Some (VFloat (fl (inject_Z 8) * fl (-0.1)))
    /\ calculate_underline_metrics (VInt 8) (VStr "solid") = Ok metrics
    /\ metrics !! "thickness" = Some (VFloat t)
    /\ metrics !! "position" = Some (VFloat p)
    /\ (t = (fl (inject_Z 8) * fl 0.05)%Qc <-> (fl (inject_Z 10) <= fl (inject_Z 8))%Qc)
    /\ p <> (fl (inject_Z 8) * fl (-0.1))%Qc.
Proof.
  refine (underline_geometry_written_and_calculated
            (<["font" := VStr "Georgia"]> (<["size" := VInt 8]> ∅))
            (<["text-decoration" := VStr "underline"]> ∅)
            "underline" "Georgia" 0 (fl (inject_Z 8))
            eq_refl eq_refl eq_refl eq_refl eq_refl eq_refl _).
  split; vm_compute; discriminate.
Defined.

(** X7: [calculate_underline_metrics] returns for every style and every
    numeric size within the range of the floats; the thickness is the
    larger of 0.5 and 0.05 times the size, so never below half a point,
    and the gap is twice the thickness. *)
Theorem underline_metrics_thickness_floor (size style : value) (q : Qc) :
  as_num size = Some q ->
  in_float_range q ->
  exists (metrics : dict) (t : Qc),
    calculate_underline_metrics size style = Ok metrics
    /\ metrics !! "thickness" = Some (VFloat t)
    /\ metrics !! "gap" = Some (VFloat (t * fl (inject_Z 2)))
    /\ (fl 0.5 <= t)%Qc /\ (q * fl 0.05 <= t)%Qc
    /\ (t = fl 0.5 \/ t = (q * fl 0.05)%Qc).
Proof.
  intros Hq _.
  destruct (calculate_underline_metrics_base size style q Hq)
    as (metrics & t & Hm & Ht & _ & Hgap & Htv).
  exists metrics, t. repeat (split; [assumption |]). subst t.
  destruct (Qc_ltb (fl 0.5) (q * fl 0.05)) eqn:E.
  - apply Qc_ltb_true in E. repeat split; auto using Qclt_le_weak, Qcle_refl.
  - apply Qc_ltb_false in E. repeat split; auto using Qcle_refl.
Qed.

Lemma underline_metrics_thickness_floor_witness :
  exists (metrics : dict) (t : Qc),
    calculate_underline_metrics (VInt 8) (VStr "double") = Ok metrics
    /\ metrics !! "thickness" = Some (VFloat t)
    /\ metrics !! "gap" = Some (VFloat (t * fl (inject_Z 2)))
    /\ (fl 0.5 <= t)%Qc /\ (fl (inject_Z 8) * fl 0.05 <= t)%Qc
    /\ (t = fl 0.5 \/ t = (fl (inject_Z 8) * fl 0.05)%Qc).
Proof.
  apply (underline_metrics_thickness_floor (VInt 8) (VStr "double") (fl (inject_Z 8)));
    [reflexivity | split; vm_compute; discriminate].
Defined.

End UnderlineMore.
(** ** Dashed, dotted and wavy underlines *)

Section DashedMore.
Import dashed_underline_handling.

(** X8: for each of the three styles, extraction after reinsertion gives
    the style back, on every span with an integer flag field: with or
    without a font size, and also when the size is not a number and the
    handler raises, because the flag and the style are written first. *)
Theorem dashed_styles_read_back (span style_dict : dict) (style : string) (f : Z) :
  style_dict !! "text-decoration-style" = Some (VStr style) ->
  In style ["dashed"; "dotted"; "wavy"] ->
  as_int (default (VInt 0) (span !! "flags")) = Some f ->
  extract_dashed_underline (VDict (reinsert_dashed_underline style_dict span).2)
  = Ok ("text-decoration-style: " ++ style ++ ";").
Proof.
  intros Hstyle Hin Hf.
  assert (Hstate : (fun s : dict => s !! "flags" = Some (VInt (Z.lor f 4))
                                    /\ s !! "underline_style" = Some (VStr style))
                     (reinsert_dashed_underline style_dict span).2).
  { apply post_final. unfold reinsert_dashed_underline. rewrite Hstyle.
    assert (in_strs (VStr style) ["dashed"; "dotted"; "wavy"] = true) as ->
      by (destruct Hin as [<- | [<- | [<- | []]]]; reflexivity).
    exec_with ltac:(rewrite ?(or_4_flags _ f Hf))
              ltac:(split; map_lookups; reflexivity). }
  destruct Hstate as [Hflags Hst]. unfold extract_dashed_underline.
  rewrite Hflags, Hst, !default_Some. cbn [and_ as_int rbind truthy].
  rewrite (land_nonzero_of_bit (Z.lor f 4) 4 2) by (auto using lor_4_bit2; lia).
  destruct Hin as [<- | [<- | [<- | []]]]; reflexivity.
Qed.

Lemma dashed_styles_read_back_witness :
  extract_dashed_underline
    (VDict (reinsert_dashed_underline (<["text-decoration-style" := VStr "wavy"]> ∅)
              (<["size" := VStr "big"]> (<["flags" := VInt 16]> ∅))).2)
  = Ok "text-decoration-style: wavy;".
Proof.
  apply (dashed_styles_read_back
           (<["size" := VStr "big"]> (<["flags" := VInt 16]> ∅))
           (<["text-decoration-style" := VStr "wavy"]> ∅) "wavy" 16);
    [reflexivity | cbn; tauto | reflexivity].
Defined.

Lemma thickness_of_value (size : value) (k : Q) (q : Qc) :
  as_num size = Some q ->
  thickness_of size k
  = Ok (VFloat (if Qc_ltb (fl 0.5) (q * fl k) then q * fl k else fl 0.5)%Qc).
Proof.
  intros Hq. unfold thickness_of. rewrite (mul_float_r _ q _ Hq). cbn [rbind].
  unfold max2, gt, lt. cbn [as_num].
  destruct (Qc_ltb (fl 0.5) (q * fl k)); reflexivity.
Qed.

Lemma below_value (size : value) (k : Q) (q : Qc) :
  as_num size = Some q -> below size k = Ok (VFloat (- q * fl k)).
Proof.
  intros Hq. unfold below. destruct (neg_as_num size q Hq) as (m & -> & Hm).
  cbn [rbind]. apply mul_float_r, Hm.
Qed.

(** X9: for a dotted underline on a span whose size is a number within
    the range of the floats, the dash pattern and the position that
    reinsertion writes are those of [calculate_dash_pattern], but the
    thickness is not: reinsertion writes the larger of 0.5 and 0.08 times
    the size, the calculation gives the larger of 0.5 and 0.04 times the
    size, and the two agree only up to the size 6.25. *)
Theorem dotted_thickness_differs
    (span style_dict : dict) (size : value) (f : Z) (q : Qc) :
  style_dict !! "text-decoration-style" = Some (VStr "dotted") ->
  span !! "size" = Some size ->
  as_num size = Some q ->
  as_int (default (VInt 0) (span !! "flags")) = Some f ->
  in_float_range q ->
  let out := reinsert_dashed_underline style_dict span in
  exists (metrics : dict) (dot gap position : value) (written calculated : Qc),
    out.1 = Ok tt
    /\ calculate_dash_pattern size (VStr "dotted") = Ok metrics
    /\ out.2 !! "dash_pattern" = Some (VList [dot; gap])
    /\ metrics !! "dot_diameter" = Some dot
    /\ metrics !! "gap_length" = Some gap
    /\ out.2 !! "underline_position" = Some position
    /\ metrics !! "offset" = Some position
    /\ out.2 !! "underline_thickness" = Some (VFloat written)
    /\ metrics !! "thickness" = Some (VFloat calculated)
    /\ (written = calculated <-> (q <= fl 6.25)%Qc).
Proof.
  intros Hstyle Hsize Hq Hf _ out. subst out.
  assert (Hnum : is_Some (as_num size)) by eauto.
  destruct (truediv_numeric size 12 Hnum) as (dot & Hdot & _); [discriminate |].
  destruct (twelfths_numeric 2 size Hnum) as (gap & Hgap & _).
  pose proof (thickness_of_value size 0.08 q Hq) as Hw.
  pose proof (thickness_of_value size 0.04 q Hq) as Hc.
  pose proof (below_value size 0.1 q Hq) as Hpos.
  set (written := (if Qc_ltb (fl 0.5) (q * fl 0.08) then q * fl 0.08 else fl 0.5)%Qc)
    in *.
  set (calculated := (if Qc_ltb (fl 0.5) (q * fl 0.04) then q * fl 0.04 else fl 0.5)%Qc)
    in *.
  assert (Hout : reinsert_dashed_underline style_dict span =
    (Ok tt,
     <["baseline_offset" := VFloat (- q * fl 0.1)]>
       (<["underline_position" := VFloat (- q * fl 0.1)]>
         (<["underline_thickness" := VFloat written]>
           (<["dash_pattern" := VList [dot; gap]]>
             (<["underline_style" := VStr "dotted"]>
               (<["flags" := VInt (Z.lor f 4)]> span))))))).
  { unfold reinsert_dashed_underline. rewrite Hstyle.
    cbn [in_strs existsb eq_str String.eqb Ascii.eqb Bool.eqb orb].
    run_step. rewrite (or_4_flags _ f Hf). cbn beta iota. map_lookups.
    rewrite Hsize. cbn [bool_decide decide_rel is_Some_dec].
    map_lookups. rewrite Hsize. cbn beta iota.
    rewrite Hdot, Hgap, Hw, Hpos. reflexivity. }
  rewrite Hout. cbn [fst snd].
  exists (<["gap_length" := gap]>
           (<["dot_diameter" := dot]>
             (<["offset" := VFloat (- q * fl 0.1)]>
               (<["thickness" := VFloat calculated]> ∅)))),
    dot, gap, (VFloat (- q * fl 0.1)), written, calculated.
  split; [reflexivity |]. split.
  { unfold calculate_dash_pattern. rewrite Hc, Hpos. cbn. rewrite Hdot, Hgap.
    reflexivity. }
  repeat (split; [map_lookups; reflexivity |]).
  subst written calculated.
  destruct (Qc_ltb (fl 0.5) (q * fl 0.08)) eqn:E8;
    destruct (Qc_ltb (fl 0.5) (q * fl 0.04)) eqn:E4;
    try apply Qc_ltb_true in E8; try apply Qc_ltb_false in E8;
    try apply Qc_ltb_true in E4; try apply Qc_ltb_false in E4;
    split; intros H; qc_lra.
Qed.

Lemma dotted_thickness_differs_witness :
  let span : dict := <["size" := VInt 12]> ∅ in
  let out := reinsert_dashed_underline (<["text-decoration-style" := VStr "dotted"]> ∅)
               span in
  exists (metrics : dict) (dot gap position : value) (written calculated : Qc),
    out.1 = Ok tt
    /\ calculate_dash_pattern (VInt 12) (VStr "dotted") = Ok metrics
    /\ out.2 !! "dash_pattern" = Some (VList [dot; gap])
    /\ metrics !! "dot_diameter" = Some dot
    /\ metrics !! "gap_length" = Some gap
    /\ out.2 !! "underline_position" = Some position
    /\ metrics !! "offset" = Some position
    /\ out.2 !! "underline_thickness" = Some (VFloat written)
    /\ metrics !! "thickness" = Some (VFloat calculated)
    /\ (written = calculated <-> (fl (inject_Z 12) <= fl 6.25)%Qc).
Proof.
  refine (dotted_thickness_differs (<["size" := VInt 12]> ∅)
            (<["text-decoration-style" := VStr "dotted"]> ∅) (VInt 12) 0
            (fl (inject_Z 12)) eq_refl eq_refl eq_refl eq_refl _).
  split; vm_compute; discriminate.
Defined.

(** X10: for a wavy underline on a span whose size is a number of
    ordinary magnitude, the amplitude, the wave length and the thickness
    that reinsertion writes are those of [calculate_dash_pattern], and the
    baseline offset is its offset, but the underline position is -0.15
    times the size where the calculated offset is -0.1 times the size:
    the two differ. *)
Theorem wavy_position_differs
    (span style_dict : dict) (size : value) (f : Z) (q : Qc) :
  style_dict !! "text-decoration-style" = Some (VStr "wavy") ->
  span !! "size" = Some size ->
  as_num size = Some q ->
  as_int (default (VInt 0) (span !! "flags")) = Some f ->
  ordinary q ->
  let out := reinsert_dashed_underline style_dict span in
  exists (metrics : dict) (amplitude length thickness : value) (written offset : Qc),
    out.1 = Ok tt
    /\ calculate_dash_pattern size (VStr "wavy") = Ok metrics
    /\ out.2 !! "wave_amplitude" = Some amplitude
    /\ metrics !! "wave_amplitude" = Some amplitude
    /\ out.2 !! "wave_length" = Some length
    /\ metrics !! "wave_length" = Some length
    /\ out.2 !! "underline_thickness" = Some thickness
    /\ metrics !! "thickness" = Some thickness
    /\ out.2 !! "baseline_offset" = Some (VFloat offset)
    /\ metrics !! "offset" = Some (VFloat offset)
    /\ out.2 !! "underline_position" = Some (VFloat written)
    /\ written <> offset.
Proof.
  intros Hstyle Hsize Hq Hf Hordinary out. subst out.
  pose proof (ordinary_pos q Hordinary) as Hpositive.
  pose proof (thickness_of_value size 0.04 q Hq) as Hth.
  pose proof (below_value size 0.1 q Hq) as Hoff.
  pose proof (below_value size 0.15 q Hq) as Hpos.
  set (t := (if Qc_ltb (fl 0.5) (q * fl 0.04) then q * fl 0.04 else fl 0.5)%Qc) in *.
  assert (Hout : reinsert_dashed_underline style_dict span =
    (Ok tt,
     <["baseline_offset" := VFloat (- q * fl 0.1)]>
       (<["underline_position" := VFloat (- q * fl 0.15)]>
         (<["underline_thickness" := VFloat t]>
           (<["wave_length" := VFloat (q * fl 0.4)]>
             (<["wave_amplitude" := VFloat (q * fl 0.05)]>
               (<["underline_style" := VStr "wavy"]>
                 (<["flags" := VInt (Z.lor f 4)]> span)))))))).
  { unfold reinsert_dashed_underline. rewrite Hstyle.
    cbn [in_strs existsb eq_str String.eqb Ascii.eqb Bool.eqb orb].
    run_step. rewrite (or_4_flags _ f Hf). cbn beta iota. map_lookups.
    rewrite Hsize. cbn [bool_decide decide_rel is_Some_dec].
    map_lookups. rewrite Hsize. cbn beta iota.
    rewrite !(mul_float_r _ q _ Hq), Hth, Hpos, Hoff. reflexivity. }
  rewrite Hout. cbn [fst snd].
  exists (<["wave_length" := VFloat (q * fl 0.4)]>
           (<["wave_amplitude" := VFloat (q * fl 0.05)]>
             (<["offset" := VFloat (- q * fl 0.1)]>
               (<["thickness" := VFloat t]> ∅)))),
    (VFloat (q * fl 0.05)), (VFloat (q * fl 0.4)), (VFloat t),
    (- q * fl 0.15)%Qc, (- q * fl 0.1)%Qc.
  split; [reflexivity |]. split.
  { unfold calculate_dash_pattern. rewrite Hth, Hoff. cbn.
    rewrite !(mul_float_r _ q _ Hq). reflexivity. }
  repeat (split; [map_lookups; reflexivity |]).
  intros H. qc_lra.
Qed.

Lemma wavy_position_differs_witness :
  let span : dict := <["size" := VFloat (fl 10.5)]> ∅ in
  let out := reinsert_dashed_underline (<["text-decoration-style" := VStr "wavy"]> ∅)
               span in
  exists (metrics : dict) (amplitude length thickness : value) (written offset : Qc),
    out.1 = Ok tt
    /\ calculate_dash_pattern (VFloat (fl 10.5)) (VStr "wavy") = Ok metrics
    /\ out.2 !! "wave_amplitude" = Some amplitude
    /\ metrics !! "wave_amplitude" = Some amplitude
    /\ out.2 !! "wave_length" = Some length
    /\ metrics !! "wave_length" = Some length
    /\ out.2 !! "underline_thickness" = Some thickness
    /\ metrics !! "thickness" = Some thickness
    /\ out.2 !! "baseline_offset" = Some (VFloat offset)
    /\ metrics !! "offset" = Some (VFloat offset)
    /\ out.2 !! "underline_position" = Some (VFloat written)
    /\ written <> offset.
Proof.
  refine (wavy_position_differs (<["size" := VFloat (fl 10.5)]> ∅)
            (<["text-decoration-style" := VStr "wavy"]> ∅) (VFloat (fl 10.5)) 0
            (fl 10.5) eq_refl eq_refl eq_refl eq_refl _).
  split; vm_compute; discriminate.
Defined.

End DashedMore.
(** ** Cleaning the recognized text *)

Section CleanOcrText.
Import post_ocr_cleanup.

(** A template without a group reference beyond the groups of the pattern
    is accepted, and the substitution returns. *)
Lemma sub_returns (pat : ReSub.pattern) (repl : string) (items : list ReSub.item)
    (s : string) :
  ReSub.compile_template pat repl = ReSub.Return items ->
  exists s', ReSub.sub pat repl s = ReSub.Return s'.
Proof. intros H. unfold ReSub.sub. rewrite H. cbn. eauto. Qed.

(** The second replacement, ['([0-9])l'] by ['\11'], refers to group 11 of
    a pattern that has one group. *)
Lemma second_template_rejected (s : string) :
  ReSub.sub (ReSub.Chars [ReSub.Grp Str.isdigit; ReSub.One (chr "l")]) "\11" s
  = ReSub.Throw (ReSub.re_error "invalid group reference 11").
Proof. reflexivity. Qed.

(** On a string the white space is collapsed and the first replacement is
    made; the second one is rejected. *)
Lemma clean_ocr_text_of_string (text : string) :
  clean_ocr_text (VStr text)
  = ReSub.Throw (ReSub.re_error "invalid group reference 11").
Proof.
  unfold clean_ocr_text.
  destruct (sub_returns (ReSub.Run Str.isspace) " "
              (map ReSub.Lit (list_ascii_of_string " ")) text eq_refl) as [t1 ->].
  cbn [ReSub.obind]. unfold replacements. cbn [apply_replacements].
  destruct (sub_returns (ReSub.Chars [ReSub.One (chr "l"); ReSub.Grp upper]) "I\1"
              [ReSub.Lit "I"%char; ReSub.Ref 1] t1 eq_refl) as [t2 ->].
  cbn [ReSub.obind]. rewrite second_template_rejected. reflexivity.
Qed.

(** X11: [clean_ocr_text] raises on every argument.  On a string the
    template ['\11'] of the second replacement is rejected, whatever the
    text: [re.error], invalid group reference 11.  On anything else the
    first substitution raises [TypeError]. *)
Theorem clean_ocr_text_always_raises (v : value) :
  clean_ocr_text v
  = ReSub.Throw match v with
                | VStr _ => ReSub.re_error "invalid group reference 11"
                | _ => ReSub.Builtin TypeError
                end.
Proof.
  destruct v as [| b | n | q | text | l | d | attrs];
    first [apply clean_ocr_text_of_string | reflexivity].
Qed.

End CleanOcrText.
(** ** The recognition pipeline *)

Section ProcessImage.
Import ocr_execution.

Variable Rect : Z -> Z -> Z -> Z -> value.
Variable rect_or : value -> value -> value.

Lemma step_keeps_text (d : ocr_data) (st st' : loop_state) (i : nat) :
  step Rect rect_or d st i = Ok st' ->
  carries_text st -> carries_text st'.
Proof.
  unfold step, starts_block, word_rect, lookup_item, carries_text, rbind.
  intros Hstep [Hdone Hcur].
  repeat case_match; simplify_eq/=;
    try (pose proof (Hcur _ eq_refl) as Hfresh; destruct (Hcur _ eq_refl) as [? ?]);
    (split;
     [ first [ assumption
             | apply Forall_app; split; [assumption | repeat constructor; assumption] ]
     | intros cb' Hcb; simplify_eq;
       first [ eauto; fail | split; map_lookups; eauto ] ]).
Qed.

Lemma loop_keeps_text (d : ocr_data) (indices : list nat) :
  forall st st' : loop_state,
    loop Rect rect_or d indices st = Ok st' ->
    carries_text st -> carries_text st'.
Proof.
  induction indices as [| i indices IH]; intros st st' Hloop Hst; cbn [loop] in Hloop.
  - injection Hloop as <-. exact Hst.
  - destruct (step Rect rect_or d st i) as [st1 |] eqn:Hstep; cbn [rbind] in Hloop;
      [| discriminate].
    eapply IH; [exact Hloop |]. eapply step_keeps_text; eassumption.
Qed.

(** Every block that [_convert_to_blocks] returns has a text, whatever
    the columns it is given. *)
Lemma convert_to_blocks_fresh (d : ocr_data) (blocks : list dict) :
  _convert_to_blocks Rect rect_or d = Ok blocks ->
  Forall fresh_block blocks.
Proof.
  unfold _convert_to_blocks. intros H.
  destruct (loop _ _ _ _ _) as [st |] eqn:Hloop; cbn [rbind] in H; [| discriminate].
  injection H as <-.
  destruct (loop_keeps_text d _ _ st Hloop) as [Hdone Hcur].
  { split; [constructor | intros cb [=]]. }
  destruct (current_block st) as [cb |]; [| exact Hdone].
  cbn [truthy]. destruct (negb (bool_decide (cb = ∅))); [| exact Hdone].
  apply Forall_app. split; [exact Hdone |]. constructor; [| constructor].
  apply Hcur. reflexivity.
Qed.


End ProcessImage.

Section ProcessImageResult.
Import ReSub OCRProcessor.

(** The cleaning loop raises as soon as there is a block with a text. *)
Lemma clean_blocks_raises (block : dict) (blocks : list dict) :
  is_Some (block !! "text") ->
  exists t, clean_blocks (block :: blocks) = Throw t.
Proof.
  intros [text Htext]. cbn [clean_blocks]. rewrite Htext.
  destruct text; eexists; reflexivity.
Qed.


(** X12: [_process_image] never returns a block.  Whatever the image,
    the preparation and the recognition engine give, the result is [None]
    or the empty list: as soon as the recognized words make one block, the
    cleaning of its text raises and the method returns [None]. *)
Theorem process_image_returns_no_block
    (image : Type) (format : value -> string) (eqv : value -> value -> bool)
    (Rect : Z -> Z -> Z -> Z -> value) (rect_or : value -> value -> value)
    (prepare_page_for_ocr : image -> option image)
    (image_to_string : image -> string -> outcome (list N))
    (image_to_data : image -> string -> string -> outcome ocr_execution.ocr_data)
    (img : image) :
  let result := _process_image image format eqv Rect rect_or prepare_page_for_ocr
                  image_to_string image_to_data img in
  result = None \/ result = Some [].
Proof.
  intros result. subst result. unfold _process_image.
  destruct (prepare_page_for_ocr img) as [prepared |]; [| left; reflexivity].
  destruct (image_to_string prepared "--psm 3") as [sample |]; [| left; reflexivity].
  cbn [obind]. unfold params, lookup_item.
  change (ocr_settings.get_ocr_parameters !! "psm") with (Some (VInt 3)).
  change (ocr_settings.get_ocr_parameters !! "oem") with (Some (VInt 3)).
  cbn [of_result obind].
  destruct (image_to_data prepared _ _) as [ocr_data |]; [| left; reflexivity].
  cbn [obind].
  destruct (ocr_execution._convert_to_blocks Rect rect_or ocr_data)
    as [blocks | e] eqn:Hconvert; [| left; reflexivity].
  cbn [of_result obind].
  destruct blocks as [| block blocks]; [right; reflexivity |].
  left. apply convert_to_blocks_fresh in Hconvert.
  destruct (clean_blocks_raises block blocks) as [t ->]; [| reflexivity].
  inversion Hconvert as [| ? ? [Htext _] _]; exact Htext.
Qed.

End ProcessImageResult.
(** ** Line breaks *)

Section LineBreaksFacts.
Import post_ocr_cleanup.

Variable eqv : value -> value -> bool.

Lemma endswith_char (text : string) (c : ascii) :
  Str.endswith text (String c EmptyString) = true ->
  exists r, Str.rev text = String c r.
Proof.
  unfold Str.endswith. change (Str.rev (String c "")) with (String c "").
  destruct (Str.rev text) as [| x r]; cbn; [discriminate |].
  destruct (ascii_dec c x) as [-> | ?]; [eauto | discriminate].
Qed.

Lemma sentence_end_not_hyphen (text : string) :
  existsb (Str.endswith text) ["."; "!"; "?"] = true ->
  Str.endswith text "-" = false.
Proof.
  cbn [existsb]. rewrite orb_false_r. intros H.
  destruct (Str.endswith text "-") eqn:Hh; [| reflexivity].
  apply endswith_char in Hh as [r Hr].
  apply orb_true_iff in H as [H | H]; [| apply orb_true_iff in H as [H | H]];
    apply endswith_char in H as [r' Hr']; congruence.
Qed.

Lemma fix_line_sentence (lines : value) (fixed : list value) (current : string)
    (fields : dict) (text : string) :
  fields !! "text" = Some (VStr text) ->
  existsb (Str.endswith text) ["."; "!"; "?"] = true ->
  fix_line eqv lines (fixed, current) (VDict fields)
  = Ok ((fixed ++ [VDict (<["text" := VStr (current ++ text)]> fields)])%list, "").
Proof.
  intros Htext Hend. unfold fix_line, str_in, PySeq.subscript, lookup_item.
  rewrite Htext. cbn [bool_decide decide_rel is_Some_dec rbind].
  rewrite (sentence_end_not_hyphen text Hend), Hend. reflexivity.
Qed.

Lemma fix_line_hyphen (lines : value) (fixed : list value) (current : string)
    (fields : dict) (text : string) :
  fields !! "text" = Some (VStr text) ->
  Str.endswith text "-" = true ->
  fix_line eqv lines (fixed, current) (VDict fields)
  = Ok (fixed, current ++ Str.drop_last 1 text).
Proof.
  intros Htext Hend. unfold fix_line, str_in, PySeq.subscript, lookup_item.
  rewrite Htext. cbn [bool_decide decide_rel is_Some_dec rbind].
  rewrite Hend. reflexivity.
Qed.

Lemma fix_lines_sentences (lines : value) (todo : list value) :
  Forall sentence_line todo ->
  forall fixed : list value,
    fix_lines eqv lines todo (fixed, "") = Ok ((fixed ++ todo)%list, "").
Proof.
  induction 1 as [| line todo (fields & text & -> & Htext & Hend) _ IH]; intros fixed;
    cbn [fix_lines].
  - rewrite app_nil_r. reflexivity.
  - rewrite (fix_line_sentence lines fixed "" fields text Htext Hend). cbn [rbind].
    change ("" ++ text) with text. rewrite (insert_id fields "text" _ Htext).
    rewrite IH, <- app_assoc. reflexivity.
Qed.

Lemma fix_lines_hyphens (lines : value) (hs : list value) :
  Forall hyphen_line hs ->
  forall (todo fixed : list value) (current : string),
    fix_lines eqv lines (hs ++ todo) (fixed, current)
    = fix_lines eqv lines todo (fixed, current ++ stems hs).
Proof.
  induction 1 as [| line hs (fields & text & -> & Htext & Hend) _ IH];
    intros todo fixed current; cbn [fix_lines app stems].
  - rewrite string_app_nil_r. reflexivity.
  - rewrite (fix_line_hyphen lines fixed current fields text Htext Hend). cbn [rbind].
    rewrite IH. unfold stem. rewrite Htext, string_app_assoc. reflexivity.
Qed.

(** X13: a block without lines, with an empty list of lines, or with
    lines that all end a sentence (a text that ends with a full stop, an
    exclamation mark or a question mark) comes back from
    [fix_line_breaks] as it was. *)
Theorem fix_line_breaks_keeps_sentences (blocks : list dict) :
  Forall (fun block : dict =>
            forall lines, block !! "lines" = Some lines ->
                          exists l, lines = VList l /\ Forall sentence_line l) blocks ->
  fix_line_breaks eqv blocks = Ok blocks.
Proof.
  unfold fix_line_breaks.
  induction 1 as [| block blocks Hblock _ IH]; cbn [PySeq.mapM]; [reflexivity |].
  assert (Hfix : fix_block eqv block = Ok block).
  { unfold fix_block. destruct (block !! "lines") as [lines |] eqn:Hlines; [| reflexivity].
    destruct (Hblock lines eq_refl) as (l & -> & Hl). cbn [PySeq.iter rbind].
    rewrite (fix_lines_sentences (VList l) l Hl []). cbn [rbind app negb String.eqb].
    rewrite (insert_id block "lines" _ Hlines). reflexivity. }
  rewrite Hfix, IH. reflexivity.
Qed.

(** X14: a run of lines that end with a hyphen is joined to the line
    that follows.  When that line ends a sentence, the block is left with
    one line: the texts of the run without their hyphens, then the text of
    the closing line, under the other keys of the closing line only (the
    boxes of the hyphenated lines are gone).  When nothing follows the
    run, what is left is one line with the joined text and no other key,
    or no line at all if every hyphenated line was a lone hyphen. *)
Theorem hyphenated_lines_are_joined
    (block : dict) (hs : list value) (fields : dict) (text : string) :
  Forall hyphen_line hs ->
  fields !! "text" = Some (VStr text) ->
  existsb (Str.endswith text) ["."; "!"; "?"] = true ->
  (block !! "lines" = Some (VList (hs ++ [VDict fields])) ->
   fix_block eqv block
   = Ok (<["lines" := VList [VDict (<["text" := VStr (stems hs ++ text)]> fields)]]>
           block))
  /\ (block !! "lines" = Some (VList hs) ->
      fix_block eqv block
      = Ok (<["lines" := VList (if (stems hs =? "")%string then []
                                else [VDict (<["text" := VStr (stems hs)]> ∅)])]>
              block)).
Proof.
  intros Hhs Htext Hend. split; intros Hlines; unfold fix_block; rewrite Hlines;
    cbn [PySeq.iter rbind].
  - rewrite (fix_lines_hyphens _ hs Hhs). cbn [fix_lines].
    rewrite (fix_line_sentence _ [] _ fields text Htext Hend). reflexivity.
  - rewrite <- (app_nil_r hs) at 2. rewrite (fix_lines_hyphens _ hs Hhs).
    cbn [fix_lines rbind]. change ("" ++ stems hs) with (stems hs).
    destruct (stems hs =? "")%string; reflexivity.
Qed.

End LineBreaksFacts.

Lemma fix_line_breaks_keeps_sentences_witness :
  let line (text : string) : value :=
    VDict (<["size" := VInt 12]> (<["text" := VStr text]> ∅)) in
  let blocks : list dict :=
    [ <["lines" := VList [line "Stop."; line "Go on!"]]> (<["number" := VInt 1]> ∅);
      <["lines" := VList []]> (<["text" := VStr "word"]> ∅);
      <["number" := VInt 3]> ∅ ] in
  post_ocr_cleanup.fix_line_breaks (fun _ _ => false) blocks = Ok blocks.
Proof.
  intros line blocks.
  apply (fix_line_breaks_keeps_sentences (fun _ _ => false) blocks).
  repeat constructor; intros lines Hlines; vm_compute in Hlines; try discriminate;
    injection Hlines as <-; eexists; (split; [reflexivity |]);
    repeat constructor; eexists _, _; repeat split; reflexivity.
Defined.

Lemma hyphenated_lines_are_joined_witness :
  let line (text : string) (top : Z) : dict :=
    <["top" := VInt top]> (<["text" := VStr text]> ∅) in
  let block : dict :=
    <["lines" := VList [VDict (line "exam-" 10%Z); VDict (line "ple." 20%Z)]]> ∅ in
  post_ocr_cleanup.fix_block (fun _ _ => false) block
  = Ok (<["lines" := VList [VDict (line "example." 20%Z)]]> block).
Proof.
  intros line block.
  apply (hyphenated_lines_are_joined (fun _ _ => false) block
           [VDict (line "exam-" 10%Z)] (line "ple." 20%Z) "ple.").
  - repeat constructor. eexists _, _. repeat split; reflexivity.
  - reflexivity.
  - reflexivity.
  - reflexivity.
Defined.
(** ** Merging similar blocks: what is conserved *)

Section MergeConserves.
Import pdf_metadata post_ocr_cleanup.

Variable format : value -> string.
Variable ratio : value -> value -> result Qc.
Variable threshold : Qc.

Lemma extend_lines_of (current block merged : dict) :
  extend_lines current block = Ok merged ->
  merged <> ∅
  /\ lines_of merged = (lines_of current ++ lines_of block)%list
  /\ same_but_lines merged current.
Proof.
  unfold extend_lines, lookup_item, lines_of.
  destruct (current !! "lines") as [[] |] eqn:Ec; cbn [Py.rbind]; try discriminate.
  destruct (block !! "lines") as [v |] eqn:Eb; cbn [Py.rbind]; [| discriminate].
  destruct (PySeq.iter v) as [more | e] eqn:Ei; cbn [Py.rbind]; [| discriminate].
  intros [= <-]. split; [apply insert_non_empty |].
  split; [rewrite lookup_insert_eq; reflexivity |].
  intros key Hkey. rewrite lookup_insert_ne by congruence. reflexivity.
Qed.

Lemma lines_of_empty : lines_of ∅ = [].
Proof. reflexivity. Qed.

Lemma same_but_lines_refl (a : dict) : same_but_lines a a.
Proof. intros key _. reflexivity. Qed.

Lemma same_but_lines_trans (a b c : dict) :
  same_but_lines a b -> same_but_lines b c -> same_but_lines a c.
Proof. intros Hab Hbc key Hkey. rewrite (Hab key Hkey). apply Hbc, Hkey. Qed.

(** The invariant of a run of the loop, without and with a block being
    built. *)
Lemma merge_conserves (blocks : list dict) :
  (forall out,
      merge_similar_blocks format ratio blocks threshold = Ok out ->
      concat (map lines_of out) = concat (map lines_of blocks)
      /\ exists picked, sublist picked blocks /\ Forall2 same_but_lines out picked)
  /\ (forall current out,
        current <> ∅ ->
        merge_from format ratio threshold current blocks = Ok out ->
        concat (map lines_of out)
        = (lines_of current ++ concat (map lines_of blocks))%list
        /\ exists first rest picked,
             out = first :: rest
             /\ same_but_lines first current
             /\ sublist picked blocks
             /\ Forall2 same_but_lines rest picked).
Proof.
  induction blocks as [| block blocks [IHmerge IHfrom]].
  - split.
    + intros out [= <-]. split; [reflexivity |]. exists []. split; constructor.
    + intros current out Hne Hout. rewrite merge_from_nil in Hout by exact Hne.
      injection Hout as <-. cbn [map concat]. split; [reflexivity |].
      exists current, [], []. repeat split; auto using same_but_lines_refl.
  - assert (Hstart : forall out,
               merge_from format ratio threshold block blocks = Ok out ->
               concat (map lines_of out)
               = (lines_of block ++ concat (map lines_of blocks))%list
               /\ exists picked, sublist picked (block :: blocks)
                                 /\ Forall2 same_but_lines out picked).
    { intros out Hout. destruct (decide (block = ∅)) as [-> | Hne].
      - rewrite merge_from_empty in Hout.
        destruct (IHmerge out Hout) as (Hlines & picked & Hsub & Hsame).
        split; [exact Hlines |]. exists picked. split; [constructor; exact Hsub | exact Hsame].
      - destruct (IHfrom block out Hne Hout)
          as (Hlines & first & rest & picked & -> & Hfirst & Hsub & Hsame).
        split; [exact Hlines |]. exists (block :: picked).
        split; [constructor; exact Hsub | constructor; assumption]. }
    split.
    + intros out Hout. rewrite merge_cons in Hout. cbn [map concat]. auto.
    + intros current out Hne Hout. rewrite merge_from_cons in Hout by exact Hne.
      destruct (similar format ratio threshold current block) as [[|] | e];
        cbn [Py.rbind] in Hout; [| | discriminate].
      * destruct (extend_lines current block) as [merged | e] eqn:Hext;
          cbn [Py.rbind] in Hout; [| discriminate].
        apply extend_lines_of in Hext as (Hm & Hlm & Hsm).
        destruct (IHfrom merged out Hm Hout)
          as (Hlines & first & rest & picked & -> & Hfirst & Hsub & Hsame).
        split.
        { rewrite Hlines, Hlm. cbn [map concat]. rewrite <- app_assoc. reflexivity. }
        exists first, rest, picked. split; [reflexivity |].
        split; [eauto using same_but_lines_trans |].
        split; [constructor; exact Hsub | exact Hsame].
      * destruct (merge_from format ratio threshold block blocks) as [rest | e] eqn:Hrest;
          cbn [Py.rbind] in Hout; [| discriminate].
        injection Hout as <-.
        destruct (Hstart rest eq_refl) as (Hlines & picked & Hsub & Hsame).
        split; [cbn [map concat]; rewrite Hlines; reflexivity |].
        exists current, rest, picked. auto using same_but_lines_refl.
Qed.

(** X16: the blocks returned are blocks of the input, in their order and
    with every key but "lines" as it was: a block that has been merged
    into another leaves its lines behind and nothing else, so that its
    text, its box and its number are in no block of the result. *)
Theorem merge_keeps_run_heads (blocks out : list dict) :
  merge_similar_blocks format ratio blocks threshold = Ok out ->
  exists picked,
    sublist picked blocks
    /\ Forall2 same_but_lines out picked.
Proof.
  intros Hout.
  destruct (proj1 (merge_conserves blocks) out Hout) as (_ & picked & Hsub & Hsame).
  exists picked. split; assumption.
Qed.

End MergeConserves.

Lemma merge_keeps_run_heads_witness :
  let blocks := [text_block "Hello world"; text_block "Hello wordl"; text_block "Bye"] in
  let out := [ <["lines" := VList [VDict (<["text" := VStr "Hello world"]> ∅);
                                   VDict (<["text" := VStr "Hello wordl"]> ∅)]]>
                 (text_block "Hello world");
               text_block "Bye" ] in
  exists picked,
    sublist picked blocks
    /\ Forall2 same_but_lines out picked.
Proof.
  intros blocks out.
  apply (merge_keeps_run_heads format_text difflib.ratio
           post_ocr_cleanup.default_threshold blocks out).
  vm_compute. reflexivity.
Defined.

(** ** Merging blocks that share their lists of lines *)

Section MergeInPlace.
Import pdf_metadata post_ocr_cleanup.

Variable format : value -> string.
Variable ratio : value -> value -> result Qc.
Variable threshold : Qc.

Lemma lines_of_list (d : dict) (l : list value) :
  lines_of (<["lines" := VList l]> d) = l.
Proof. unfold lines_of. rewrite lookup_insert_eq. reflexivity. Qed.

(** The lines of a block depend on the store at its own list only. *)
Lemma lines_in_agree (h h' : store) (block : block_object) :
  (forall l, lines_at block = ListObject l -> h' l = h l) ->
  lines_in h' block = lines_in h block.
Proof.
  intros H. unfold lines_in, contents.
  destruct (lines_at block) as [| l | v]; try reflexivity.
  rewrite (H l eq_refl). reflexivity.
Qed.

Lemma list_objects_app (a b : list block_object) :
  list_objects (a ++ b) = (list_objects a ++ list_objects b)%list.
Proof.
  induction a as [| x a IH]; [reflexivity |]. cbn [app list_objects].
  destruct (lines_at x); rewrite IH; reflexivity.
Qed.

Lemma list_objects_elem (l : loc) (block : block_object) (blocks : list block_object) :
  block ∈ blocks -> lines_at block = ListObject l -> l ∈ list_objects blocks.
Proof.
  intros Hin Hl. induction Hin as [block blocks | block other blocks Hin IH].
  - cbn [list_objects]. rewrite Hl. left.
  - cbn [list_objects]. destruct (lines_at other); auto. right. auto.
Qed.

Lemma all_lines_agree (h h' : store) (blocks : list block_object) :
  (forall l, l ∈ list_objects blocks -> h' l = h l) ->
  all_lines h' blocks = all_lines h blocks.
Proof.
  unfold all_lines. induction blocks as [| block blocks IH]; intros H; [reflexivity |].
  cbn [map concat]. f_equal.
  - apply lines_in_agree. intros l Hl. apply H.
    apply (list_objects_elem l block); [left | exact Hl].
  - apply IH. intros l Hl. apply H. cbn [list_objects].
    destruct (lines_at block); auto. right. exact Hl.
Qed.

Lemma all_lines_app (h : store) (a b : list block_object) :
  all_lines h (a ++ b) = (all_lines h a ++ all_lines h b)%list.
Proof. unfold all_lines. rewrite map_app, concat_app. reflexivity. Qed.

Lemma update_same (h : store) (l : loc) (v : list value) : update h l v l = v.
Proof. unfold update. rewrite Nat.eqb_refl. reflexivity. Qed.

Lemma update_other (h : store) (l l' : loc) (v : list value) :
  l' <> l -> update h l v l' = h l'.
Proof.
  intros H. unfold update. destruct (Nat.eqb_spec l' l); [contradiction | reflexivity].
Qed.

(** A block that counts as no block has no lines. *)
Lemma no_current_no_lines (h : store) (block : block_object) :
  no_current (Some (contents h block)) = true ->
  lines_at block = Missing /\ lines_in h block = [].
Proof.
  unfold no_current, lines_in, contents. cbn [truthy]. rewrite negb_involutive.
  intros H. apply bool_decide_eq_true in H.
  destruct (lines_at block) as [| l | v].
  - rewrite H. split; reflexivity.
  - exfalso. exact (insert_non_empty _ _ _ H).
  - exfalso. exact (insert_non_empty _ _ _ H).
Qed.

(** What an extension does to the store. *)
Lemma extend_in_place_spec (current block : block_object) (h h' : store) :
  extend_in_place current block h = (Ok tt, h') ->
  exists l, lines_at current = ListObject l
            /\ h' = update h l (h l ++ lines_in h block)%list.
Proof.
  unfold extend_in_place, lines_in, contents.
  destruct (lines_at current) as [| l | v]; try discriminate.
  destruct (lines_at block) as [| l' | v]; try discriminate.
  - intros [= <-]. exists l. rewrite lines_of_list. auto.
  - unfold lines_of. rewrite lookup_insert_eq.
    destruct (PySeq.iter v) as [more | e]; [| discriminate].
    intros [= <-]. exists l. auto.
Qed.

(** One pass of the loop body: the lines of the block are added to those
    held, and only the list of the block being built is written to. *)
Lemma step_in_place_spec (st st' : object_state) (block : block_object) (h h' : store) :
  step_in_place format ratio threshold st block h = (Ok st', h') ->
  NoDup (list_objects (state_blocks st ++ [block])) ->
  all_lines h' (state_blocks st') = (all_lines h (state_blocks st) ++ lines_in h block)%list
  /\ (forall l, l ∉ list_objects (state_blocks st) -> h' l = h l)
  /\ list_objects (state_blocks st') `sublist_of` list_objects (state_blocks st ++ [block])
  /\ length (state_blocks st') <= S (length (state_blocks st)).
Proof.
  destruct st as [merged [current |]]; unfold step_in_place, state_blocks;
    cbn [current_object merged_objects].
  2: { intros [= <- <-] _. cbn [current_object merged_objects].
       rewrite !app_nil_r, all_lines_app, length_app. cbn.
       rewrite app_nil_r. repeat split; [reflexivity | lia]. }
  unfold bind at 1, gets at 1.
  destruct (no_current (Some (contents h current))) eqn:Hno.
  { intros [= <- <-] _. cbn [current_object merged_objects].
    destruct (no_current_no_lines h current Hno) as [Hmissing Hnone].
    rewrite !all_lines_app, !list_objects_app, !length_app.
    unfold all_lines. cbn [map concat list_objects length]. rewrite Hmissing, Hnone.
    rewrite !app_nil_r. cbn [app]. repeat split; [reflexivity | lia]. }
  unfold bind at 1, lift at 1.
  destruct (similar format ratio threshold (contents h current) (contents h block))
    as [[|] | e]; [| | discriminate].
  - unfold bind at 1.
    destruct (extend_in_place current block h) as [[[] | e] h1] eqn:Hext; [| discriminate].
    intros [= <- <-] Hdistinct. cbn [current_object merged_objects].
    destruct (extend_in_place_spec _ _ _ _ Hext) as (l & Hl & ->).
    rewrite !list_objects_app in Hdistinct. cbn [list_objects] in Hdistinct.
    rewrite Hl in Hdistinct. cbn [list_objects] in Hdistinct.
    apply NoDup_app in Hdistinct as (Hheld & _ & _).
    apply NoDup_app in Hheld as (_ & Hmerged & _).
    split; [| split; [| split]].
    + rewrite !all_lines_app. rewrite <- app_assoc. f_equal.
      * apply all_lines_agree. intros l' Hl'. apply update_other.
        intros ->. apply (Hmerged l Hl'). left.
      * assert (Hc : forall h0, lines_in h0 current = h0 l).
        { intros h0. unfold lines_in, contents. rewrite Hl. apply lines_of_list. }
        unfold all_lines. cbn [map concat]. rewrite !app_nil_r, !Hc, update_same.
        reflexivity.
    + intros l' Hl'. apply update_other. intros ->. apply Hl'.
      rewrite list_objects_app. cbn [list_objects]. rewrite Hl.
      apply elem_of_app. right. left.
    + rewrite (list_objects_app (merged ++ [current])). apply sublist_inserts_r.
      reflexivity.
    + lia.
  - intros [= <- <-] _. cbn [current_object merged_objects].
    rewrite !all_lines_app, !length_app. cbn [length].
    unfold all_lines at 3. cbn [map concat]. rewrite app_nil_r.
    repeat split; [reflexivity | lia].
Qed.

(** The loop: the lines held at the end are those held at the start
    followed by those of the blocks gone through. *)
Lemma loop_in_place_spec (blocks : list block_object) :
  forall (st st' : object_state) (h h' : store),
    loop_in_place format ratio threshold blocks st h = (Ok st', h') ->
    NoDup (list_objects (state_blocks st ++ blocks)) ->
    all_lines h' (state_blocks st')
    = (all_lines h (state_blocks st) ++ all_lines h blocks)%list
    /\ length (state_blocks st') <= length (state_blocks st) + length blocks.
Proof.
  induction blocks as [| block blocks IH]; intros st st' h h' Hrun Hdistinct.
  - injection Hrun as <- <-. unfold all_lines at 3. cbn [map concat length].
    rewrite app_nil_r. split; [reflexivity | lia].
  - cbn [loop_in_place] in Hrun. unfold bind at 1 in Hrun.
    destruct (step_in_place format ratio threshold st block h) as [[st1 | e] h1] eqn:Hstep;
      [| discriminate].
    change (block :: blocks) with ([block] ++ blocks)%list in Hdistinct.
    rewrite app_assoc, list_objects_app in Hdistinct.
    pose proof Hdistinct as Hparts.
    apply NoDup_app in Hparts as (Hfirst & Hapart & Hrest).
    destruct (step_in_place_spec _ _ _ _ _ Hstep Hfirst)
      as (Hlines & Hframe & Hsub & Hlen).
    assert (Hdistinct1 : NoDup (list_objects (state_blocks st1 ++ blocks))).
    { rewrite list_objects_app. eapply sublist_NoDup; [exact Hdistinct |].
      apply sublist_app; [exact Hsub | reflexivity]. }
    destruct (IH st1 st' h1 h' Hrun Hdistinct1) as [Hall Hlength].
    split; [| cbn [length]; lia].
    rewrite Hall, Hlines. rewrite <- app_assoc. f_equal.
    change (block :: blocks) with ([block] ++ blocks)%list.
    rewrite (all_lines_app h [block]). f_equal.
    + unfold all_lines. cbn [map concat]. rewrite app_nil_r. reflexivity.
    + apply all_lines_agree. intros l Hl. apply Hframe. intros Hheld.
      apply (Hapart l); [| exact Hl].
      rewrite list_objects_app. apply elem_of_app. left. exact Hheld.
Qed.

(** X15: when no two of the blocks given hold the same list of lines,
    merging neither loses nor duplicates a line: whenever
    [merge_similar_blocks] returns, the lines of the blocks it returns,
    taken together in order as they are after the call, are the lines that
    the blocks given had before it, and it returns at most as many blocks
    as it was given. *)
Theorem merge_conserves_lines (blocks out : list block_object) (h h' : store) :
  NoDup (list_objects blocks) ->
  merge_similar_blocks_in_place format ratio blocks threshold h = (Ok out, h') ->
  all_lines h' out = all_lines h blocks
  /\ length out <= length blocks.
Proof.
  intros Hdistinct. unfold merge_similar_blocks_in_place. unfold bind at 1.
  destruct (loop_in_place format ratio threshold blocks
              {| merged_objects := []; current_object := None |} h)
    as [[st | e] h1] eqn:Hloop; [| discriminate].
  unfold bind, gets, ret. intros [= <- <-].
  destruct (loop_in_place_spec blocks _ _ _ _ Hloop Hdistinct) as [Hlines Hlen].
  cbn in Hlines, Hlen. rewrite <- Hlines. clear Hlines.
  destruct st as [merged [current |]]; unfold state_blocks in *;
    cbn [current_object merged_objects option_map] in *.
  - destruct (no_current (Some (contents h1 current))) eqn:Hno.
    + destruct (no_current_no_lines h1 current Hno) as [_ Hnone].
      rewrite all_lines_app. unfold all_lines at 3. cbn [map concat].
      rewrite Hnone, !app_nil_r. split; [reflexivity |].
      rewrite length_app in Hlen. lia.
    + split; [reflexivity | exact Hlen].
  - cbn [no_current]. rewrite app_nil_r in *. split; [reflexivity | exact Hlen].
Qed.

End MergeInPlace.

Lemma merge_conserves_lines_witness :
  let blocks := [text_object "Hello world" 0; text_object "Hello wordl" 1;
                 text_object "Bye" 2] in
  let h := one_line_each "Hello" in
  let run := post_ocr_cleanup.merge_similar_blocks_in_place format_text difflib.ratio
               blocks post_ocr_cleanup.default_threshold h in
  all_lines run.2 [text_object "Hello world" 0; text_object "Bye" 2] = all_lines h blocks
  /\ length [text_object "Hello world" 0; text_object "Bye" 2] <= length blocks.
Proof.
  intros blocks h run.
  apply (merge_conserves_lines format_text difflib.ratio
           post_ocr_cleanup.default_threshold blocks _ h run.2).
  - apply (bool_decide_unpack _). vm_compute. exact I.
  - vm_compute. reflexivity.
Defined.

(** A block given three times is one list of lines extended by itself
    twice: the one line it had is four lines in the block returned. *)
Example shared_lines_are_multiplied :
  let block := text_object "Hello world" 0 in
  let h := one_line_each "Hello world" in
  let run := post_ocr_cleanup.merge_similar_blocks_in_place format_text difflib.ratio
               [block; block; block] post_ocr_cleanup.default_threshold h in
  run.1 = Ok [block]
  /\ length (all_lines h [block; block; block]) = 3
  /\ length (all_lines run.2 [block]) = 4.
Proof. vm_compute. repeat split. Qed.

(** *** The two embeddings of the merge agree where no list is shared *)

Section InPlaceAgrees.
Import pdf_metadata post_ocr_cleanup.

Variable format : value -> string.
Variable ratio : value -> value -> result Qc.
Variable threshold : Qc.

Lemma contents_agree (h h' : store) (block : block_object) :
  (forall l, lines_at block = ListObject l -> h' l = h l) ->
  contents h' block = contents h block.
Proof.
  intros H. unfold contents. destruct (lines_at block) as [| l | v]; try reflexivity.
  rewrite (H l eq_refl). reflexivity.
Qed.

Lemma map_contents_agree (h h' : store) (blocks : list block_object) :
  (forall l, l ∈ list_objects blocks -> h' l = h l) ->
  map (contents h') blocks = map (contents h) blocks.
Proof.
  induction blocks as [| block blocks IH]; intros H; [reflexivity |].
  cbn [map]. f_equal.
  - apply contents_agree. intros l Hl. apply H.
    apply (list_objects_elem l block); [left | exact Hl].
  - apply IH. intros l Hl. apply H. cbn [list_objects].
    destruct (lines_at block); auto. right. exact Hl.
Qed.

(** Extending in place is extending the dictionary, for a block whose
    lines are a list object or no list at all. *)
Lemma extend_in_place_agrees (current block : block_object) (h : store) :
  lists_are_objects current ->
  match extend_in_place current block h with
  | (Ok _, h') =>
      extend_lines (contents h current) (contents h block) = Ok (contents h' current)
      /\ exists l, lines_at current = ListObject l /\ forall l', l' <> l -> h' l' = h l'
  | (Raise e, h') =>
      extend_lines (contents h current) (contents h block) = Raise e /\ h' = h
  end.
Proof.
  intros Hlist. unfold extend_in_place, extend_lines, lookup_item, contents.
  destruct (lines_at current) as [| l | v] eqn:Hc.
  - rewrite lookup_delete_eq. split; reflexivity.
  - rewrite lookup_insert_eq. cbn [Py.rbind].
    destruct (lines_at block) as [| l' | v'].
    + rewrite lookup_delete_eq. split; reflexivity.
    + rewrite lookup_insert_eq. cbn [Py.rbind PySeq.iter].
      rewrite insert_insert_eq, update_same. split; [reflexivity |].
      exists l. split; [reflexivity |]. intros l0 Hl0. apply update_other, Hl0.
    + rewrite lookup_insert_eq. cbn [Py.rbind].
      destruct (PySeq.iter v') as [more | e]; cbn [Py.rbind]; [| split; reflexivity].
      rewrite insert_insert_eq, update_same. split; [reflexivity |].
      exists l. split; [reflexivity |]. intros l0 Hl0. apply update_other, Hl0.
  - rewrite lookup_insert_eq. cbn [Py.rbind].
    destruct v; try (split; reflexivity). exfalso. exact (Hlist l Hc).
Qed.

(** One pass of the loop body on objects is one pass on dictionaries. *)
Lemma step_in_place_agrees (st : object_state) (block : block_object) (h : store) :
  NoDup (list_objects (state_blocks st ++ [block])) ->
  Forall lists_are_objects (state_blocks st) ->
  match step_in_place format ratio threshold st block h with
  | (Ok st', h') =>
      step format ratio threshold (state_contents h st) (contents h block)
      = Ok (state_contents h' st')
      /\ (forall l, l ∉ list_objects (state_blocks st) -> h' l = h l)
      /\ list_objects (state_blocks st') `sublist_of` list_objects (state_blocks st ++ [block])
      /\ (lists_are_objects block -> Forall lists_are_objects (state_blocks st'))
  | (Raise e, _) =>
      step format ratio threshold (state_contents h st) (contents h block) = Raise e
  end.
Proof.
  intros Hdistinct Hobjects.
  destruct st as [merged [current |]]; unfold step_in_place, step, state_contents, state_blocks in *;
    cbn [current_object merged_objects current_block merged_blocks option_map] in *.
  2: { unfold ret. cbn [current_object merged_objects option_map].
       rewrite !app_nil_r in *.
       split; [reflexivity |]. split; [reflexivity |]. split; [reflexivity |].
       intros Hb. apply Forall_app.
       split; [exact Hobjects | constructor; [exact Hb | constructor]]. }
  apply Forall_app in Hobjects as [Hmerged Hcurrent].
  apply Forall_inv in Hcurrent.
  unfold bind at 1, gets at 1.
  destruct (no_current (Some (contents h current))) eqn:Hno.
  { unfold ret. cbn [current_object merged_objects option_map].
    destruct (no_current_no_lines h current Hno) as [Hmissing _].
    rewrite !list_objects_app. cbn [list_objects]. rewrite Hmissing, !app_nil_r.
    split; [reflexivity |]. split; [reflexivity |]. split; [reflexivity |].
    intros Hb. apply Forall_app.
    split; [exact Hmerged | constructor; [exact Hb | constructor]]. }
  unfold bind at 1, lift at 1.
  destruct (similar format ratio threshold (contents h current) (contents h block))
    as [[|] | e]; cbn [Py.rbind]; [| | reflexivity].
  - unfold bind at 1.
    pose proof (extend_in_place_agrees current block h Hcurrent) as Hext.
    destruct (extend_in_place current block h) as [[[] | e] h1].
    + destruct Hext as (-> & l & Hl & Hframe). cbn [Py.rbind]. unfold ret.
      cbn [current_object merged_objects option_map].
      rewrite !list_objects_app in Hdistinct. cbn [list_objects] in Hdistinct.
      rewrite Hl in Hdistinct.
      apply NoDup_app in Hdistinct as (Hheld & _ & _).
      apply NoDup_app in Hheld as (_ & Hapart & _).
      split; [| split; [| split]].
      * f_equal. f_equal. symmetry. apply map_contents_agree.
        intros l' Hl'. apply Hframe. intros ->. apply (Hapart l Hl'). left.
      * intros l' Hl'. apply Hframe. intros ->. apply Hl'.
        rewrite list_objects_app. cbn [list_objects]. rewrite Hl.
        apply elem_of_app. right. left.
      * rewrite (list_objects_app (merged ++ [current])). apply sublist_inserts_r.
        reflexivity.
      * intros _. apply Forall_app.
        split; [exact Hmerged | constructor; [exact Hcurrent | constructor]].
    + destruct Hext as [-> _]. reflexivity.
  - unfold ret. cbn [current_object merged_objects option_map].
    rewrite map_app.
    split; [reflexivity |]. split; [reflexivity |]. split; [reflexivity |].
    intros Hb. apply Forall_app. split; [| constructor; [exact Hb | constructor]].
    apply Forall_app.
    split; [exact Hmerged | constructor; [exact Hcurrent | constructor]].
Qed.

Lemma loop_in_place_agrees (blocks : list block_object) :
  forall (st : object_state) (h : store),
    NoDup (list_objects (state_blocks st ++ blocks)) ->
    Forall lists_are_objects (state_blocks st ++ blocks) ->
    match loop_in_place format ratio threshold blocks st h with
    | (Ok st', h') =>
        loop format ratio threshold (map (contents h) blocks) (state_contents h st)
        = Ok (state_contents h' st')
    | (Raise e, _) =>
        loop format ratio threshold (map (contents h) blocks) (state_contents h st)
        = Raise e
    end.
Proof.
  induction blocks as [| block blocks IH]; intros st h Hdistinct Hobjects; [reflexivity |].
  cbn [loop_in_place map loop]. unfold bind at 1.
  change (block :: blocks) with ([block] ++ blocks)%list in Hdistinct, Hobjects.
  rewrite app_assoc in Hdistinct, Hobjects. rewrite list_objects_app in Hdistinct.
  pose proof Hdistinct as Hparts.
  apply NoDup_app in Hparts as (Hfirst & Hapart & _).
  apply Forall_app in Hobjects as [Hheld Hrest].
  apply Forall_app in Hheld as [Hstate Hblock]. apply Forall_inv in Hblock.
  pose proof (step_in_place_agrees st block h Hfirst Hstate) as Hstep.
  destruct (step_in_place format ratio threshold st block h) as [[st1 | e] h1].
  2: { rewrite Hstep. reflexivity. }
  destruct Hstep as (-> & Hframe & Hsub & Hobjects1). cbn [Py.rbind].
  assert (Hsame : map (contents h) blocks = map (contents h1) blocks).
  { symmetry. apply map_contents_agree. intros l Hl. apply Hframe. intros Hin.
    apply (Hapart l); [| exact Hl].
    rewrite list_objects_app. apply elem_of_app. left. exact Hin. }
  rewrite Hsame. apply IH.
  - rewrite list_objects_app. eapply sublist_NoDup; [exact Hdistinct |].
    apply sublist_app; [exact Hsub | reflexivity].
  - apply Forall_app. split; [apply Hobjects1, Hblock | exact Hrest].
Qed.

(** Where no two blocks hold the same list of lines, the function on
    objects returns what the function on dictionaries returns, and raises
    what it raises. *)
Lemma merge_in_place_agrees (blocks : list block_object) (h : store) :
  NoDup (list_objects blocks) ->
  Forall lists_are_objects blocks ->
  match merge_similar_blocks_in_place format ratio blocks threshold h with
  | (Ok out, h') =>
      merge_similar_blocks format ratio (map (contents h) blocks) threshold
      = Ok (map (contents h') out)
  | (Raise e, _) =>
      merge_similar_blocks format ratio (map (contents h) blocks) threshold = Raise e
  end.
Proof.
  intros Hdistinct Hobjects.
  unfold merge_similar_blocks_in_place, merge_similar_blocks. unfold bind at 1.
  pose proof (loop_in_place_agrees blocks
                {| merged_objects := []; current_object := None |} h Hdistinct Hobjects)
    as Hloop.
  change (state_contents h {| merged_objects := []; current_object := None |})
    with {| merged_blocks := []; current_block := None |} in Hloop.
  destruct (loop_in_place format ratio threshold blocks _ h) as [[st | e] h1].
  2: { rewrite Hloop. reflexivity. }
  rewrite Hloop. cbn [Py.rbind]. unfold bind, gets, ret. f_equal.
  unfold state_contents. cbn [current_block merged_blocks].
  destruct (no_current (option_map (contents h1) (current_object st))); [reflexivity |].
  destruct (current_object st); cbn [option_map]; [rewrite map_app |]; reflexivity.
Qed.

End InPlaceAgrees.
(** ** The adaptive threshold: range, uniform images *)

Section OtsuMore.
Import ocr_preprocessing.

(** Where the threshold of the loop can come from: it is the one the
    loop started with, or a bin at which both classes have pixels.  This
    does not depend on the arithmetic. *)
Lemma otsu_loop_threshold (A : arithmetic) (hist : list Z) (n : nat) :
  length hist = 256%nat ->
  forall (k : nat) (st : otsu_state A),
    (k + n = 256)%nat ->
    weight_bg st = mass_below hist k ->
    exists st',
      otsu_loop A hist (mass_below hist 256) (seq k n) st = Ok st'
      /\ (threshold st' = threshold st
          \/ exists t, (k <= t < 256)%nat
                       /\ threshold st' = Z.of_nat t
                       /\ mass_below hist (S t) <> 0%Z
                       /\ mass_below hist (S t) <> mass_below hist 256).
Proof.
  intros Hlen. induction n as [| n IH]; intros k st Hk Hw.
  - exists st. split; [reflexivity | left; reflexivity].
  - cbn [seq otsu_loop]. rewrite hist_at_bin by lia. cbn [Py.rbind].
    assert (HW : (weight_bg st + bin hist k)%Z = mass_below hist (S k)).
    { rewrite Hw. reflexivity. }
    rewrite HW.
    destruct (mass_below hist (S k) =? 0)%Z eqn:E0.
    { destruct (IH (S k) {| weight_bg := mass_below hist (S k); sum_bg := sum_bg st;
                            max_variance := max_variance st;
                            threshold := threshold st |})
        as (st' & Hloop & Hth); [lia | reflexivity |].
      exists st'. split; [exact Hloop |].
      destruct Hth as [Hth | (t & Ht & Hth & H0 & H1)]; [left; exact Hth |].
      right. exists t. split; [lia | auto]. }
    destruct (mass_below hist 256 - mass_below hist (S k) =? 0)%Z eqn:E1.
    { eexists. split; [reflexivity | left; reflexivity]. }
    rewrite weighted_sum_moment by lia. cbn [Py.rbind].
    apply Z.eqb_neq in E0, E1.
    match goal with
    | |- context [if ?b then _ else _] => destruct b
    end.
    + match goal with
      | |- context [otsu_loop A hist _ _ ?s] =>
          destruct (IH (S k) s) as (st' & Hloop & Hth); [lia | reflexivity |]
      end.
      exists st'. split; [exact Hloop |]. right.
      destruct Hth as [Hth | (t & Ht & Hth & H0 & H1)].
      * exists k. cbn [threshold] in Hth. split; [lia |]. split; [exact Hth |].
        split; [exact E0 | lia].
      * exists t. split; [lia | auto].
    + match goal with
      | |- context [otsu_loop A hist _ _ ?s] =>
          destruct (IH (S k) s) as (st' & Hloop & Hth); [lia | reflexivity |]
      end.
      exists st'. split; [exact Hloop |].
      destruct Hth as [Hth | (t & Ht & Hth & H0 & H1)]; [left; exact Hth |].
      right. exists t. split; [lia | auto].
Qed.

Lemma adaptive_threshold_source (A : arithmetic) (hist : list Z) :
  length hist = 256%nat ->
  exists th,
    get_adaptive_threshold A hist = Ok th
    /\ (th = 0%Z
        \/ exists t, (t < 256)%nat /\ th = Z.of_nat t
                     /\ mass_below hist (S t) <> 0%Z
                     /\ mass_below hist (S t) <> mass_below hist 256).
Proof.
  intros Hlen. unfold get_adaptive_threshold. rewrite sum_list_mass, Hlen.
  destruct (otsu_loop_threshold A hist 256 Hlen 0
              {| weight_bg := 0; sum_bg := 0; max_variance := fzero A; threshold := 0 |})
    as (st' & Hloop & Hth); [reflexivity | reflexivity |].
  rewrite Hloop. cbn [Py.rbind]. exists (threshold st'). split; [reflexivity |].
  destruct Hth as [Hth | (t & Ht & Hth & H0 & H1)]; [left; exact Hth |].
  right. exists t. split; [lia | auto].
Qed.

Lemma single_level_bin (p h i : nat) :
  (i < 256)%nat ->
  bin (single_level p h) i = if (i =? p)%nat then Z.of_nat h else 0%Z.
Proof.
  intros Hi. unfold bin, single_level.
  set (f := fun i0 : nat => if (i0 =? p)%nat then Z.of_nat h else 0%Z).
  rewrite (nth_indep _ 0%Z (f O)) by (rewrite length_map, length_seq; exact Hi).
  rewrite map_nth, seq_nth by exact Hi. reflexivity.
Qed.

Lemma single_level_mass (p h k : nat) :
  (k <= 256)%nat ->
  mass_below (single_level p h) k = if (p <? k)%nat then Z.of_nat h else 0%Z.
Proof.
  unfold mass_below. induction k as [| k IH]; intros Hk; [reflexivity |].
  cbn [sumf]. rewrite IH, single_level_bin by lia.
  destruct (Nat.eqb_spec k p), (Nat.ltb_spec p k), (Nat.ltb_spec p (S k)); lia.
Qed.

Lemma single_level_length (p h : nat) : length (single_level p h) = 256%nat.
Proof. unfold single_level. rewrite length_map, length_seq. reflexivity. Qed.

(** X17: on a histogram of 256 non-negative counts the threshold is a
    grey level between 0 and 254, never 255; and for an image of a single
    grey level, or with no pixel at all, it is 0, wherever the level
    lies.  Both hold whatever the arithmetic of the floats is: they follow
    from the tests on the integer weights alone. *)
Theorem adaptive_threshold_range :
  (forall (A : arithmetic) (hist : list Z),
      length hist = 256%nat ->
      Forall (fun h => 0 <= h)%Z hist ->
      exists th : Z, get_adaptive_threshold A hist = Ok th /\ (0 <= th <= 254)%Z)
  /\ (forall (A : arithmetic) (p h : nat),
         get_adaptive_threshold A (single_level p h) = Ok 0%Z).
Proof.
  split.
  - intros A hist Hlen _.
    destruct (adaptive_threshold_source A hist Hlen) as (th & Hget & Hth).
    exists th. split; [exact Hget |].
    destruct Hth as [-> | (t & Ht & -> & _ & Hne)]; [lia |].
    assert (t <> 255)%nat; [| lia]. intros ->. apply Hne. reflexivity.
  - intros A p h.
    destruct (adaptive_threshold_source A _ (single_level_length p h))
      as (th & Hget & Hth).
    rewrite Hget. f_equal.
    destruct Hth as [-> | (t & Ht & -> & H0 & H1)]; [reflexivity |].
    exfalso. rewrite (single_level_mass p h (S t)) in H0, H1 by lia.
    rewrite (single_level_mass p h 256) in H1 by lia.
    destruct (Nat.ltb_spec p (S t)), (Nat.ltb_spec p 256);
      first [lia | apply H1; reflexivity | apply H0; reflexivity].
Qed.

Lemma adaptive_threshold_range_witness :
  exists th : Z,
    get_adaptive_threshold binary64 (two_peaks 50 100 200 100) = Ok th
    /\ (0 <= th <= 254)%Z.
Proof.
  destruct adaptive_threshold_range as [Hrange _].
  apply Hrange; [reflexivity |].
  apply List.Forall_forall. intros h Hin.
  apply in_map_iff in Hin as (i & <- & _).
  destruct (i =? 50)%nat; [lia |]. destruct (i =? 200)%nat; lia.
Defined.

End OtsuMore.
(** ** The entry point of the recognition: [process_pdf] *)

Section ProcessPdf.
Import ReSub OCRProcessor.

Variable image : Type.
Variable format : value -> string.
Variable eqv : value -> value -> bool.
Variable Rect : Z -> Z -> Z -> Z -> value.
Variable rect_or : value -> value -> value.
Variable prepare_page_for_ocr : image -> option image.
Variable image_to_string : image -> string -> outcome (list N).
Variable image_to_data : image -> string -> string -> outcome ocr_execution.ocr_data.
Variable world : Type.
Variable doc : Type.
Variable page : Type.
Variable fitz_open : string -> world -> outcome doc * world.
Variable len : doc -> world -> outcome nat * world.
Variable doc_getitem : doc -> nat -> world -> outcome page * world.
Variable get_text : page -> world -> outcome string * world.
Variable save : doc -> string -> world -> outcome unit * world.
Variable close : doc -> world -> outcome unit * world.
Variable _extract_images : page -> world -> outcome (list (image * value)) * world.
Variable _insert_text : page -> list dict -> value -> world -> outcome unit * world.

Abbreviation process_image :=
  (_process_image image format eqv Rect rect_or prepare_page_for_ocr
     image_to_string image_to_data).
Abbreviation images_loop :=
  (process_images image format eqv Rect rect_or prepare_page_for_ocr
     image_to_string image_to_data world page _insert_text).
Abbreviation pages_loop :=
  (process_pages image format eqv Rect rect_or prepare_page_for_ocr
     image_to_string image_to_data world doc page doc_getitem get_text
     _extract_images _insert_text).

(** What [_process_image] returns is never a list with a block in it. *)
Lemma process_image_falsy (img : image) :
  match process_image img with
  | Some (_ :: _) => False
  | _ => True
  end.
Proof.
  unfold _process_image.
  destruct (prepare_page_for_ocr img) as [prepared |]; [| exact I].
  destruct (image_to_string prepared "--psm 3") as [sample |]; [| exact I].
  cbn [obind]. unfold params, lookup_item.
  change (ocr_settings.get_ocr_parameters !! "psm") with (Some (VInt 3)).
  change (ocr_settings.get_ocr_parameters !! "oem") with (Some (VInt 3)).
  cbn [of_result obind].
  destruct (image_to_data prepared _ _) as [ocr_data |]; [| exact I].
  cbn [obind].
  destruct (ocr_execution._convert_to_blocks Rect rect_or ocr_data)
    as [blocks | e] eqn:Hconvert; [| exact I].
  cbn [of_result obind].
  destruct blocks as [| block blocks]; [exact I |].
  apply convert_to_blocks_fresh in Hconvert.
  destruct (clean_blocks_raises block blocks) as [t ->]; [| exact I].
  inversion Hconvert as [| ? ? [Htext _] _]; exact Htext.
Qed.

(** The loop over the images of a page calls nothing and leaves the flag
    as it is. *)
Lemma process_images_idle (pg : page) (images : list (image * value))
    (modified : bool) (s : world * list event) :
  images_loop pg images modified s = (Return modified, s).
Proof.
  induction images as [| img_info images IH]; [reflexivity |].
  cbn [process_images]. pose proof (process_image_falsy img_info.1) as Hfalsy.
  destruct (process_image img_info.1) as [[| block blocks] |];
    [| contradiction |]; unfold io_bind, io_ret; exact IH.
Qed.

Lemma call_log {A} (f : world -> outcome A * world) (s : world * list event) :
  (call world f s).2.2 = s.2.
Proof. unfold call. destruct (f s.1); reflexivity. Qed.

Lemma io_bind_run {A B} (m : IO world A) (k : A -> IO world B) (s : world * list event) :
  io_bind world m k s
  = match m s with
    | (Return a, s') => k a s'
    | (Throw t, s') => (Throw t, s')
    end.
Proof. reflexivity. Qed.

Lemma io_bind_ret {A B} (a : A) (k : A -> IO world B) (s : world * list event) :
  io_bind world (io_ret world a) k s = k a s.
Proof. reflexivity. Qed.

Lemma io_bind_emit {B} (e : event) (k : unit -> IO world B) (s : world * list event) :
  io_bind world (emit world e) k s = k tt (s.1, (s.2 ++ [e])%list).
Proof. reflexivity. Qed.

Lemma io_bind_assoc {A B C} (m : IO world A) (k : A -> IO world B)
    (k' : B -> IO world C) (s : world * list event) :
  io_bind world (io_bind world m k) k' s
  = io_bind world m (fun a => io_bind world (k a) k') s.
Proof. unfold io_bind. destruct (m s) as [[a | t] s']; reflexivity. Qed.

(** The loop over the pages records no call, and returns the flag it was
    given unless a call of the document library raises. *)
Lemma process_pages_idle (d : doc) (page_nums : list nat) (modified : bool) :
  forall s : world * list event,
    (pages_loop d page_nums modified s).2.2 = s.2
    /\ ((pages_loop d page_nums modified s).1 = Return modified
        \/ exists t, (pages_loop d page_nums modified s).1 = Throw t).
Proof.
  induction page_nums as [| page_num page_nums IH]; intros s.
  - split; [reflexivity | left; reflexivity].
  - cbn [process_pages]. rewrite io_bind_run.
    pose proof (call_log (doc_getitem d page_num) s) as Hlog1.
    destruct (call world (doc_getitem d page_num) s) as [[pg | t] s1];
      [| split; [exact Hlog1 | right; eexists; reflexivity]].
    rewrite io_bind_run.
    pose proof (call_log (get_text pg) s1) as Hlog2.
    destruct (call world (get_text pg) s1) as [[text | t] s2];
      [| split; [cbn [fst snd] in *; congruence | right; eexists; reflexivity]].
    destruct (truthy (VStr (Str.strip text))).
    + rewrite io_bind_ret. destruct (IH s2) as [Hlog Hout].
      split; [cbn [fst snd] in *; congruence | exact Hout].
    + rewrite io_bind_assoc, io_bind_run.
      pose proof (call_log (_extract_images pg) s2) as Hlog3.
      destruct (call world (_extract_images pg) s2) as [[images | t] s3];
        [| split; [cbn [fst snd] in *; congruence | right; eexists; reflexivity]].
      assert (Hinner :
        match images with
        | [] => io_ret world modified
        | _ :: _ => images_loop pg images modified
        end s3 = (Return modified, s3)).
      { destruct images; [reflexivity | apply process_images_idle]. }
      rewrite io_bind_run, Hinner. destruct (IH s3) as [Hlog Hout].
      split; [cbn [fst snd] in *; congruence | exact Hout].
Qed.

(** X19: [process_pdf] never changes a document.  Whatever the document,
    its pages and images and the recognition engine give, the method
    returns [False], and neither [_insert_text] nor [doc.save] is ever
    called: the only call it may add to the record is [doc.close]. *)
Theorem process_pdf_changes_nothing (pdf_path : string) (s : world * list event) :
  let out :=
    process_pdf image format eqv Rect rect_or prepare_page_for_ocr
      image_to_string image_to_data world doc page fitz_open len doc_getitem
      get_text save close _extract_images _insert_text pdf_path s in
  out.1 = Return false
  /\ (out.2.2 = s.2 \/ out.2.2 = (s.2 ++ [Closed])%list).
Proof.
  unfold process_pdf. cbv zeta. rewrite io_bind_run.
  pose proof (call_log (fitz_open pdf_path) s) as Hlog1.
  destruct (call world (fitz_open pdf_path) s) as [[d | t] s1];
    [| split; [reflexivity | left; exact Hlog1]].
  rewrite io_bind_run.
  pose proof (call_log (len d) s1) as Hlog2.
  destruct (call world (len d) s1) as [[n | t] s2];
    [| split; [reflexivity | left; cbn [fst snd] in *; congruence]].
  rewrite io_bind_run.
  destruct (process_pages_idle d (seq 0 n) false s2) as [Hlog3 Hout].
  destruct (pages_loop d (seq 0 n) false s2) as [r s3]. cbn [fst snd] in Hlog3, Hout.
  destruct Hout as [-> | [t ->]];
    [| split; [reflexivity | left; cbn [fst snd] in *; congruence]].
  rewrite io_bind_ret, io_bind_emit, io_bind_run.
  pose proof (call_log (close d) (s3.1, (s3.2 ++ [Closed])%list)) as Hlog4.
  destruct (call world (close d) _) as [[[] | t] s4];
    (split; [reflexivity | right; unfold io_ret; cbn [fst snd] in *; congruence]).
Qed.

End ProcessPdf.
(** ** Font names: variants, fallbacks, styles *)

Section FontMore.
Import font_mapping.

Lemma split_at_cons (sep : ascii) (s cur : string) :
  exists piece pieces, Str.split_at sep s cur = piece :: pieces.
Proof.
  revert cur. induction s as [| c s IH]; intros cur; cbn [Str.split_at].
  - eexists _, _. reflexivity.
  - destruct (Ascii.eqb c sep); [eexists _, _; reflexivity | apply IH].
Qed.

(** Every family that the table of font names points to is a core font. *)
Lemma font_family_is_core (name family : string) :
  FONT_FAMILY_MAP !! name = Some family ->
  family = "helvetica" \/ family = "times" \/ family = "courier".
Proof.
  intros H. apply elem_of_list_to_map_2 in H.
  repeat (apply elem_of_cons in H as [[= _ <-] | H]; [auto |]).
  apply elem_of_nil in H. contradiction.
Qed.

Lemma core_font_names (name : string) (variants : gmap string string) :
  CORE_FONTS !! name = Some variants ->
  name = "helvetica" \/ name = "times" \/ name = "courier".
Proof.
  intros H. apply elem_of_list_to_map_2 in H.
  repeat (apply elem_of_cons in H as [[= -> _] | H]; [auto |]).
  apply elem_of_nil in H. contradiction.
Qed.

(** X20: for every font name and style flags, [get_font_variant] returns
    one of the twelve standard PDF font names and never raises: the name
    of a family (helv, tiro or cour) followed by "b" when bold is set and
    by "i" when italic is set. *)
Theorem font_variant_is_core_font (font_name : string) (bold italic : value) :
  exists family : string,
    family ∈ core_families
    /\ get_font_variant (VStr font_name) bold italic
       = Ok (family ++ style_letters (truthy bold) (truthy italic)).
Proof.
  unfold get_font_variant, Str.split_on.
  destruct (split_at_cons "-" (Str.lower font_name) "") as (piece & pieces & ->).
  cbn [first Py.rbind].
  set (name := Str.strip piece).
  assert (Hbase :
    let base_font := default name (FONT_FAMILY_MAP !! name) in
    let base_font := if bool_decide (is_Some (CORE_FONTS !! base_font))
                     then base_font else "helvetica" in
    base_font = "helvetica" \/ base_font = "times" \/ base_font = "courier").
  { cbv zeta. destruct (FONT_FAMILY_MAP !! name) as [family |] eqn:Hfamily;
      cbn [default].
    - destruct (font_family_is_core _ _ Hfamily) as [-> | [-> | ->]];
        vm_compute; auto.
    - destruct (bool_decide (is_Some (CORE_FONTS !! name))) eqn:Hcore; [| auto].
      apply bool_decide_eq_true in Hcore as [variants Hcore].
      exact (core_font_names _ _ Hcore). }
  cbv zeta in Hbase.
  destruct Hbase as [-> | [-> | ->]];
    [exists "helv" | exists "tiro" | exists "cour"];
    (split; [unfold core_families; set_solver |]);
    destruct (truthy bold), (truthy italic); reflexivity.
Qed.

(** X21: [supports_style] does not depend on the font: for every font
    name the answer is whether the style is one of "bold", "italic" and
    "bold-italic". *)
Theorem supports_style_ignores_font (font_name : string) (style : value) :
  supports_style (VStr font_name) style
  = Ok (in_strs style ["bold"; "italic"; "bold-italic"]).
Proof.
  unfold supports_style. cbn [normalize_font_name Py.rbind].
  match goal with |- context [FONT_FAMILY_MAP !! ?n] => set (name := n) end.
  assert (Hcore :
    bool_decide (is_Some (CORE_FONTS !! default "helvetica" (FONT_FAMILY_MAP !! name)))
    = true).
  { destruct (FONT_FAMILY_MAP !! name) as [family |] eqn:Hfamily; cbn [default];
      [| reflexivity].
    destruct (font_family_is_core _ _ Hfamily) as [-> | [-> | ->]]; reflexivity. }
  rewrite Hcore. destruct (in_strs style _); reflexivity.
Qed.

(** X22: the fallback list of [get_similar_fonts] is never empty, and it
    contains the font asked for, in lower case, exactly when that font is
    one of the eleven names the function knows. *)
Theorem similar_fonts_contain_known (font_name : string) :
  exists fonts : list string,
    get_similar_fonts (VStr font_name) = Ok fonts
    /\ fonts <> []
    /\ (Str.lower font_name ∈ fonts <-> Str.lower font_name ∈ known_fonts).
Proof.
  unfold get_similar_fonts. generalize (Str.lower font_name). intros name.
  destruct (in_group name ["helvetica"; "arial"; "verdana"; "tahoma"]) eqn:Hsans;
    [| destruct (in_group name ["times"; "georgia"; "palatino"; "garamond"]) eqn:Hserif;
       [| destruct (in_group name ["courier"; "consolas"; "monaco"]) eqn:Hmono ]];
    eexists; (split; [reflexivity |]); (split; [discriminate |]);
    unfold known_fonts; rewrite !elem_of_cons, !elem_of_nil;
    (split; [tauto |]);
    intros H; repeat (destruct H as [-> | H]; [first [ tauto | vm_compute in Hsans, Hserif, Hmono; discriminate | vm_compute in Hsans, Hserif; discriminate | vm_compute in Hsans; discriminate ] |]);
    contradiction.
Qed.

End FontMore.
(** ** Language hints *)

Section LanguageHints.
Import ocr_preprocessing.

Lemma forallb_neither (p q : N -> bool) (l : list N) :
  forallb (fun c => negb (p c) && negb (q c)) l
  = negb (existsb p l) && negb (existsb q l).
Proof.
  induction l as [| c l IH]; [reflexivity |].
  cbn [forallb existsb]. rewrite IH.
  destruct (p c), (q c), (existsb p l), (existsb q l); reflexivity.
Qed.

(** X23: the language hints are never empty; English is proposed only on
    its own, and exactly for a text without any character of the two
    ranges, so that one Cyrillic or Chinese character in an English text
    removes English from the languages of the recognition; Russian is
    proposed exactly when a Cyrillic character occurs. *)
Theorem english_is_proposed_alone (text_sample : list N) :
  let hints := get_language_hints text_sample in
  hints <> []
  /\ ("eng" ∈ hints <-> hints = ["eng"])
  /\ (hints = ["eng"]
      <-> forallb (fun c => negb (cjk c) && negb (cyrillic c)) text_sample = true)
  /\ ("rus" ∈ hints <-> existsb cyrillic text_sample = true).
Proof.
  cbv zeta. rewrite forallb_neither. unfold get_language_hints.
  change (fun c : N => (19968 <? c)%N && (c <? 40959)%N) with cjk.
  change (fun c : N => (1024 <? c)%N && (c <? 1279)%N) with cyrillic.
  destruct (existsb cjk text_sample), (existsb cyrillic text_sample);
    cbn [app negb andb]; repeat split;
    first [ discriminate
          | reflexivity
          | intros H; discriminate H
          | intros H; reflexivity
          | intros H; solve [repeat constructor]
          | intros H;
            repeat (apply elem_of_cons in H as [H | H]; [discriminate H |]);
            apply elem_of_nil in H; contradiction ].
Qed.

End LanguageHints.
(** ** Merging and alignment words *)

Section AlignmentWords.
Import pdf_metadata post_ocr_cleanup.




End AlignmentWords.
(** ** Alignment metrics *)

Section AlignmentMetrics.
Import PySeq text_alignment_handling.

Lemma fl_add (a b : Z) : fl (inject_Z (a + b)) = (fl (inject_Z a) + fl (inject_Z b))%Qc.
Proof.
  apply Qc_is_canon. unfold fl. cbn [this Qcplus Q2Qc].
  rewrite !Qred_correct, inject_Z_plus. reflexivity.
Qed.

Lemma as_int_num (v : value) (n : Z) :
  as_int v = Some n -> as_num v = Some (fl (inject_Z n)).
Proof.
  destruct v as [| [] | | | | | |]; intros [= <-]; try reflexivity;
    cbn [as_num]; f_equal; apply Qc_is_canon; reflexivity.
Qed.

Lemma number_cases (v : value) (q : Qc) :
  as_num v = Some q ->
  (is_float v = true /\ v = VFloat q)
  \/ (is_float v = false /\ exists n, as_int v = Some n /\ q = fl (inject_Z n)).
Proof.
  intros H. destruct v as [| b | n | x | | | |]; try discriminate H.
  - right. split; [reflexivity |]. exists (if b then 1 else 0)%Z.
    split; [reflexivity |]. rewrite (as_int_num (VBool b) _ eq_refl) in H. congruence.
  - right. split; [reflexivity |]. exists n. split; [reflexivity |].
    cbn in H. congruence.
  - left. split; [reflexivity |]. cbn in H. congruence.
Qed.

(** The sum of two numbers is a number, of the value expected. *)
Lemma add_numbers (a b : value) (x y : Qc) :
  as_num a = Some x -> as_num b = Some y ->
  exists c, add a b = Ok c /\ as_num c = Some (x + y)%Qc.
Proof.
  intros Ha Hb.
  destruct (number_cases a x Ha) as [[Hfa ->] | [Hfa (n & Hna & ->)]],
           (number_cases b y Hb) as [[Hfb ->] | [Hfb (m & Hmb & ->)]].
  - eexists. split; reflexivity.
  - destruct b; try discriminate; (eexists; split; [reflexivity |]);
      cbn [as_num] in *; congruence.
  - destruct a; try discriminate; (eexists; split; [reflexivity |]);
      cbn [as_num] in *; congruence.
  - exists (VInt (n + m)). split.
    + destruct a, b; try discriminate; unfold add; cbn [is_float orb];
        rewrite Hna, Hmb; reflexivity.
    + cbn [as_num]. f_equal. apply fl_add.
Qed.

Lemma sum_from_numbers (l : list value) (qs : list Qc) :
  numbers l qs ->
  forall (acc : value) (a : Qc),
    as_num acc = Some a ->
    exists s, sum_from acc l = Ok s /\ as_num s = Some (a + total qs)%Qc.
Proof.
  induction 1 as [| v q l qs Hv _ IH]; intros acc a Ha.
  - exists acc. split; [reflexivity |]. rewrite Ha. f_equal. cbn. ring.
  - destruct (add_numbers acc v a q Ha Hv) as (c & Hc & Hcn).
    destruct (IH c _ Hcn) as (s & Hs & Hsn).
    exists s. split; [cbn [sum_from]; rewrite Hc; exact Hs |].
    rewrite Hsn. f_equal. cbn [total fold_right]. fold (total qs). ring.
Qed.

Lemma max_from_numbers (l : list value) (qs : list Qc) :
  numbers l qs ->
  forall (best : value) (b : Qc),
    as_num best = Some b ->
    exists v q, max_from best l = Ok v /\ as_num v = Some q.
Proof.
  induction 1 as [| v q l qs Hv _ IH]; intros best b Hb.
  - exists best, b. split; [reflexivity | exact Hb].
  - cbn [max_from]. unfold gt, lt. rewrite Hb, Hv. cbn [Py.rbind].
    destruct (Qc_ltb b q); eapply IH; eassumption.
Qed.

Lemma min_from_numbers (l : list value) (qs : list Qc) :
  numbers l qs ->
  forall (best : value) (b : Qc),
    as_num best = Some b ->
    exists v q, min_from best l = Ok v /\ as_num v = Some q.
Proof.
  induction 1 as [| v q l qs Hv _ IH]; intros best b Hb.
  - exists best, b. split; [reflexivity | exact Hb].
  - cbn [min_from]. unfold lt. rewrite Hb, Hv. cbn [Py.rbind].
    destruct (Qc_ltb q b); eapply IH; eassumption.
Qed.

Lemma Qc_eqb_zero (q : Qc) : Qc_eqb q 0 = true <-> q = 0%Qc.
Proof.
  unfold Qc_eqb. rewrite Qeq_bool_iff. split.
  - apply Qc_is_canon.
  - intros ->. reflexivity.
Qed.

Lemma Qc_eqb_nonzero (q : Qc) : q <> 0%Qc -> Qc_eqb q 0 = false.
Proof.
  intros H. destruct (Qc_eqb q 0) eqn:E; [| reflexivity].
  apply Qc_eqb_zero in E. contradiction.
Qed.

(** The fill ratios of numeric widths in a block of nonzero width. *)
Lemma ratios_of_numbers (block_width : value) (bw : Qc) (l : list value) (qs : list Qc) :
  as_num block_width = Some bw -> bw <> 0%Qc ->
  numbers l qs ->
  mapM (fun w => truediv w block_width) l
  = Ok (map (fun w => VFloat (w / bw)) qs).
Proof.
  intros Hbw Hnz. induction 1 as [| v q l qs Hv _ IH]; [reflexivity |].
  cbn [mapM map]. unfold truediv at 1. rewrite Hv, Hbw, (Qc_eqb_nonzero _ Hnz).
  cbn [Py.rbind]. rewrite IH. reflexivity.
Qed.

Lemma all_above_ratios (k bw : Qc) (qs : list Qc) :
  all_above (VFloat k) (map (fun w => VFloat (w / bw)) qs)
  = Ok (forallb (fun w => Qc_ltb k (w / bw)) qs).
Proof.
  induction qs as [| q qs IH]; [reflexivity |].
  cbn [all_above map forallb]. unfold gt, lt. cbn [as_num Py.rbind].
  destruct (Qc_ltb k (q / bw)); [exact IH | reflexivity].
Qed.

Lemma Qc_ltb_iff (a b : Qc) : Qc_ltb a b = true <-> (a < b)%Qc.
Proof.
  unfold Qc_ltb. rewrite negb_true_iff. split.
  - intros H. apply Qcnot_le_lt. intros Hle. apply Qle_bool_iff in Hle. congruence.
  - intros H. destruct (Qle_bool b a) eqn:E; [| reflexivity].
    apply Qle_bool_iff in E. exfalso. exact (Qclt_not_le _ _ H E).
Qed.

Lemma Qc_lt_div (k a b : Qc) : (0 < b)%Qc -> (k < a / b)%Qc -> (k * b < a)%Qc.
Proof.
  intros Hb H. replace a with (a / b * b)%Qc.
  - apply Qcmult_lt_compat_r; assumption.
  - field. intros ->. exact (Qclt_not_le _ _ Hb (Qcle_refl _)).
Qed.

(** When every width is above [m], so is their sum above [m] times
    their number. *)
Lemma total_above (m : Qc) (qs : list Qc) :
  Forall (fun w => (m < w)%Qc) qs -> qs <> [] ->
  (m * fl (inject_Z (Z.of_nat (length qs))) < total qs)%Qc.
Proof.
  induction 1 as [| q qs Hq Hqs IH]; [contradiction |]. intros _.
  cbn [length total fold_right]. fold (total qs).
  rewrite Nat2Z.inj_succ, <- Z.add_1_l, fl_add.
  replace (fl (inject_Z 1)) with 1%Qc by (apply Qc_is_canon; reflexivity).
  destruct qs as [| q' qs'].
  - cbn [length total fold_right]. change (fl (inject_Z (Z.of_nat 0))) with 0%Qc.
    replace (m * (1 + 0))%Qc with m by ring. replace (q + 0)%Qc with q by ring.
    exact Hq.
  - specialize (IH ltac:(discriminate)).
    replace (m * (1 + fl (inject_Z (Z.of_nat (length (q' :: qs'))))))%Qc
      with (m + m * fl (inject_Z (Z.of_nat (length (q' :: qs')))))%Qc by ring.
    apply (Qclt_trans _ (q + m * fl (inject_Z (Z.of_nat (length (q' :: qs')))))%Qc).
    + rewrite !(Qcplus_comm _ (m * _)). apply Qcplus_lt_mono_l. exact Hq.
    + apply Qcplus_lt_mono_l. exact IH.
Qed.

Lemma Qc_div_lt (a b c : Qc) : (0 < b)%Qc -> (a / b < c)%Qc -> (a < c * b)%Qc.
Proof.
  intros Hb H. replace a with (a / b * b)%Qc.
  - apply Qcmult_lt_compat_r; assumption.
  - field. intros ->. exact (Qclt_not_le _ _ Hb (Qcle_refl _)).
Qed.

Lemma length_numbers (l : list value) (qs : list Qc) :
  numbers l qs -> length l = length qs.
Proof. apply Forall2_length. Qed.

(** What the function computes before the recommendations, for numeric
    widths, at least one, in a block of nonzero numeric width. *)
Lemma alignment_metrics_run (block_width : value) (line_widths : list value)
    (bw : Qc) (ws : list Qc) :
  as_num block_width = Some bw -> bw <> 0%Qc ->
  numbers line_widths ws -> line_widths <> [] ->
  exists metrics : dict,
    calculate_alignment_metrics block_width line_widths = Ok metrics
    /\ recommended metrics "justify"
       = Some (VBool (forallb (fun w => Qc_ltb (fl 0.7) (w / bw)) ws))
    /\ recommended metrics "center"
       = Some (VBool (Qc_ltb (fl (inject_Z (Z.of_nat (length ws)))) (fl (inject_Z 5))))
    /\ recommended metrics "right"
       = Some (VBool (Qc_ltb (total ws / fl (inject_Z (Z.of_nat (length ws))))
                             (bw * fl 0.5))).
Proof.
  intros Hbw Hnz Hws Hne. unfold calculate_alignment_metrics.
  assert (Htruthy : truthy (VList line_widths) = true)
    by (destruct line_widths; [contradiction | reflexivity]).
  rewrite Htruthy.
  destruct (sum_from_numbers _ _ Hws (VInt 0) (fl (inject_Z 0)) eq_refl) as (s & Hs & Hsn).
  unfold sum_. rewrite Hs. cbn [Py.rbind].
  assert (Hlen : fl (inject_Z (Z.of_nat (length line_widths))) <> 0%Qc).
  { apply qz_nonzero. destruct line_widths; [contradiction | cbn [length]; lia]. }
  unfold truediv at 1. rewrite Hsn. cbn [as_num]. rewrite (Qc_eqb_nonzero _ Hlen).
  cbn [Py.rbind].
  assert (Hmax : exists v, max_ line_widths = Ok v).
  { destruct Hws as [| v q l qs Hv Hrest]; [contradiction |].
    destruct (max_from_numbers _ _ Hrest v q Hv) as (m & _ & Hm & _). eauto. }
  assert (Hmin : exists v, min_ line_widths = Ok v).
  { destruct Hws as [| v q l qs Hv Hrest]; [contradiction |].
    destruct (min_from_numbers _ _ Hrest v q Hv) as (m & _ & Hm & _). eauto. }
  destruct Hmax as [hi ->], Hmin as [lo ->]. cbn [Py.rbind].
  rewrite (ratios_of_numbers _ _ _ _ Hbw Hnz Hws). cbn [Py.rbind].
  rewrite all_above_ratios. cbn [Py.rbind].
  unfold lt at 1. cbn [as_num Py.rbind].
  rewrite (mul_float_r _ _ _ Hbw). cbn [Py.rbind].
  unfold lt at 1. cbn [as_num Py.rbind].
  rewrite (length_numbers _ _ Hws).
  replace ((fl (inject_Z 0) + total ws) / fl (inject_Z (Z.of_nat (length ws))))%Qc
    with (total ws / fl (inject_Z (Z.of_nat (length ws))))%Qc.
  2: { f_equal. change (fl (inject_Z 0)) with 0%Qc. ring. }
  eexists. split; [reflexivity |].
  unfold recommended. rewrite lookup_insert_eq. repeat split; reflexivity.
Qed.

(** X25: for a block whose width is a number of ordinary magnitude, with
    at least one line and every line width a number within the range of
    the floats, the metrics are computed and never recommend both
    "justify" and "right": lines that all fill more than 0.7 of the width
    have an average width of more than half of it. *)
Theorem justify_excludes_right (block_width : value) (line_widths : list value)
    (bw : Qc) (ws : list Qc) :
  as_num block_width = Some bw -> ordinary bw ->
  numbers line_widths ws -> Forall in_float_range ws -> line_widths <> [] ->
  exists (metrics : dict) (justify right : bool),
    calculate_alignment_metrics block_width line_widths = Ok metrics
    /\ recommended metrics "justify" = Some (VBool justify)
    /\ recommended metrics "right" = Some (VBool right)
    /\ justify && right = false.
Proof.
  intros Hbw Hordinary Hws _ Hne.
  pose proof (ordinary_pos bw Hordinary) as Hpos.
  assert (Hnz : bw <> 0%Qc) by (intros ->; exact (Qclt_not_le _ _ Hpos (Qcle_refl _))).
  destruct (alignment_metrics_run _ _ _ _ Hbw Hnz Hws Hne)
    as (metrics & Hrun & Hjustify & _ & Hright).
  eexists metrics, _, _. split; [exact Hrun |]. split; [exact Hjustify |].
  split; [exact Hright |].
  destruct (forallb _ ws) eqn:Hall; [| reflexivity]. cbn [andb].
  destruct (Qc_ltb (total ws / _) _) eqn:Hlt; [exfalso | reflexivity].
  assert (Hwsne : ws <> []).
  { intros ->. inversion Hws. subst. contradiction. }
  set (n := fl (inject_Z (Z.of_nat (length ws)))) in *.
  assert (Hn : (0 < n)%Qc).
  { apply qz_pos. destruct ws; [contradiction | cbn [length]; lia]. }
  apply Qc_ltb_iff, (Qc_div_lt _ _ _ Hn) in Hlt.
  assert (Habove : (fl 0.7 * bw * n < total ws)%Qc).
  { apply total_above; [| exact Hwsne].
    rewrite forallb_forall in Hall. apply List.Forall_forall. intros w Hw.
    apply Qc_lt_div; [exact Hpos |]. apply Qc_ltb_iff, Hall, Hw. }
  assert (Hp : (0 < bw * n)%Qc) by (apply Qc_pos_mul; assumption).
  replace (fl 0.7 * bw * n)%Qc with (fl 0.7 * (bw * n))%Qc in Habove by ring.
  replace (bw * fl 0.5 * n)%Qc with (fl 0.5 * (bw * n))%Qc in Hlt by ring.
  revert Hlt Habove Hp. generalize (bw * n)%Qc, (total ws). intros p t Hlt Habove Hp.
  qc_lra.
Qed.

Lemma justify_excludes_right_witness :
  exists (metrics : dict) (justify right : bool),
    calculate_alignment_metrics (VInt 100) [VInt 80; VFloat (fl 95.5); VInt 90]
    = Ok metrics
    /\ recommended metrics "justify" = Some (VBool justify)
    /\ recommended metrics "right" = Some (VBool right)
    /\ justify && right = false.
Proof.
  apply (justify_excludes_right (VInt 100) [VInt 80; VFloat (fl 95.5); VInt 90]
           (fl (inject_Z 100))
           [fl (inject_Z 80); fl 95.5; fl (inject_Z 90)]);
    [ reflexivity
    | split; vm_compute; discriminate
    | repeat constructor
    | repeat constructor; vm_compute; discriminate
    | discriminate ].
Defined.

(** X26: a block of width zero with at least one line, every line width
    a number within the range of the floats, makes the function raise
    [ZeroDivisionError]; with no line at all it returns for every width
    that is a number of ordinary magnitude, or zero or negative within the
    range of the floats, and then recommends "justify" and "center", and
    "right" exactly when the width is positive. *)
Theorem alignment_metrics_at_the_edges :
  (forall (block_width : value) (line_widths : list value) (ws : list Qc),
      as_num block_width = Some 0%Qc ->
      numbers line_widths ws -> Forall in_float_range ws -> line_widths <> [] ->
      calculate_alignment_metrics block_width line_widths = Raise ZeroDivisionError)
  /\ (forall (block_width : value) (bw : Qc),
         as_num block_width = Some bw ->
         ordinary bw \/ (- huge <= bw)%Qc /\ (bw <= 0)%Qc ->
         exists (metrics : dict) (right : bool),
           calculate_alignment_metrics block_width [] = Ok metrics
           /\ recommended metrics "justify" = Some (VBool true)
           /\ recommended metrics "center" = Some (VBool true)
           /\ recommended metrics "right" = Some (VBool right)
           /\ (right = true <-> (0 < bw)%Qc)).
Proof.
  split.
  - intros block_width line_widths ws Hbw Hws _ Hne.
    unfold calculate_alignment_metrics.
    assert (Htruthy : truthy (VList line_widths) = true)
      by (destruct line_widths; [contradiction | reflexivity]).
    rewrite Htruthy.
    destruct (sum_from_numbers _ _ Hws (VInt 0) (fl (inject_Z 0)) eq_refl)
      as (s & Hs & Hsn).
    unfold sum_. rewrite Hs. cbn [Py.rbind].
    assert (Hlen : fl (inject_Z (Z.of_nat (length line_widths))) <> 0%Qc).
    { apply qz_nonzero. destruct line_widths; [contradiction | cbn [length]; lia]. }
    unfold truediv at 1. rewrite Hsn. cbn [as_num]. rewrite (Qc_eqb_nonzero _ Hlen).
    cbn [Py.rbind].
    destruct Hws as [| v q l qs Hv Hrest]; [contradiction |].
    destruct (max_from_numbers _ _ Hrest v q Hv) as (hi & _ & Hhi & _).
    destruct (min_from_numbers _ _ Hrest v q Hv) as (lo & _ & Hlo & _).
    cbn [max_ min_]. rewrite Hhi, Hlo. cbn [Py.rbind mapM].
    unfold truediv at 1. rewrite Hv, Hbw. reflexivity.
  - intros block_width bw Hbw _. unfold calculate_alignment_metrics.
    cbn [truthy Py.rbind all_above length]. unfold lt at 1. cbn [as_num Py.rbind].
    rewrite (mul_float_r _ _ _ Hbw). cbn [Py.rbind].
    unfold lt at 1. cbn [as_num Py.rbind].
    eexists _, _. split; [reflexivity |]. unfold recommended. rewrite lookup_insert_eq.
    split; [reflexivity |]. split; [reflexivity |]. split; [reflexivity |].
    rewrite Qc_ltb_iff. change (fl (inject_Z 0)) with 0%Qc.
    split; intros H; qc_lra.
Qed.

Lemma alignment_metrics_at_the_edges_witness :
  calculate_alignment_metrics (VInt 0) [VInt 80; VInt 90]
  = Raise ZeroDivisionError.
Proof.
  destruct alignment_metrics_at_the_edges as [Hzero _].
  apply (Hzero (VInt 0) [VInt 80; VInt 90]
           [fl (inject_Z 80); fl (inject_Z 90)]);
    [ reflexivity
    | repeat constructor
    | repeat constructor; vm_compute; discriminate
    | discriminate ].
Defined.

End AlignmentMetrics.
(** ** Font size and letter spacing: what is read back *)

Section SizeAndSpacing.
Import PySeq font_size_handling letter_spacing_handling.

(** X27: the font size that [extract_font_size] reads after
    [reinsert_font_size] is the normalized size of the style, in points,
    for every span: whatever size the span had, and also when a later
    step of the reinsertion raises, since the size is written first. *)
Theorem font_size_read_back
    (format : value -> string) (span style_dict : dict) (v size : value) :
  style_dict !! "font-size" = Some v ->
  normalize_font_size v = Ok size ->
  extract_font_size format (VDict (reinsert_font_size style_dict span).2)
  = Ok ("font-size: " ++ format size ++ "pt;").
Proof.
  intros Hv Hnorm.
  assert (Hsize : (reinsert_font_size style_dict span).2 !! "size" = Some size).
  { apply (post_final _ _ (fun s => s !! "size" = Some size)).
    unfold reinsert_font_size, scale_attr. rewrite Hv.
    apply post_bind, post_lift. rewrite Hnorm.
    exec ltac:(map_lookups; first [reflexivity | assumption]). }
  unfold extract_font_size. rewrite Hsize. reflexivity.
Qed.

Lemma font_size_read_back_witness :
  extract_font_size (fun _ => "9")
    (VDict (reinsert_font_size (<["font-size" := VStr "12px"]> ∅)
              (<["size" := VInt 30]> ∅)).2)
  = Ok "font-size: 9pt;".
Proof.
  apply (font_size_read_back (fun _ => "9") (<["size" := VInt 30]> ∅)
           (<["font-size" := VStr "12px"]> ∅) (VStr "12px")
           (VFloat (fl (inject_Z 12) * fl 0.75)));
    reflexivity.
Defined.

Section Writer.

Variable get_text_width : value -> result value.

Lemma post_reads {A} (m : M dict A) (s : dict) (Qok : A -> dict -> Prop)
    (Qerr : dict -> Prop) :
  (m s).2 = s -> (forall a, Qok a s) -> Qerr s -> post m s Qok Qerr.
Proof.
  unfold post. destruct (m s) as [[a | e] s']; cbn [snd]; intros ->; auto.
Qed.

Lemma bbox_attr_or_zero_reads (attr : string) (s : dict) :
  (bbox_attr_or_zero attr s).2 = s.
Proof.
  unfold bbox_attr_or_zero. run_step.
  destruct (bool_decide (is_Some (s !! "bbox"))); [| reflexivity].
  destruct (s !! "bbox") as [bbox |]; [| reflexivity].
  destruct (getattr bbox attr); reflexivity.
Qed.

(** The loop that places the characters leaves the span as it is. *)
Lemma place_chars_reads (spacing : value) (text : list value) :
  forall (x_pos : value) (chars : list value) (s : dict),
    (place_chars get_text_width spacing text x_pos chars s).2 = s.
Proof.
  induction text as [| char text IH]; intros x_pos chars s; [reflexivity |].
  cbn [place_chars]. unfold Py.bind at 1, Py.lift at 1.
  destruct (get_text_width char) as [char_width |]; [| reflexivity].
  unfold Py.bind at 1, Py.lift at 1.
  destruct (add x_pos char_width) as [x1 |]; [| reflexivity].
  unfold Py.bind at 1.
  pose proof (bbox_attr_or_zero_reads "y0" s) as Hy0.
  destruct (bbox_attr_or_zero "y0" s) as [[y0 |] s0]; cbn [snd] in Hy0; subst s0;
    [| reflexivity].
  unfold Py.bind at 1.
  pose proof (bbox_attr_or_zero_reads "y1" s) as Hy1.
  destruct (bbox_attr_or_zero "y1" s) as [[y1 |] s1]; cbn [snd] in Hy1; subst s1;
    [| reflexivity].
  unfold Py.bind at 1, Py.lift at 1.
  destruct (add char_width spacing) as [step |]; [| reflexivity].
  unfold Py.bind at 1, Py.lift at 1.
  destruct (add x_pos step) as [x_pos' |]; [| reflexivity].
  apply IH.
Qed.

(** X28: after the reinsertion of a letter spacing that is not zero,
    [extract_letter_spacing] reads that spacing back, in points, for every
    span and whatever the widths of the characters are, also when a later
    step of the reinsertion raises: the spacing is written first, and the
    positions of the characters are consulted only for a spacing of
    zero. *)
Theorem letter_spacing_read_back
    (format format_2f : value -> string) (span style_dict : dict)
    (v : value) (spacing : Qc) :
  style_dict !! "letter-spacing" = Some v ->
  normalize_letter_spacing v = Ok (VFloat spacing) ->
  spacing <> 0%Qc ->
  extract_letter_spacing format format_2f
    (VDict (reinsert_letter_spacing get_text_width style_dict span).2)
  = Ok ("letter-spacing: " ++ format (VFloat spacing) ++ "pt;").
Proof.
  intros Hv Hnorm Hnz.
  assert (Hwritten :
    (reinsert_letter_spacing get_text_width style_dict span).2 !! "char_spacing"
    = Some (VFloat spacing)).
  { apply (post_final _ _ (fun s => s !! "char_spacing" = Some (VFloat spacing))).
    unfold reinsert_letter_spacing, add_attr. rewrite Hv.
    apply post_bind, post_lift. rewrite Hnorm.
    exec ltac:(first
      [ map_lookups; first [reflexivity | assumption]
      | apply post_reads;
        [ first [apply bbox_attr_or_zero_reads | apply place_chars_reads]
        | intros ? | ] ]). }
  unfold extract_letter_spacing. rewrite Hwritten.
  unfold eq_int. cbn [as_num]. change (fl (inject_Z 0)) with 0%Qc.
  rewrite (Qc_eqb_nonzero _ Hnz). reflexivity.
Qed.

End Writer.

Lemma letter_spacing_read_back_witness :
  extract_letter_spacing (fun _ => "1.5") (fun _ => "")
    (VDict (reinsert_letter_spacing (fun _ => Ok (VInt 6))
              (<["letter-spacing" := VStr "2px"]> ∅)
              (<["text" := VStr "ab"]> ∅)).2)
  = Ok "letter-spacing: 1.5pt;".
Proof.
  apply (letter_spacing_read_back (fun _ => Ok (VInt 6)) (fun _ => "1.5") (fun _ => "")
           (<["text" := VStr "ab"]> ∅) (<["letter-spacing" := VStr "2px"]> ∅)
           (VStr "2px") (fl (inject_Z 2) * fl 0.75));
    [reflexivity | reflexivity |].
  intros H. apply (f_equal this) in H. vm_compute in H. discriminate.
Defined.

End SizeAndSpacing.
